(** * httpd: a shallow embedding of the HTTP/1.1 engine and its checked properties

    The development follows the Go sources of the package:
    - [chunk.go]    chunked body reader, chunk writer, multipart reader;
    - [response.go] the handler-facing response;
    - the connection loop ([conn.serve]) and the request decoder
      ([readRequest], [setupBody], [parseContentType], [finishRequest], ...).

    Go strings and byte slices are lists of bytes ([list ascii]); Go [int]
    and [int64] are [Z]; a function that returns [(n, err)] returns the bytes
    it delivered together with [option error]; state reached through pointers
    (the connection's buffered reader and writer, the response, the multipart
    reader and its current part) is passed explicitly. *)

From Stdlib Require Import ZArith Lia Ascii String.
From stdpp Require Import base list strings gmap pretty.

Abbreviation bytes := (list ascii).
Coercion list_ascii_of_string : string >-> list.

Local Open Scope Z_scope.

(** ** Errors

    [EOF] and [ErrUnexpectedEOF] are the two values of package [io]; [Err]
    carries the message of [errors.New] or [fmt.Errorf]; [Panic] is a run-time
    panic (a slice bound out of range, a nil dereference), which the
    connection loop recovers from.  [ErrLongLine] and [ErrFuel] are outcomes of
    the model only, described where they are produced. *)

Inductive error : Type :=
| EOF
| ErrUnexpectedEOF
| Err (msg : bytes)
| Panic (msg : bytes)
| ErrLongLine
| ErrFuel.

#[global] Instance error_eq_dec : EqDecision error.
Proof. solve_decision. Defined.

Definition bufSize : nat := 4096.

(** ** Package [strings] and [bytes] *)

Module Strings.

(** [strings.IndexByte] and [bytes.IndexByte]: [None] is Go's [-1]. *)
Fixpoint IndexByte (s : bytes) (c : ascii) : option nat :=
  match s with
  | [] => None
  | x :: s' => if Ascii.eqb x c then Some 0%nat else S <$> IndexByte s' c
  end.

Fixpoint hasPrefix (p s : bytes) : bool :=
  match p, s with
  | [], _ => true
  | _ :: _, [] => false
  | a :: p', b :: s' => Ascii.eqb a b && hasPrefix p' s'
  end.

(** [bytes.Index]: the offset of the first occurrence of [sep] in [s]. *)
Fixpoint Index (s sep : bytes) : option nat :=
  if hasPrefix sep s then Some 0%nat
  else match s with
       | [] => None
       | _ :: s' => S <$> Index s' sep
       end.

(** [strings.Split(s, sep)] for a separator of one byte. *)
Fixpoint Split (s : bytes) (c : ascii) : list bytes :=
  match s with
  | [] => [[]]
  | x :: s' =>
      if Ascii.eqb x c then [] :: Split s' c
      else match Split s' c with
           | [] => [[x]]
           | w :: ws => (x :: w) :: ws
           end
  end.

(** [strings.ToLower] on the ASCII letters.  On other runes Go applies
    [unicode.ToLower]; no such rune is turned into a letter of "form-data",
    the only string the source compares a lowered string with. *)
Definition lowerByte (c : ascii) : ascii :=
  let n := nat_of_ascii c in
  if ((65 <=? n) && (n <=? 90))%nat then ascii_of_nat (n + 32) else c.

Definition ToLower (s : bytes) : bytes := map lowerByte s.

(** The white space of [unicode.IsSpace], as UTF-8: the six ASCII ones and
    U+0085, U+00A0, U+1680, U+2000..U+200A, U+2028, U+2029, U+202F, U+205F,
    U+3000.  [isSpaceRune bs] tells whether the bytes [bs] are one of them. *)
Definition isSpaceRune (bs : list nat) : bool :=
  match bs with
  | [c] => (9 <=? c) && (c <=? 13) || (c =? 32)
  | [a; b] => (a =? 194) && ((b =? 133) || (b =? 160))
  | [a; b; c] =>
      (a =? 225) && (b =? 154) && (c =? 128)
      || (a =? 226) && (b =? 128)
         && ((128 <=? c) && (c <=? 138) || (c =? 168) || (c =? 169) || (c =? 175))
      || (a =? 226) && (b =? 129) && (c =? 159)
      || (a =? 227) && (b =? 128) && (c =? 128)
  | _ => false
  end%nat.

(** The length in bytes of the white-space rune [s] starts with, [0] when it
    starts with none. *)
Definition spaceRuneLen (s : bytes) : nat :=
  let bs := map nat_of_ascii (take 3 s) in
  if isSpaceRune (take 1 bs) then 1
  else if isSpaceRune (take 2 bs) then 2
  else if isSpaceRune bs then 3
  else 0.

(** The same for the rune [s] ends with ([utf8.DecodeLastRune] steps back to
    the start byte of the last rune). *)
Definition spaceRuneLenLast (s : bytes) : nat :=
  let bs := map nat_of_ascii (drop (length s - 3) s) in
  let n := length bs in
  if isSpaceRune (drop (n - 1) bs) then 1
  else if isSpaceRune (drop (n - 2) bs) then 2
  else if isSpaceRune bs then 3
  else 0.

Fixpoint trimLeftSpace (fuel : nat) (s : bytes) : bytes :=
  match fuel with
  | O => s
  | S fuel' =>
      match spaceRuneLen s with
      | O => s
      | n => trimLeftSpace fuel' (drop n s)
      end
  end.

Fixpoint trimRightSpace (fuel : nat) (s : bytes) : bytes :=
  match fuel with
  | O => s
  | S fuel' =>
      match spaceRuneLenLast s with
      | O => s
      | n => trimRightSpace fuel' (take (length s - n) s)
      end
  end.

(** [strings.TrimSpace]. *)
Definition TrimSpace (s : bytes) : bytes :=
  let l := trimLeftSpace (length s) s in
  trimRightSpace (length l) l.

Fixpoint trimLeftByte (c : ascii) (s : bytes) : bytes :=
  match s with
  | x :: s' => if Ascii.eqb x c then trimLeftByte c s' else s
  | [] => []
  end.

(** [strings.Trim(s, cutset)] for a cutset of one ASCII byte. *)
Definition Trim (s : bytes) (c : ascii) : bytes :=
  rev (trimLeftByte c (rev (trimLeftByte c s))).

End Strings.

(** ** Package [strconv] *)

Module Strconv.

Definition isDigit (c : ascii) : bool :=
  let n := nat_of_ascii c in ((48 <=? n) && (n <=? 57))%nat.

Definition digitVal (c : ascii) : Z := Z.of_nat (nat_of_ascii c) - 48.

(** The digits of [s] read in base ten, most significant first; [None] when
    [s] holds a byte that is no digit. *)
Fixpoint parseDigits (acc : Z) (s : bytes) : option Z :=
  match s with
  | [] => Some acc
  | c :: s' => if isDigit c then parseDigits (acc * 10 + digitVal c) s' else None
  end.

(** [strconv.ParseInt(s, 10, 64)]: an optional sign, then at least one
    decimal digit and nothing else; [None] is a syntax or a range error. *)
Definition ParseInt (s : bytes) : option Z :=
  let '(neg, ds) :=
    match s with
    | c :: s' =>
        if Ascii.eqb c "+" then (false, s')
        else if Ascii.eqb c "-" then (true, s')
        else (false, s)
    | [] => (false, [])
    end in
  match ds with
  | [] => None
  | _ =>
      match parseDigits 0 ds with
      | Some un =>
          if neg then (if un <=? 2 ^ 63 then Some (- un) else None)
          else (if un <? 2 ^ 63 then Some un else None)
      | None => None
      end
  end.

(** [strconv.Itoa]. *)
Definition Itoa (n : Z) : bytes := list_ascii_of_string (pretty n).

Definition hexDigit (d : Z) : ascii :=
  ascii_of_nat (Z.to_nat (if d <? 10 then 48 + d else 87 + d)).

Fixpoint hexDigits (fuel : nat) (n : Z) (acc : bytes) : bytes :=
  match fuel with
  | O => acc
  | S fuel' =>
      if n <? 16 then hexDigit n :: acc
      else hexDigits fuel' (n / 16) (hexDigit (n mod 16) :: acc)
  end.

(** [fmt.Sprintf("%x", n)] for [0 <= n]: lower-case hexadecimal, no prefix. *)
Definition FormatHex (n : Z) : bytes := hexDigits (S (Z.to_nat (Z.log2 n))) n [].

End Strconv.

(** ** Headers

    Modelled from the spec: the type [Header] and its methods [Get] and [Set]
    are declared in a file that is not under src/.  The spec has it as an
    insertion-ordered multimap from field name (as received) to the sequence
    of its values, where lookup by exact name returns the first value or the
    empty string.  [Add] is the source's [header[k] = append(header[k], v)]. *)

Module Header.

Definition t : Type := list (bytes * list bytes).

Definition empty : t := [].

Fixpoint values (h : t) (k : bytes) : option (list bytes) :=
  match h with
  | [] => None
  | (k', vs) :: h' => if bool_decide (k' = k) then Some vs else values h' k
  end.

Definition Get (h : t) (k : bytes) : bytes :=
  match values h k with
  | Some (v :: _) => v
  | _ => []
  end.

Fixpoint Set_ (h : t) (k v : bytes) : t :=
  match h with
  | [] => [(k, [v])]
  | (k', vs) :: h' =>
      if bool_decide (k' = k) then (k', [v]) :: h' else (k', vs) :: Set_ h' k v
  end.

Fixpoint Add (h : t) (k v : bytes) : t :=
  match h with
  | [] => [(k, [v])]
  | (k', vs) :: h' =>
      if bool_decide (k' = k) then (k', vs ++ [v]) :: h' else (k', vs) :: Add h' k v
  end.

End Header.

(** ** Package [bufio] and [io]

    A [bufio.Reader] is the sequence of bytes it still has to deliver; after
    them its source is at end of stream.  A read delivers as many of the bytes
    asked for as there are (the library may deliver fewer, never none). *)

Module Bufio.

(** [bufio.Reader.Read(p)] with [len(p) = k], for a read that finds the
    bytes it asks for in the reader.  The reader's buffer is not modelled: a
    read that delivers fewer than [k] bytes of a longer input, because the
    buffer holds fewer, is not covered. *)
Definition Read (k : nat) (s : bytes) : bytes * option error * bytes :=
  match k, s with
  | O, _ => ([], None, s)
  | _, [] => ([], Some EOF, [])
  | _, _ => (take k s, None, drop k s)
  end.

(** [io.ReadFull(r, p)] with [len(p) = k]. *)
Definition ReadFull (k : nat) (s : bytes) : bytes * option error * bytes :=
  if (k <=? length s)%nat then (take k s, None, drop k s)
  else match s with
       | [] => ([], Some EOF, [])
       | _ => (s, Some ErrUnexpectedEOF, [])
       end.

(** [bufio.Reader.Peek(n)]: nothing is consumed. *)
Definition Peek (n : nat) (s : bytes) : bytes * option error :=
  if (n <=? length s)%nat then (take n s, None) else (s, Some EOF).

(** A [bufio.Writer]: the bytes held back ([buf[0:n]]) and the sticky error. *)
Record Writer : Type := mkWriter { wbuf : bytes; werr : option error }.

Definition newWriter : Writer := mkWriter [] None.

Definition Available (w : Writer) : nat := (bufSize - length (wbuf w))%nat.

Section Sink.

(** The writer lives in a state [S] ([get], [set]) which its destination may
    change as well: [sink p s] is the destination's [Write(p)].  The state is
    read again after each call of the destination, as the source reads [b.n]
    and [b.buf] again. *)
Context {S : Type} (get : S -> Writer) (set : S -> Writer -> S).
Context (sink : bytes -> S -> nat * option error * S).

(** [bufio.Writer.Flush]. *)
Definition Flush (s : S) : option error * S :=
  match werr (get s) with
  | Some e => (Some e, s)
  | None =>
      match wbuf (get s) with
      | [] => (None, s)
      | p =>
          let '(n, err, s') := sink p s in
          let w' := get s' in
          let err' :=
            match err with
            | None => if (n <? length (wbuf w'))%nat then Some (Err "short write") else None
            | Some e => Some e
            end in
          match err' with
          | Some e => (Some e, set s' (mkWriter (drop n (wbuf w')) (Some e)))
          | None => (None, set s' (mkWriter [] (werr w')))
          end
      end
  end.

(** The loop of [bufio.Writer.Write] and what follows it; [nn] counts the
    bytes accepted, and [ErrFuel] says that [fuel] rounds were not enough. *)
Fixpoint Write_loop (fuel : nat) (p : bytes) (nn : nat) (s : S) : nat * option error * S :=
  let w := get s in
  match werr w with
  | Some e => (nn, Some e, s)
  | None =>
      if (Available w <? length p)%nat then
        match fuel with
        | O => (nn, Some ErrFuel, s)
        | Datatypes.S fuel' =>
            match wbuf w with
            | [] =>
                let '(n, err, s') := sink p s in
                Write_loop fuel' (drop n p) (nn + n) (set s' (mkWriter (wbuf (get s')) err))
            | _ =>
                let n := Available w in
                let '(_, s') := Flush (set s (mkWriter (wbuf w ++ take n p) None)) in
                Write_loop fuel' (drop n p) (nn + n) s'
            end
        end
      else ((nn + length p)%nat, None, set s (mkWriter (wbuf w ++ p) None))
  end.

(** [bufio.Writer.Write(p)]. *)
Definition Write (fuel : nat) (p : bytes) (s : S) : nat * option error * S :=
  Write_loop fuel p 0 s.

(** The loop of [bufio.Writer.WriteString] for a destination that has no
    [WriteString] of its own (neither the socket nor [chunkWriter] has one):
    the buffer is filled and flushed, never passed by. *)
Fixpoint WriteString_loop (fuel : nat) (p : bytes) (nn : nat) (s : S)
  : nat * option error * S :=
  let w := get s in
  match werr w with
  | Some e => (nn, Some e, s)
  | None =>
      if (Available w <? length p)%nat then
        match fuel with
        | O => (nn, Some ErrFuel, s)
        | Datatypes.S fuel' =>
            let n := Available w in
            let '(_, s') := Flush (set s (mkWriter (wbuf w ++ take n p) None)) in
            WriteString_loop fuel' (drop n p) (nn + n) s'
        end
      else ((nn + length p)%nat, None, set s (mkWriter (wbuf w ++ p) None))
  end.

Definition WriteString (fuel : nat) (p : bytes) (s : S) : nat * option error * S :=
  WriteString_loop fuel p 0 s.

End Sink.

End Bufio.

(** ** The connection

    [bufr] is the connection's buffered reader; [bufw] its buffered writer
    over the socket [rwc]; [rwc_out] the bytes the socket has taken so far;
    [rwc_broken] tells that the peer is gone and a write to the socket
    fails. *)

Record conn : Type := mkConn {
  bufr : bytes;
  bufw : Bufio.Writer;
  rwc_out : bytes;
  rwc_broken : bool
}.

Definition newConn (input : bytes) : conn := mkConn input Bufio.newWriter [] false.

Definition set_bufr (c : conn) (s : bytes) : conn :=
  mkConn s (bufw c) (rwc_out c) (rwc_broken c).

Definition set_bufw (c : conn) (w : Bufio.Writer) : conn :=
  mkConn (bufr c) w (rwc_out c) (rwc_broken c).

(** [rwc.Write(p)]. *)
Definition rwc_Write (p : bytes) (c : conn) : nat * option error * conn :=
  if rwc_broken c then (0%nat, Some (Err "write: broken pipe"), c)
  else (length p, None, mkConn (bufr c) (bufw c) (rwc_out c ++ p) (rwc_broken c)).

(** [c.bufw.Write(p)], [c.bufw.WriteString(s)] and [c.bufw.Flush()].  Over
    the socket the loop of [Write] makes two rounds at most, and a round of
    [WriteString] empties the buffer or ends the loop. *)
Definition conn_Write (p : bytes) (c : conn) : nat * option error * conn :=
  Bufio.Write bufw set_bufw rwc_Write 3 p c.

Definition conn_WriteString (p : bytes) (c : conn) : nat * option error * conn :=
  Bufio.WriteString bufw set_bufw rwc_Write (S (length p)) p c.

Definition conn_Flush (c : conn) : option error * conn :=
  Bufio.Flush bufw set_bufw rwc_Write c.

(** ** Lines and header blocks *)

(** [readLine(bufr)].  [bufio.Reader.ReadLine] hands out a line whose
    terminator lies within the reader's buffer of [bufSize] bytes, without the
    terminator; what is left at end of stream is a line as well.  A longer
    line comes in pieces that alias the reader's buffer, and what the source
    assembles from them depends on how the input arrives: the model stops
    there with [ErrLongLine], and nothing is proved from that outcome. *)
Definition readLine (s : bytes) : bytes * option error * bytes :=
  match Strings.IndexByte (take bufSize s) "010" with
  | Some i =>
      let line := take i s in
      let line :=
        match last line with
        | Some c => if Ascii.eqb c "013" then take (i - 1) line else line
        | None => line
        end in
      (line, None, drop (S i) s)
  | None =>
      if (length s <? bufSize)%nat then
        match s with
        | [] => ([], Some EOF, [])
        | _ => (s, None, [])
        end
      else ([], Some ErrLongLine, s)
  end.

(** The loop of [readHeader]; [fuel] bounds the number of lines, and
    [ErrFuel] is not reached with the fuel [readHeader] gives. *)
Fixpoint readHeader_loop (fuel : nat) (header : Header.t) (s : bytes)
  : option Header.t * option error * bytes :=
  match fuel with
  | O => (None, Some ErrFuel, s)
  | S fuel' =>
      let '(line, err, s') := readLine s in
      match err with
      | Some e => (None, Some e, s')
      | None =>
          match line with
          | [] => (Some header, None, s')
          | _ =>
              match Strings.IndexByte line ":" with
              | None => (None, Some (Err "unsupported protocol"), s')
              | Some i =>
                  if (i =? length line - 1)%nat then readHeader_loop fuel' header s'
                  else
                    let k := take i line in
                    let v := Strings.TrimSpace (drop (S i) line) in
                    readHeader_loop fuel' (Header.Add header k v) s'
              end
          end
      end
  end.

Definition readHeader (s : bytes) : option Header.t * option error * bytes :=
  readHeader_loop (S (length s)) Header.empty s.

(** ** The chunked body reader ([chunkReader], chunk.go) *)

Definition CR : ascii := "013".
Definition LF : ascii := "010".
Definition CRLF : bytes := [CR; LF].

(** Go's [int] is 64 bits wide and wraps around. *)
Definition wrap64 (z : Z) : Z := (z + 2 ^ 63) mod 2 ^ 64 - 2 ^ 63.

Record chunkReader : Type := mkChunkReader {
  cr_n : Z;
  cr_done : bool;
  cr_crlf : ascii * ascii
}.

(** [&chunkReader{bufr: r.conn.bufr}]: the zero value of the other fields. *)
Definition newChunkReader : chunkReader := mkChunkReader 0 false (zero, zero).

(** The two-byte array [crlf] after [io.ReadFull] has stored [data] in it. *)
Definition store2 (data : bytes) (crlf : ascii * ascii) : ascii * ascii :=
  match data with
  | [] => crlf
  | [a] => (a, snd crlf)
  | a :: b :: _ => (a, b)
  end.

(** [chunkReader.discardCRLF]. *)
Definition chunkReader_discardCRLF (cw : chunkReader) (s : bytes)
  : option error * chunkReader * bytes :=
  let '(data, err, s') := Bufio.ReadFull 2 s in
  let crlf := store2 data (cr_crlf cw) in
  let cw' := mkChunkReader (cr_n cw) (cr_done cw) crlf in
  match err with
  | Some e =>
      if negb (Ascii.eqb (fst crlf) CR) || negb (Ascii.eqb (snd crlf) LF)
      then (Some (Err "unsupported encoding format of chunk"), cw', s')
      else (Some e, cw', s')
  | None => (None, cw', s')
  end.

Definition inRange (lo hi c : ascii) : bool :=
  ((nat_of_ascii lo <=? nat_of_ascii c) && (nat_of_ascii c <=? nat_of_ascii hi))%nat.

Definition byteDiff (c base : ascii) : Z :=
  Z.of_nat (nat_of_ascii c) - Z.of_nat (nat_of_ascii base).

(** The loop of [getChunkSize] over the bytes of the line. *)
Fixpoint chunkSize_loop (chunkSize : Z) (line : bytes) : Z * option error :=
  match line with
  | [] => (chunkSize, None)
  | c :: line' =>
      if inRange "a" "f" c then chunkSize_loop (wrap64 (chunkSize * 16 + byteDiff c "a" + 10)) line'
      else if inRange "A" "F" c then chunkSize_loop (wrap64 (chunkSize * 16 + byteDiff c "A" + 10)) line'
      else if inRange "0" "9" c then chunkSize_loop (wrap64 (chunkSize * 16 + byteDiff c "0")) line'
      else (0, Some (Err "illegal hex number"))
  end.

(** [chunkReader.getChunkSize]. *)
Definition getChunkSize (s : bytes) : Z * option error * bytes :=
  let '(line, err, s') := readLine s in
  match err with
  | Some e => (0, Some e, s')
  | None => let '(n, err') := chunkSize_loop 0 line in (n, err', s')
  end.

Definition set_cr_n (cw : chunkReader) (n : Z) : chunkReader :=
  mkChunkReader n (cr_done cw) (cr_crlf cw).

(** [chunkReader.Read(p)] with [len(p) = k], on the connection's reader [s]. *)
Definition chunkReader_Read (k : nat) (cw : chunkReader) (s : bytes)
  : bytes * option error * chunkReader * bytes :=
  if cr_done cw then ([], Some EOF, cw, s)
  else
    let '(err0, cw, s) :=
      if cr_n cw =? 0 then
        let '(n, err, s') := getChunkSize s in (err, set_cr_n cw n, s')
      else (None, cw, s) in
    match err0 with
    | Some e => ([], Some e, cw, s)
    | None =>
        if cr_n cw =? 0 then
          let cw := mkChunkReader (cr_n cw) true (cr_crlf cw) in
          let '(err, cw, s) := chunkReader_discardCRLF cw s in
          ([], err, cw, s)
        else if Z.of_nat k <=? cr_n cw then
          let '(data, err, s) := Bufio.Read k s in
          (data, err, set_cr_n cw (cr_n cw - Z.of_nat (length data)), s)
        else if cr_n cw <? 0 then
          ([], Some (Panic "slice bounds out of range"), cw, s)
        else
          let '(data, _, s) := Bufio.ReadFull (Z.to_nat (cr_n cw)) s in
          let cw := set_cr_n cw 0 in
          let '(err, cw, s) := chunkReader_discardCRLF cw s in
          (data, err, cw, s)
    end.

(** ** Request bodies ([eofReader], [io.LimitReader], [expectContinueReader]) *)

Inductive body : Type :=
| eofReader
| chunkBody (cw : chunkReader)
| limitReader (N : Z)
| expectContinueReader (wroteContinue : bool) (r : body).

Definition continueLine : bytes := "HTTP/1.1 100 Continue" ++ CRLF ++ CRLF.

(** [er.w.WriteString("HTTP/1.1 100 Continue\r\n\r\n")] and [er.w.Flush()],
    the results of which [expectContinueReader.Read] does not look at. *)
Definition emitContinue (c : conn) : conn :=
  let '(_, _, c1) := conn_WriteString continueLine c in
  let '(_, c2) := conn_Flush c1 in
  c2.

(** [r.Body.Read(p)] with [len(p) = k].  The chunked and the limited reader
    read from the connection's [bufr]; [expectContinueReader] writes to the
    connection's [bufw]. *)
Fixpoint body_Read (k : nat) (b : body) (c : conn) : bytes * option error * body * conn :=
  match b with
  | eofReader => ([], Some EOF, b, c)
  | chunkBody cw =>
      let '(data, err, cw', s') := chunkReader_Read k cw (bufr c) in
      (data, err, chunkBody cw', set_bufr c s')
  | limitReader N =>
      if N <=? 0 then ([], Some EOF, b, c)
      else
        let k' := if N <? Z.of_nat k then Z.to_nat N else k in
        let '(data, err, s') := Bufio.Read k' (bufr c) in
        (data, err, limitReader (N - Z.of_nat (length data)), set_bufr c s')
  | expectContinueReader wrote r =>
      let c := if wrote then c else emitContinue c in
      let '(data, err, r', c') := body_Read k r c in
      (data, err, expectContinueReader true r', c')
  end.

(** Reading a body to its end, as [ioutil.ReadAll(r.Body)] and
    [io.Copy(ioutil.Discard, r.Body)] do: [cap i] is the length of the slice
    offered to the [i]-th read.  End of stream ends the loop without an error;
    [ErrFuel] says that [fuel] reads were not enough. *)
Fixpoint body_ReadAll (cap : nat -> nat) (fuel i : nat) (b : body) (c : conn)
  : bytes * option error * body * conn :=
  match fuel with
  | O => ([], Some ErrFuel, b, c)
  | S fuel' =>
      let '(data, err, b', c') := body_Read (cap i) b c in
      match err with
      | Some EOF => (data, None, b', c')
      | Some e => (data, Some e, b', c')
      | None =>
          let '(rest, err', b'', c'') := body_ReadAll cap fuel' (S i) b' c' in
          (data ++ rest, err', b'', c'')
      end
  end.

(** ** The multipart reader ([MultipartReader] and [Part], chunk.go)

    The reader's source is the request body; its [bufio.Reader] is the
    sequence of bytes the body delivers.  [mr.curPart] and the [part] of
    [ReadForm] point to the same [Part]: the model passes that part next to
    the reader. *)

Definition DQUOTE : ascii := ascii_of_nat 34.

Record Part : Type := mkPart {
  p_Header : Header.t;
  formName : bytes;
  fileName : bytes;
  closed : bool;
  substituteReader : option Z;
  parsed : bool
}.

(** [new(Part)] with the header [NextPart] reads for it. *)
Definition newPart (h : Header.t) : Part := mkPart h [] [] false None false.

Record MultipartReader : Type := mkMultipartReader {
  mr_bufr : bytes;
  occurEofErr : bool;
  crlfDashBoundaryDash : bytes;
  crlfDashBoundary : bytes;
  dashBoundary : bytes;
  dashBoundaryDash : bytes;
  mr_crlf : ascii * ascii
}.

(** [NewMultipartReader(r, boundary)], [r] delivering the bytes [input]. *)
Definition NewMultipartReader (input boundary : bytes) : MultipartReader :=
  let b := CRLF ++ "--" ++ boundary ++ "--" in
  mkMultipartReader input false
    b (take (length b - 2) b) (drop 2 (take (length b - 2) b)) (drop 2 b)
    (zero, zero).

Definition set_mr_bufr (mr : MultipartReader) (s : bytes) : MultipartReader :=
  mkMultipartReader s (occurEofErr mr) (crlfDashBoundaryDash mr) (crlfDashBoundary mr)
    (dashBoundary mr) (dashBoundaryDash mr) (mr_crlf mr).

Definition set_occurEofErr (mr : MultipartReader) (b : bool) : MultipartReader :=
  mkMultipartReader (mr_bufr mr) b (crlfDashBoundaryDash mr) (crlfDashBoundary mr)
    (dashBoundary mr) (dashBoundaryDash mr) (mr_crlf mr).

Definition set_mr_crlf (mr : MultipartReader) (x : ascii * ascii) : MultipartReader :=
  mkMultipartReader (mr_bufr mr) (occurEofErr mr) (crlfDashBoundaryDash mr)
    (crlfDashBoundary mr) (dashBoundary mr) (dashBoundaryDash mr) x.

(** [MultipartReader.discardCRLF]. *)
Definition MultipartReader_discardCRLF (mr : MultipartReader)
  : option error * MultipartReader :=
  let '(data, err, s') := Bufio.ReadFull 2 (mr_bufr mr) in
  let crlf := store2 data (mr_crlf mr) in
  let mr' := set_mr_crlf (set_mr_bufr mr s') crlf in
  match err with
  | None =>
      if negb (Ascii.eqb (fst crlf) CR) && negb (Ascii.eqb (snd crlf) LF)
      then (Some (Err ("expect crlf, but got " ++ [fst crlf; snd crlf])), mr')
      else (None, mr')
  | Some e => (Some e, mr')
  end.

Definition set_substituteReader (p : Part) (r : option Z) : Part :=
  mkPart (p_Header p) (formName p) (fileName p) (closed p) r (parsed p).

Definition set_closed (p : Part) (b : bool) : Part :=
  mkPart (p_Header p) (formName p) (fileName p) b (substituteReader p) (parsed p).

(** [p.substituteReader.Read(buf)]: an [io.LimitedReader] with [N] bytes left
    over [mr.bufr]. *)
Definition substitute_Read (k : nat) (N : Z) (p : Part) (mr : MultipartReader)
  : bytes * option error * Part * MultipartReader :=
  if N <=? 0 then ([], Some EOF, set_substituteReader p (Some N), mr)
  else
    let k' := if N <? Z.of_nat k then Z.to_nat N else k in
    let '(data, err, s') := Bufio.Read k' (mr_bufr mr) in
    (data, err, set_substituteReader p (Some (N - Z.of_nat (length data))),
     set_mr_bufr mr s').

(** [Part.Read(buf)] with [len(buf) = k].  When [Peek(bufSize)] meets the end
    of the stream the source sets [occurEofErr] and calls itself: the second
    run peeks at all that is buffered, which then is all that is left. *)
Definition Part_Read (k : nat) (p : Part) (mr : MultipartReader)
  : bytes * option error * Part * MultipartReader :=
  if closed p then ([], Some EOF, p, mr)
  else
    match substituteReader p with
    | Some N => substitute_Read k N p mr
    | None =>
        let '(peek, mr) :=
          if occurEofErr mr then (mr_bufr mr, mr)
          else
            match Bufio.Peek bufSize (mr_bufr mr) with
            | (pk, None) => (pk, mr)
            | (_, Some _) => (mr_bufr mr, set_occurEofErr mr true)
            end in
        let index : Z :=
          match Strings.Index peek (crlfDashBoundary mr) with
          | Some i => Z.of_nat i
          | None => -1
          end in
        if negb (index =? -1) || ((index =? -1) && occurEofErr mr) then
          substitute_Read k index p mr
        else
          let maxRead := Z.of_nat bufSize - Z.of_nat (length (crlfDashBoundary mr)) + 1 in
          let maxRead := if maxRead >? Z.of_nat k then Z.of_nat k else maxRead in
          if maxRead <? 0 then ([], Some (Panic "slice bounds out of range"), p, mr)
          else
            let '(data, err, s') := Bufio.Read (Z.to_nat maxRead) (mr_bufr mr) in
            (data, err, p, set_mr_bufr mr s')
    end.

(** [io.Copy(dst, p)]: the part is read to its end; [cap i] is the length of
    the slice offered to the [i]-th read. *)
Fixpoint Part_ReadAll (cap : nat -> nat) (fuel i : nat) (p : Part) (mr : MultipartReader)
  : bytes * option error * Part * MultipartReader :=
  match fuel with
  | O => ([], Some ErrFuel, p, mr)
  | S fuel' =>
      let '(data, err, p', mr') := Part_Read (cap i) p mr in
      match err with
      | Some EOF => (data, None, p', mr')
      | Some e => (data, Some e, p', mr')
      | None =>
          let '(rest, err', p'', mr'') := Part_ReadAll cap fuel' (S i) p' mr' in
          (data ++ rest, err', p'', mr'')
      end
  end.

(** The loop of [io.Copy(dst, io.LimitReader(p, N))]. *)
Fixpoint Part_CopyN_loop (cap : nat -> nat) (fuel i : nat) (N : Z)
    (p : Part) (mr : MultipartReader)
  : bytes * option error * Part * MultipartReader :=
  match fuel with
  | O => ([], Some ErrFuel, p, mr)
  | S fuel' =>
      if N <=? 0 then ([], None, p, mr)
      else
        let k := if N <? Z.of_nat (cap i) then Z.to_nat N else cap i in
        let '(data, err, p', mr') := Part_Read k p mr in
        match err with
        | Some EOF => (data, None, p', mr')
        | Some e => (data, Some e, p', mr')
        | None =>
            let '(rest, err', p'', mr'') :=
              Part_CopyN_loop cap fuel' (S i) (N - Z.of_nat (length data)) p' mr' in
            (data ++ rest, err', p'', mr'')
        end
  end.

(** [io.CopyN(&buff, p, n)]: the bytes copied and the error. *)
Definition Part_CopyN (cap : nat -> nat) (fuel : nat) (n : Z)
    (p : Part) (mr : MultipartReader)
  : bytes * option error * Part * MultipartReader :=
  let '(data, err, p', mr') := Part_CopyN_loop cap fuel 0 n p mr in
  let written := Z.of_nat (length data) in
  let err' :=
    if written =? n then None
    else match err with
         | None => if written <? n then Some EOF else None
         | Some e => Some e
         end in
  (data, err', p', mr').

(** [Part.Close]. *)
Definition Part_Close (cap : nat -> nat) (fuel : nat) (p : Part) (mr : MultipartReader)
  : option error * Part * MultipartReader :=
  if closed p then (None, p, mr)
  else
    let '(_, err, p', mr') := Part_ReadAll cap fuel 0 p mr in
    (err, set_closed p' true, mr').

(** [getKV]. *)
Definition getKV (s : bytes) : bytes * bytes :=
  match Strings.Split s "=" with
  | [k; v] => (Strings.TrimSpace k, Strings.Trim v DQUOTE)
  | _ => ([], [])
  end.

(** The loop of [parseFormData] over the segments. *)
Fixpoint parseFormData_loop (ss : list bytes) (names : bytes * bytes) : bytes * bytes :=
  match ss with
  | [] => names
  | s :: ss' =>
      let '(key, value) := getKV s in
      parseFormData_loop ss'
        (if bool_decide (key = "name") then (value, snd names)
         else if bool_decide (key = "filename") then (fst names, value)
         else names)
  end.

(** [Part.parseFormData]. *)
Definition parseFormData (p : Part) : Part :=
  let cd := Header.Get (p_Header p) "Content-Disposition" in
  let ss := Strings.Split cd ";" in
  let names :=
    if (length ss =? 1)%nat
       || negb (bool_decide (Strings.ToLower (hd [] ss) = "form-data"))
    then (formName p, fileName p)
    else parseFormData_loop ss (formName p, fileName p) in
  mkPart (p_Header p) (fst names) (snd names) (closed p) (substituteReader p) true.

(** [Part.FormName] and [Part.FileName] parse on first use. *)
Definition Part_parse (p : Part) : Part := if parsed p then p else parseFormData p.

Definition FormName (p : Part) : bytes := formName (Part_parse p).

Definition FileName (p : Part) : bytes := fileName (Part_parse p).

(** The first block of [NextPart], [if mr.curPart != nil { ... }]: the
    current part is closed and the CRLF after it discarded. *)
Definition closeCurPart (cap : nat -> nat) (cur : option Part) (mr : MultipartReader)
  : option error * option Part * MultipartReader :=
  match cur with
  | None => (None, cur, mr)
  | Some p =>
      let '(err, p', mr') := Part_Close cap (S (S (length (mr_bufr mr)))) p mr in
      match err with
      | Some e => (Some e, Some p', mr')
      | None =>
          let '(err', mr'') := MultipartReader_discardCRLF mr' in
          (err', Some p', mr'')
      end
  end.

(** [MultipartReader.NextPart]; [cur] is [mr.curPart].  The part returned is
    the new [mr.curPart] unless an error is returned with it. *)
Definition NextPart (cap : nat -> nat) (cur : option Part) (mr : MultipartReader)
  : option Part * option error * option Part * MultipartReader :=
  let '(err0, cur, mr) := closeCurPart cap cur mr in
  match err0 with
  | Some e => (None, Some e, cur, mr)
  | None =>
      let '(line, err, s') := readLine (mr_bufr mr) in
      let mr := set_mr_bufr mr s' in
      match err with
      | Some e => (None, Some e, cur, mr)
      | None =>
          if bool_decide (line = dashBoundaryDash mr) then (None, Some EOF, cur, mr)
          else if negb (bool_decide (line = dashBoundary mr)) then
            (None,
             Some (Err ("want delimiter " ++ dashBoundary mr ++ ", but got " ++ line)),
             cur, mr)
          else
            let '(h, err', s'') := readHeader (mr_bufr mr) in
            let mr := set_mr_bufr mr s'' in
            let p := newPart (default Header.empty h) in
            match err' with
            | Some e => (Some p, Some e, cur, mr)
            | None => (Some p, None, Some p, mr)
            end
      end
  end.

(** ** Temporary files

    The files [os.CreateTemp] has made and [os.Remove] has not removed, with
    their contents.  [os.CreateTemp("", "multipart-")] gives a name that is
    not in use; creating, writing and closing a file are taken to succeed. *)

Record FS : Type := mkFS { files : gmap bytes bytes; created : nat }.

Definition emptyFS : FS := mkFS ∅ 0.

Definition tmpName (n : nat) : bytes := "multipart-" ++ list_ascii_of_string (pretty n).

Definition CreateTemp (fs : FS) : bytes * FS :=
  let name := tmpName (created fs) in
  (name, mkFS (<[name := []]> (files fs)) (S (created fs))).

Definition writeFile (name data : bytes) (fs : FS) : FS :=
  mkFS (<[name := data]> (files fs)) (created fs).

Definition Remove (name : bytes) (fs : FS) : FS :=
  mkFS (delete name (files fs)) (created fs).

(** ** Form aggregation ([MultipartReader.ReadForm]) *)

Record FileHeader : Type := mkFileHeader {
  fh_FileName : bytes;
  fh_Header : Header.t;
  fh_Size : Z;
  fh_content : bytes;
  fh_tmpFile : bytes
}.

Record MultipartForm : Type := mkMultipartForm {
  Value : gmap bytes bytes;
  File : gmap bytes FileHeader
}.

Definition emptyForm : MultipartForm := mkMultipartForm ∅ ∅.

Record ReadFormResult : Type := mkReadFormResult {
  rf_mf : option MultipartForm;
  rf_err : option error;
  rf_cur : option Part;
  rf_mr : MultipartReader;
  rf_fs : FS
}.

(** [err != nil && err != io.EOF]. *)
Definition fatal (err : option error) : option error :=
  match err with
  | Some EOF => None
  | e => e
  end.

(** The loop of [ReadForm]: [nonFileMaxMemory] and [fileMaxMemory] are the
    two local budgets, [mf] the form built so far. *)
Fixpoint ReadForm_loop (cap : nat -> nat) (fuel : nat)
    (nonFileMaxMemory fileMaxMemory : Z) (mf : MultipartForm)
    (cur : option Part) (mr : MultipartReader) (fs : FS) : ReadFormResult :=
  match fuel with
  | O => mkReadFormResult (Some mf) (Some ErrFuel) cur mr fs
  | S fuel' =>
      let '(part, err, cur, mr) := NextPart cap cur mr in
      match err, part with
      | Some EOF, _ => mkReadFormResult (Some mf) None cur mr fs
      | Some e, _ => mkReadFormResult (Some mf) (Some e) cur mr fs
      | None, None => mkReadFormResult (Some mf) (Some (Panic "nil part")) cur mr fs
      | None, Some p =>
          let p := Part_parse p in
          if bool_decide (formName p = []) then
            ReadForm_loop cap fuel' nonFileMaxMemory fileMaxMemory mf (Some p) mr fs
          else
            let cfuel := S (S (length (mr_bufr mr))) in
            if bool_decide (fileName p = []) then
              let '(buff, err, p, mr) := Part_CopyN cap cfuel (nonFileMaxMemory + 1) p mr in
              match fatal err with
              | Some e => mkReadFormResult (Some mf) (Some e) (Some p) mr fs
              | None =>
                  let nonFileMaxMemory := nonFileMaxMemory - Z.of_nat (length buff) in
                  if nonFileMaxMemory <? 0 then
                    mkReadFormResult None (Some (Err "multipart: message too large"))
                      (Some p) mr fs
                  else
                    ReadForm_loop cap fuel' nonFileMaxMemory fileMaxMemory
                      (mkMultipartForm (<[formName p := buff]> (Value mf)) (File mf))
                      (Some p) mr fs
              end
            else
              let '(buff, err, p, mr) := Part_CopyN cap cfuel (fileMaxMemory + 1) p mr in
              match fatal err with
              | Some e => mkReadFormResult (Some mf) (Some e) (Some p) mr fs
              | None =>
                  let n := Z.of_nat (length buff) in
                  if fileMaxMemory >=? n then
                    let fh := mkFileHeader (fileName p) (p_Header p) n buff [] in
                    ReadForm_loop cap fuel' nonFileMaxMemory (fileMaxMemory - n)
                      (mkMultipartForm (Value mf) (<[formName p := fh]> (File mf)))
                      (Some p) mr fs
                  else
                    let '(name, fs) := CreateTemp fs in
                    let '(rest, err, p, mr) := Part_ReadAll cap cfuel 0 p mr in
                    let fs := writeFile name (buff ++ rest) fs in
                    match err with
                    | Some e => mkReadFormResult (Some mf) (Some e) (Some p) mr (Remove name fs)
                    | None =>
                        let fh :=
                          mkFileHeader (fileName p) (p_Header p)
                            (Z.of_nat (length (buff ++ rest))) [] name in
                        let fs :=
                          match File mf !! formName p with
                          | Some mf_ => Remove (fh_tmpFile mf_) fs
                          | None => fs
                          end in
                        ReadForm_loop cap fuel' nonFileMaxMemory fileMaxMemory
                          (mkMultipartForm (Value mf) (<[formName p := fh]> (File mf)))
                          (Some p) mr fs
                    end
              end
      end
  end.

(** [MultipartReader.ReadForm], with the two ceilings the source starts from. *)
Definition ReadForm (cap : nat -> nat) (mr : MultipartReader) (fs : FS) : ReadFormResult :=
  ReadForm_loop cap (S (length (mr_bufr mr))) (10 * 2 ^ 20) (30 * 2 ^ 20)
    emptyForm None mr fs.

(** [MultipartForm.RemoveAll]. *)
Definition RemoveAll (mf : MultipartForm) (fs : FS) : FS :=
  map_fold (fun _ fh fs => if bool_decide (fh_tmpFile fh = []) then fs else Remove (fh_tmpFile fh) fs)
    fs (File mf).

(** [FileHeader.Open] followed by reading the file to its end. *)
Definition FileHeader_content (fh : FileHeader) (fs : FS) : option bytes :=
  if bool_decide (fh_tmpFile fh = []) then Some (fh_content fh)
  else files fs !! fh_tmpFile fh.

(** ** Package [fmt]: [Sscanf] with the format of [setupResponse] *)

Module Fmt.

(** [ss.SkipSpace] of [Sscanf]: white space is skipped, a newline is an
    error ([None]). *)
Fixpoint SkipSpace (fuel : nat) (s : bytes) : option bytes :=
  match fuel with
  | O => Some s
  | S fuel' =>
      match s with
      | [] => Some []
      | c :: _ =>
          if Ascii.eqb c "010" then None
          else match Strings.spaceRuneLen s with
               | O => Some s
               | n => SkipSpace fuel' (drop n s)
               end
      end
  end.

Definition isNumberByte (c : ascii) : bool := Strconv.isDigit c || Ascii.eqb c "_".

Fixpoint spanNumber (s : bytes) : bytes * bytes :=
  match s with
  | c :: s' =>
      if isNumberByte c then let '(a, b) := spanNumber s' in (c :: a, b) else ([], s)
  | [] => ([], [])
  end.

(** The verb [%d] into an [*int]: the value stored and the rest of the input,
    [None] when the scan fails (nothing is stored then). *)
Definition scanInt (s : bytes) : option (Z * bytes) :=
  match SkipSpace (length s) s with
  | None => None
  | Some [] => None
  | Some ((c :: r) as s1) =>
      let '(sign, s2) :=
        if Ascii.eqb c "+" || Ascii.eqb c "-" then ([c], r) else ([], s1) in
      let '(tok, s3) := spanNumber s2 in
      match tok with
      | [] => None
      | _ =>
          match Strconv.ParseInt (sign ++ tok) with
          | Some z => Some (z, s3)
          | None => None
          end
      end
  end.

Fixpoint stripPrefix (p s : bytes) : option bytes :=
  match p, s with
  | [], _ => Some s
  | a :: p', b :: s' => if Ascii.eqb a b then stripPrefix p' s' else None
  | _ :: _, [] => None
  end.

(** [fmt.Sscanf(s, "HTTP/%d%d", &x, &y)] with [x] and [y] zero before: the
    values of [x] and [y] afterwards.  The scan stops at the first failure and
    leaves the remaining variables as they are. *)
Definition Sscanf_HTTP_d_d (s : bytes) : Z * Z :=
  match stripPrefix "HTTP/" s with
  | None => (0, 0)
  | Some s1 =>
      match scanInt s1 with
      | None => (0, 0)
      | Some (x, s2) =>
          match scanInt s2 with
          | None => (x, 0)
          | Some (y, _) => (x, y)
          end
      end
  end.

End Fmt.

(** ** Requests *)

Record Request : Type := mkRequest {
  Method : bytes;
  Proto : bytes;
  r_Header : Header.t;
  Body : body;
  contentType : bytes;
  boundary : bytes;
  postForm : option (gmap bytes bytes);
  multipartForm : option MultipartForm;
  haveParsedForm : bool;
  parseFormErr : option error
}.

(** [new(Request)] with the method, protocol and header [readRequest] reads. *)
Definition newRequest (m p : bytes) (h : Header.t) : Request :=
  mkRequest m p h eofReader [] [] None None false None.

Definition set_Body (r : Request) (b : body) : Request :=
  mkRequest (Method r) (Proto r) (r_Header r) b (contentType r) (boundary r)
    (postForm r) (multipartForm r) (haveParsedForm r) (parseFormErr r).

Definition set_contentType (r : Request) (ct b : bytes) : Request :=
  mkRequest (Method r) (Proto r) (r_Header r) (Body r) ct b
    (postForm r) (multipartForm r) (haveParsedForm r) (parseFormErr r).

Definition set_forms (r : Request) (pf : option (gmap bytes bytes))
    (mf : option MultipartForm) (have : bool) (e : option error) : Request :=
  mkRequest (Method r) (Proto r) (r_Header r) (Body r) (contentType r) (boundary r)
    pf mf have e.

(** [r.Method != "POST" && r.Method != "PUT"]. *)
Definition noBodyMethod (r : Request) : bool :=
  negb (bool_decide (Method r = "POST")) && negb (bool_decide (Method r = "PUT")).

(** [Request.chunked]. *)
Definition chunked (r : Request) : bool :=
  bool_decide (Header.Get (r_Header r) "Transfer-Encoding" = "chunked").

(** [Request.fixExpectContinueReader]. *)
Definition fixExpectContinueReader (r : Request) : Request :=
  if negb (bool_decide (Header.Get (r_Header r) "Expect" = "100-continue")) then r
  else set_Body r (expectContinueReader false (Body r)).

(** [Request.setupBody]. *)
Definition setupBody (r : Request) : Request :=
  if noBodyMethod r then set_Body r eofReader
  else if chunked r then
    fixExpectContinueReader (set_Body r (chunkBody newChunkReader))
  else
    let cl := Header.Get (r_Header r) "Content-Length" in
    if negb (bool_decide (cl = [])) then
      match Strconv.ParseInt cl with
      | None => set_Body r eofReader
      | Some contentLength =>
          fixExpectContinueReader (set_Body r (limitReader contentLength))
      end
    else set_Body r eofReader.

(** [Request.parseContentType]. *)
Definition parseContentType (r : Request) : Request :=
  let ct := Header.Get (r_Header r) "Content-Type" in
  match Strings.IndexByte ct ";" with
  | None => set_contentType r ct (boundary r)
  | Some index =>
      if (index =? length ct - 1)%nat then r
      else
        let ss := Strings.Split (drop (S index) ct) "=" in
        match ss with
        | s0 :: s1 :: _ =>
            if negb (bool_decide (Strings.TrimSpace s0 = "boundary")) then r
            else set_contentType r (take index ct) (Strings.Trim s1 DQUOTE)
        | _ => r
        end
  end.

(** [parseQuery]. *)
Fixpoint parseQuery_loop (parts : list bytes) (queries : gmap bytes bytes)
  : gmap bytes bytes :=
  match parts with
  | [] => queries
  | part :: parts' =>
      match Strings.IndexByte part "=" with
      | None => parseQuery_loop parts' queries
      | Some index =>
          if (index =? length part - 1)%nat then parseQuery_loop parts' queries
          else
            parseQuery_loop parts'
              (<[Strings.TrimSpace (take index part) :=
                   Strings.TrimSpace (drop (S index) part)]> queries)
      end
  end.

Definition parseQuery (RawQuery : bytes) : gmap bytes bytes :=
  parseQuery_loop (Strings.Split RawQuery "&") ∅.

Section Forms.

(** The lengths of the slices the library offers to successive reads. *)
Context (cap : nat -> nat).

(** The number of reads that empty a body over [c]: a read delivers a byte,
    ends the body, or takes a chunk-size line from the input. *)
Definition readFuel (c : conn) : nat := (2 * length (bufr c) + 4)%nat.

(** [Request.parsePostForm]. *)
Definition parsePostForm (r : Request) (c : conn) : option error * Request * conn :=
  let '(data, err, b, c') := body_ReadAll cap (readFuel c) 0 (Body r) c in
  let r := set_Body r b in
  match err with
  | Some e => (Some e, r, c')
  | None =>
      (None, set_forms r (Some (parseQuery data)) (multipartForm r)
               (haveParsedForm r) (parseFormErr r), c')
  end.

(** [Request.parseMultipartForm] after [Request.MultipartReader].  The
    multipart reader reads the body through a buffered reader of its own: the
    model hands it the bytes the body delivers up to its end.  When
    [ReadForm] takes the whole body, as it does when it succeeds, that is
    what the source has read as well; when it stops before the end, the
    source leaves on the connection what the multipart reader has not yet
    taken into its buffer, and the model leaves nothing: no property is
    stated about the connection after a parse that failed.  [ReadForm] giving
    no form, [r.multipartForm.Value] is a nil dereference. *)
Definition parseMultipartForm (r : Request) (c : conn) (fs : FS)
  : option error * Request * conn * FS :=
  if bool_decide (boundary r = []) then (Some (Err "no boundary detected"), r, c, fs)
  else
    let '(data, _, b, c') := body_ReadAll cap (readFuel c) 0 (Body r) c in
    let r := set_Body r b in
    let res := ReadForm cap (NewMultipartReader data (boundary r)) fs in
    match rf_mf res with
    | None =>
        (Some (Panic "nil pointer dereference"),
         set_forms r (postForm r) None (haveParsedForm r) (parseFormErr r), c', rf_fs res)
    | Some mf =>
        (rf_err res,
         set_forms r (Some (Value mf)) (Some mf) (haveParsedForm r) (parseFormErr r),
         c', rf_fs res)
    end.

(** [Request.parseForm]. *)
Definition parseForm (r : Request) (c : conn) (fs : FS)
  : option error * Request * conn * FS :=
  if noBodyMethod r then (Some (Err "missing form body"), r, c, fs)
  else
    let r := set_forms r (postForm r) (multipartForm r) true (parseFormErr r) in
    if bool_decide (contentType r = "application/x-www-form-urlencoded") then
      let '(err, r, c) := parsePostForm r c in (err, r, c, fs)
    else if bool_decide (contentType r = "multipart/form-data") then
      parseMultipartForm r c fs
    else (Some (Err "unsupported form type"), r, c, fs).

(** [Request.MultipartForm]. *)
Definition Request_MultipartForm (r : Request) (c : conn) (fs : FS)
  : option MultipartForm * option error * Request * conn * FS :=
  if negb (haveParsedForm r) then
    let '(err, r', c', fs') := parseForm r c fs in
    match err with
    | Some e =>
        (None, Some e,
         set_forms r' (postForm r') (multipartForm r') (haveParsedForm r') (Some e),
         c', fs')
    | None => (multipartForm r', parseFormErr r', r', c', fs')
    end
  else (multipartForm r, parseFormErr r, r, c, fs).

(** [Request.PostForm]. *)
Definition Request_PostForm (name : bytes) (r : Request) (c : conn) (fs : FS)
  : bytes * Request * conn * FS :=
  let '(r, c, fs) :=
    if negb (haveParsedForm r) then
      let '(err, r', c', fs') := parseForm r c fs in
      (set_forms r' (postForm r') (multipartForm r') (haveParsedForm r') err, c', fs')
    else (r, c, fs) in
  match parseFormErr r, postForm r with
  | None, Some pf => (default [] (pf !! name), r, c, fs)
  | _, _ => ([], r, c, fs)
  end.

End Forms.

(** [Request.FormFile].  [r.MultipartForm()] gives no form and no error when
    the form has been parsed and is not a multipart one; [mf.File] is a nil
    dereference then. *)
Definition Request_FormFile (cap : nat -> nat) (key : bytes)
    (r : Request) (c : conn) (fs : FS)
  : option FileHeader * option error * Request * conn * FS :=
  let '(mf, err, r, c, fs) := Request_MultipartForm cap r c fs in
  match err, mf with
  | Some e, _ => (None, Some e, r, c, fs)
  | None, None => (None, Some (Panic "nil pointer dereference"), r, c, fs)
  | None, Some mf =>
      match File mf !! key with
      | None => (None, Some (Err "http: miss multipart file"), r, c, fs)
      | Some fh => (Some fh, None, r, c, fs)
      end
  end.

(** ** Cookies ([Request.parseCookies], [Request.Cookie]) *)

(** The loop of [parseCookies] over the pieces of one Cookie line. *)
Fixpoint parseCookies_kvs (kvs : list bytes) (cookies : gmap bytes bytes)
  : gmap bytes bytes :=
  match kvs with
  | [] => cookies
  | kv :: kvs' =>
      match Strings.IndexByte kv "=" with
      | None => parseCookies_kvs kvs' cookies
      | Some index =>
          parseCookies_kvs kvs'
            (<[Strings.TrimSpace (take index kv) :=
                 Strings.TrimSpace (drop (S index) kv)]> cookies)
      end
  end.

(** The loop of [parseCookies] over the Cookie lines. *)
Fixpoint parseCookies_lines (lines : list bytes) (cookies : gmap bytes bytes)
  : gmap bytes bytes :=
  match lines with
  | [] => cookies
  | line :: lines' =>
      let kvs := Strings.Split (Strings.TrimSpace line) ";" in
      if (length kvs =? 1)%nat && bool_decide (hd [] kvs = []) then
        parseCookies_lines lines' cookies
      else parseCookies_lines lines' (parseCookies_kvs kvs cookies)
  end.

(** [Request.parseCookies] on a request whose [cookies] is nil: the map made
    from [r.Header["Cookie"]]. *)
Definition parseCookies (h : Header.t) : gmap bytes bytes :=
  match Header.values h "Cookie" with
  | None => ∅
  | Some rawCookies => parseCookies_lines rawCookies ∅
  end.

(** [Request.Cookie]; [cookies] is the field [r.cookies], [None] for nil. *)
Definition Request_Cookie (name : bytes) (cookies : option (gmap bytes bytes))
    (h : Header.t) : bytes * option (gmap bytes bytes) :=
  let m := match cookies with
           | None => parseCookies h
           | Some m => m
           end in
  (default [] (m !! name), Some m).

(** ** Responses ([response], response.go; [chunkWriter], chunk.go) *)

Record response : Type := mkResponse {
  wroteHeader : bool;
  header : Header.t;
  statusCode : Z;
  handlerDone : bool;
  resp_bufw : Bufio.Writer;
  cw_wrote : bool;
  resp_Proto : bytes;
  closeAfterReply : bool;
  chunking : bool
}.

Definition set_header (w : response) (h : Header.t) : response :=
  mkResponse (wroteHeader w) h (statusCode w) (handlerDone w) (resp_bufw w)
    (cw_wrote w) (resp_Proto w) (closeAfterReply w) (chunking w).

Definition set_resp_bufw (w : response) (b : Bufio.Writer) : response :=
  mkResponse (wroteHeader w) (header w) (statusCode w) (handlerDone w) b
    (cw_wrote w) (resp_Proto w) (closeAfterReply w) (chunking w).

Definition set_cw_wrote (w : response) (b : bool) : response :=
  mkResponse (wroteHeader w) (header w) (statusCode w) (handlerDone w) (resp_bufw w)
    b (resp_Proto w) (closeAfterReply w) (chunking w).

Definition set_closeAfterReply (w : response) (b : bool) : response :=
  mkResponse (wroteHeader w) (header w) (statusCode w) (handlerDone w) (resp_bufw w)
    (cw_wrote w) (resp_Proto w) b (chunking w).

Definition set_chunking (w : response) (b : bool) : response :=
  mkResponse (wroteHeader w) (header w) (statusCode w) (handlerDone w) (resp_bufw w)
    (cw_wrote w) (resp_Proto w) (closeAfterReply w) b.

Definition set_handlerDone (w : response) (b : bool) : response :=
  mkResponse (wroteHeader w) (header w) (statusCode w) b (resp_bufw w)
    (cw_wrote w) (resp_Proto w) (closeAfterReply w) (chunking w).

(** [setupResponse].  The source names the variable that receives the first
    number [protoMinor] and the second [protoMajor]. *)
Definition setupResponse (req : Request) : response :=
  let '(protoMinor, protoMajor) := Fmt.Sscanf_HTTP_d_d (Proto req) in
  let close :=
    (protoMinor <? 1) || ((protoMinor =? 1) && (protoMajor =? 0))
    || bool_decide (Header.Get (r_Header req) "Connectioni" = "close") in
  mkResponse false Header.empty 200 false Bufio.newWriter false (Proto req) close false.

(** [response.Write]. *)
Definition response_Write (p : bytes) (w : response) (c : conn)
  : nat * option error * response * conn :=
  let '(n, err, c') := conn_Write p c in
  match err with
  | Some e => (n, Some e, set_closeAfterReply w true, c')
  | None => (n, None, w, c')
  end.

(** [response.WriteHeader]. *)
Definition response_WriteHeader (code : Z) (w : response) : response :=
  if wroteHeader w then w
  else mkResponse true (header w) code (handlerDone w) (resp_bufw w)
         (cw_wrote w) (resp_Proto w) (closeAfterReply w) (chunking w).

Section Encoder.

(** [http.DetectContentType] of the Go library, and the table [statusText],
    which is declared in a file that is not under src/. *)
Context (DetectContentType : bytes -> bytes) (statusText : Z -> bytes).

(** [chunkWriter.finalizeHeader]. *)
Definition finalizeHeader (p : bytes) (w : response) : response :=
  let w :=
    if bool_decide (Header.Get (header w) "Content-Type" = [])
    then set_header w (Header.Set_ (header w) "Content-Type" (DetectContentType p))
    else w in
  if bool_decide (Header.Get (header w) "Content-Length" = [])
     && bool_decide (Header.Get (header w) "Transfer-Encoding" = [])
  then
    if handlerDone w then
      let buffered := Z.of_nat (length (Bufio.wbuf (resp_bufw w))) in
      set_header w (Header.Set_ (header w) "Content-Length" (Strconv.Itoa buffered))
    else
      let w := set_chunking w true in
      set_header w (Header.Set_ (header w) "Transfer-Encoding" "chunked")
  else if bool_decide (Header.Get (header w) "Transfer-Encoding" = "chunked")
  then set_chunking w true
  else w.

(** The loop of [writeHeader] over the header; the fields come in the order
    of the list (Go ranges over its map in no fixed order). *)
Fixpoint writeHeader_loop (h : Header.t) (c : conn) : option error * conn :=
  match h with
  | [] => (None, c)
  | (k, v) :: h' =>
      match v with
      | [] => (Some (Panic "index out of range"), c)
      | v0 :: _ =>
          let '(_, err, c') := conn_WriteString (k ++ ": " ++ v0 ++ CRLF) c in
          match err with
          | Some e => (Some e, c')
          | None => writeHeader_loop h' c'
          end
      end
  end.

(** [chunkWriter.writeHeader]. *)
Definition writeHeader (w : response) (c : conn) : option error * conn :=
  let codeString := Strconv.Itoa (statusCode w) in
  let statusLine :=
    resp_Proto w ++ " " ++ codeString ++ " " ++ statusText (statusCode w) ++ CRLF in
  let '(_, err, c) := conn_WriteString statusLine c in
  match err with
  | Some e => (Some e, c)
  | None =>
      let '(err, c) := writeHeader_loop (header w) c in
      match err with
      | Some e => (Some e, c)
      | None => let '(_, err, c) := conn_WriteString CRLF c in (err, c)
      end
  end.

(** The state [resp.bufw] lives in, for [Bufio.Flush] and [Bufio.Write]. *)
Definition get_resp_bufw (st : response * conn) : Bufio.Writer := resp_bufw (fst st).

Definition put_resp_bufw (st : response * conn) (b : Bufio.Writer) : response * conn :=
  (set_resp_bufw (fst st) b, snd st).

(** [chunkWriter.Write].  Its [bufw] is [cw.resp.bufw], the buffered writer
    whose destination is this very [chunkWriter]: when that buffer overflows,
    the writer calls [chunkWriter.Write] again, and [fuel] bounds the depth.
    The header goes to the connection's writer ([cw.resp.c.bufw]). *)
Fixpoint chunkWriter_Write (fuel : nat) (p : bytes) (st : response * conn)
  : nat * option error * (response * conn) :=
  match fuel with
  | O => (0%nat, Some ErrFuel, st)
  | S fuel' =>
      let '(w, c) := st in
      let '(err0, w, c) :=
        if cw_wrote w then (None, w, c)
        else
          let w := finalizeHeader p w in
          let '(err, c) := writeHeader w c in
          match err with
          | Some e => (Some e, w, c)
          | None => (None, set_cw_wrote w true, c)
          end in
      match err0 with
      | Some e => (0%nat, Some e, (w, c))
      | None =>
          let bufw_Write :=
            Bufio.Write get_resp_bufw put_resp_bufw (chunkWriter_Write fuel') fuel' in
          let bufw_WriteString :=
            Bufio.WriteString get_resp_bufw put_resp_bufw (chunkWriter_Write fuel') fuel' in
          let '(err1, st) :=
            if chunking w then
              let '(_, err, st) :=
                bufw_Write (Strconv.FormatHex (Z.of_nat (length p)) ++ CRLF) (w, c) in
              (err, st)
            else (None, (w, c)) in
          match err1 with
          | Some e => (0%nat, Some e, st)
          | None =>
              let '(n, err, st) := bufw_Write p st in
              match err with
              | None =>
                  if chunking (fst st) then
                    let '(_, err', st) := bufw_WriteString CRLF st in (n, err', st)
                  else (n, None, st)
              | Some e => (n, Some e, st)
              end
          end
      end
  end.

(** [resp.bufw.Flush()]. *)
Definition resp_Flush (fuel : nat) (st : response * conn) : option error * (response * conn) :=
  Bufio.Flush get_resp_bufw put_resp_bufw (chunkWriter_Write fuel) st.

Section Finish.

Context (cap : nat -> nat) (fuel : nat).

(** [Request.finishRequest]. *)
Definition finishRequest (r : Request) (w : response) (c : conn) (fs : FS)
  : option error * Request * response * conn * FS :=
  let fs :=
    match multipartForm r with
    | Some mf => RemoveAll mf fs
    | None => fs
    end in
  let w := set_handlerDone w true in
  let '(err, (w, c)) := resp_Flush fuel (w, c) in
  match err with
  | Some e => (Some e, r, w, c, fs)
  | None =>
      let '(err, c) :=
        if chunking w then
          let '(_, err, c) := conn_WriteString ("0" ++ CRLF ++ CRLF) c in (err, c)
        else (None, c) in
      match err with
      | Some e => (Some e, r, w, c, fs)
      | None =>
          let '(err, w, c) :=
            if negb (cw_wrote w) then
              let w := set_header w (Header.Set_ (header w) "Content-Length" "0") in
              let '(err, c) := writeHeader w c in (err, w, c)
            else (None, w, c) in
          match err with
          | Some e => (Some e, r, w, c, fs)
          | None =>
              let '(err, c) := conn_Flush c in
              match err with
              | Some e => (Some e, r, w, c, fs)
              | None =>
                  let '(_, err, b, c) := body_ReadAll cap (readFuel c) 0 (Body r) c in
                  (err, set_Body r b, w, c, fs)
              end
          end
      end
  end.

End Finish.

End Encoder.

(** ** Decoding a request ([readRequest]) *)

(** A token of the verb [%s]: white space is skipped, then the bytes up to
    the next white space are taken; [None] when the input ends first. *)
Fixpoint spanToken (s : bytes) : bytes * bytes :=
  match s with
  | c :: s' =>
      match Strings.spaceRuneLen s with
      | O => let '(a, b) := spanToken s' in (c :: a, b)
      | _ => ([], s)
      end
  | [] => ([], [])
  end.

Definition scanToken (s : bytes) : option (bytes * bytes) :=
  match Fmt.SkipSpace (length s) s with
  | None | Some [] => None
  | Some s1 => Some (spanToken s1)
  end.

(** [fmt.Sscanf(line, "%s%s%s", &r.Method, &r.RequestURI, &r.Proto)]. *)
Definition scanRequestLine (line : bytes) : option (bytes * bytes * bytes) :=
  match scanToken line with
  | None => None
  | Some (m, s1) =>
      match scanToken s1 with
      | None => None
      | Some (u, s2) =>
          match scanToken s2 with
          | None => None
          | Some (p, _) => Some (m, u, p)
          end
      end
  end.

(** The cap on the head of the first request.  [newConn] puts the socket
    under an [io.LimitedReader] with [N = 1 << 20], and [readRequest] sets
    [N] to [noLimit] when it has read a header block.  [lrN] is [c.lr.N]
    counted from the input that has not been consumed: the connection's
    reader can reach that many bytes of [bufr c], and the rest stays on the
    socket.  The count-down from [noLimit] is left out: no input has 2^63
    bytes. *)
Definition headerLimit : Z := Z.shiftl 1 20.

Definition noLimit : Z := Z.shiftl 1 63 - 1.

Definition limited (lrN : Z) (s : bytes) : bytes * bytes :=
  if Z.of_nat (length s) <=? lrN then (s, [])
  else (take (Z.to_nat lrN) s, drop (Z.to_nat lrN) s).

Section Serve.

Context (DetectContentType : bytes -> bytes) (statusText : Z -> bytes).

(** [url.ParseRequestURI] of the Go library: whether the target parses. *)
Context (ParseRequestURI : bytes -> bool).

Context (cap : nat -> nat).

(** [readRequest], without the fields the engine does not look at again
    (URL, query string, remote address).  The reader decodes from the bytes
    [lr] lets it reach; what it leaves of them is followed by the bytes that
    stayed on the socket.  The line holds no newline, so [Sscanf] fails only
    by running out of input, which it reports as [io.EOF].  The last
    component is [lr.N] afterwards: [noLimit] once the header block is
    read. *)
Definition readRequest (lrN : Z) (c : conn)
  : option Request * option error * conn * Z :=
  let '(seen, unseen) := limited lrN (bufr c) in
  let left (s : bytes) := lrN - Z.of_nat (length seen - length s)%nat in
  let '(line, err, s) := readLine seen in
  let c1 := set_bufr c (s ++ unseen) in
  match err with
  | Some e => (None, Some e, c1, left s)
  | None =>
      match scanRequestLine line with
      | None => (None, Some EOF, c1, left s)
      | Some (m, u, p) =>
          if negb (ParseRequestURI u) then
            (None, Some (Err "invalid URI for request"), c1, left s)
          else
            let '(h, err, s') := readHeader s in
            let c2 := set_bufr c (s' ++ unseen) in
            match err, h with
            | None, Some h =>
                (Some (parseContentType (setupBody (newRequest m p h))), None, c2, noLimit)
            | Some e, _ => (None, Some e, c2, left s')
            | None, None => (None, Some ErrFuel, c2, left s')
            end
      end
  end.

(** What a handler does with the [ResponseWriter] and the [Request] it is
    given: the calls it makes, in order. *)
Inductive action : Type :=
| DoWrite (p : bytes)
| DoSetHeader (k v : bytes)
| DoWriteHeader (code : Z)
| DoRead (k : nat)
| DoPostForm (name : bytes)
| DoMultipartForm
| DoPanic.

Record exchange : Type := mkExchange {
  ex_req : Request;
  ex_resp : response;
  ex_conn : conn;
  ex_fs : FS
}.

(** One call of the handler; [true] when it panics. *)
Definition run_action (a : action) (x : exchange) : bool * exchange :=
  match a with
  | DoWrite p =>
      let '(_, _, w, c) := response_Write p (ex_resp x) (ex_conn x) in
      (false, mkExchange (ex_req x) w c (ex_fs x))
  | DoSetHeader k v =>
      (false,
       mkExchange (ex_req x)
         (set_header (ex_resp x) (Header.Set_ (header (ex_resp x)) k v))
         (ex_conn x) (ex_fs x))
  | DoWriteHeader code =>
      (false, mkExchange (ex_req x) (response_WriteHeader code (ex_resp x)) (ex_conn x) (ex_fs x))
  | DoRead k =>
      let '(_, _, b, c) := body_Read k (Body (ex_req x)) (ex_conn x) in
      (false, mkExchange (set_Body (ex_req x) b) (ex_resp x) c (ex_fs x))
  | DoPostForm name =>
      let '(_, r, c, fs) := Request_PostForm cap name (ex_req x) (ex_conn x) (ex_fs x) in
      (bool_decide (parseFormErr r = Some (Panic "nil pointer dereference")),
       mkExchange r (ex_resp x) c fs)
  | DoMultipartForm =>
      let '(_, err, r, c, fs) := Request_MultipartForm cap (ex_req x) (ex_conn x) (ex_fs x) in
      (bool_decide (err = Some (Panic "nil pointer dereference")),
       mkExchange r (ex_resp x) c fs)
  | DoPanic => (true, x)
  end.

Fixpoint run_handler (acts : list action) (x : exchange) : bool * exchange :=
  match acts with
  | [] => (false, x)
  | a :: acts' =>
      let '(panicked, x') := run_action a x in
      if panicked then (true, x') else run_handler acts' x'
  end.

Context (handler : Request -> list action).

(** One round of the loop of [conn.serve]: the request decoded (if one was),
    whether the loop goes on, and the state with [lr.N]. *)
Definition serve_round (lrN : Z) (c : conn) (fs : FS)
  : option Request * bool * conn * FS * Z :=
  let '(req, err, c, lrN) := readRequest lrN c in
  match req, err with
  | Some req, None =>
      let resp := setupResponse req in
      let '(panicked, x) := run_handler (handler req) (mkExchange req resp c fs) in
      if panicked then (Some req, false, ex_conn x, ex_fs x, lrN)
      else
        let '(err, r, w, c, fs) :=
          finishRequest DetectContentType statusText cap (S (S bufSize))
            (ex_req x) (ex_resp x) (ex_conn x) (ex_fs x) in
        match err with
        | Some _ => (Some req, false, c, fs, lrN)
        | None => (Some req, negb (closeAfterReply w), c, fs, lrN)
        end
  | _, _ => (None, false, c, fs, lrN)
  end.

(** [conn.serve]: the requests decoded and the state when the connection is
    closed.  Each round takes a byte of input at least. *)
Fixpoint serve_loop (fuel : nat) (lrN : Z) (c : conn) (fs : FS)
  : list Request * conn * FS :=
  match fuel with
  | O => ([], c, fs)
  | S fuel' =>
      let '(req, continue, c, fs, lrN) := serve_round lrN c fs in
      let reqs := match req with Some r => [r] | None => [] end in
      if continue then
        let '(rest, c, fs) := serve_loop fuel' lrN c fs in (reqs ++ rest, c, fs)
      else (reqs, c, fs)
  end.

(** The connection comes from [newConn]: [lr.N] is [1 << 20]. *)
Definition serve (c : conn) (fs : FS) : list Request * conn * FS :=
  serve_loop (S (length (bufr c))) headerLimit c fs.

End Serve.

(** ** Notions the properties are stated with *)

(** The number of bytes [c] in [s]. *)
Definition countByte (c : ascii) (s : bytes) : nat :=
  length (filter (fun x => x = c) s).

(** The name of an attribute: what stands before its first '=', without the
    white space around it (the whole of it when it has no '='). *)
Definition attrKey (s : bytes) : bytes :=
  match Strings.IndexByte s "=" with
  | Some i => Strings.TrimSpace (take i s)
  | None => Strings.TrimSpace s
  end.

(** The connection's writer works: the socket takes what is written to it
    and no write has failed. *)
Definition healthy (c : conn) : Prop :=
  rwc_broken c = false /\ Bufio.werr (bufw c) = None.

(** A body reader that wraps no other reader. *)
Definition plainBody (b : body) : Prop :=
  match b with
  | expectContinueReader _ _ => False
  | _ => True
  end.

(** Successive reads of a body, with slices of the lengths [ks]; what the
    reads deliver is dropped. *)
Fixpoint body_Reads (ks : list nat) (b : body) (c : conn) : body * conn :=
  match ks with
  | [] => (b, c)
  | k :: ks' => let '(_, _, b', c') := body_Read k b c in body_Reads ks' b' c'
  end.

(** The parameter after the first ';' of a Content-Type value is a boundary
    parameter: it has an '=' and its name is "boundary". *)
Definition boundaryParam (params : bytes) : bool :=
  match Strings.IndexByte params "=" with
  | Some _ => bool_decide (attrKey params = "boundary")
  | None => false
  end.

(** What has been written to the connection so far: what the socket has
    taken and what the writer still holds back. *)
Definition sent (c : conn) : bytes := rwc_out c ++ Bufio.wbuf (bufw c).

(** The header fields as [writeHeader] writes them, and the whole of what it
    writes. *)
Definition headerLines (h : Header.t) : bytes :=
  concat (map (fun kv => kv.1 ++ ": " ++ hd [] kv.2 ++ CRLF) h).

Definition headerBlock (statusText : Z -> bytes) (w : response) : bytes :=
  resp_Proto w ++ " " ++ Strconv.Itoa (statusCode w) ++ " "
  ++ statusText (statusCode w) ++ CRLF ++ headerLines (header w) ++ CRLF.

(** What [finishRequest] writes for a response whose [resp.bufw] is empty:
    the last chunk when [chunking] is set, the header block with
    [Content-Length: 0] when no header was written. *)
Definition finishReply (statusText : Z -> bytes) (w : response) : bytes :=
  (if chunking w then "0" ++ CRLF ++ CRLF else [])
  ++ (if cw_wrote w then []
      else headerBlock statusText
             (set_header w (Header.Set_ (header w) "Content-Length" "0"))).

(** The calls of a handler that do not touch the request body. *)
Definition noRead (a : action) : Prop :=
  match a with
  | DoWrite _ | DoSetHeader _ _ | DoWriteHeader _ => True
  | _ => False
  end.

(** The reason phrases of [statusText] that the examples below need. *)
Definition statusText_OK (code : Z) : bytes := if (code =? 200)%Z then "OK" else [].

(** ** Notions for the multipart reader *)

(** [sep] occurs in [s] at offset [j]. *)
Definition occurs (sep s : bytes) (j : nat) : bool := Strings.hasPrefix sep (drop j s).

(** Two states of a reader with the same delimiters, and two states of a part
    with the same header and names. *)
Definition sameDelims (mr mr' : MultipartReader) : Prop :=
  crlfDashBoundaryDash mr' = crlfDashBoundaryDash mr
  /\ crlfDashBoundary mr' = crlfDashBoundary mr
  /\ dashBoundary mr' = dashBoundary mr
  /\ dashBoundaryDash mr' = dashBoundaryDash mr.

Definition samePart (p p' : Part) : Prop :=
  p_Header p' = p_Header p /\ formName p' = formName p
  /\ fileName p' = fileName p /\ parsed p' = parsed p.

(** The part [p] is being read: the reader has [body], then the delimiter,
    then [rest] before it; the delimiter does not occur earlier; and the part
    has either not looked for the delimiter yet or has found it at the end of
    [body]. *)
Record reading (delim : bytes) (p : Part) (mr : MultipartReader) (body rest : bytes)
  : Prop := mkReading {
  rd_delim : crlfDashBoundary mr = delim;
  rd_stream : mr_bufr mr = body ++ delim ++ rest;
  rd_first : Strings.Index (body ++ delim) delim = Some (length body);
  rd_open : closed p = false;
  rd_sub : substituteReader p = None
           \/ substituteReader p = Some (Z.of_nat (length body))
}.

(** The delimiters of a reader are those of the boundary [b]. *)
Definition delimsOf (b : bytes) (mr : MultipartReader) : Prop :=
  crlfDashBoundary mr = CRLF ++ "--" ++ b
  /\ dashBoundary mr = "--" ++ b
  /\ dashBoundaryDash mr = "--" ++ b ++ "--".

(** The reader stands before a delimiter line that [Y] follows: at the very
    beginning, or after a part that has been read to its end. *)
Definition atDelim (b : bytes) (cur : option Part) (mr : MultipartReader) (Y : bytes)
  : Prop :=
  (cur = None /\ mr_bufr mr = "--" ++ b ++ Y)
  \/ (exists p, cur = Some p /\ reading (CRLF ++ "--" ++ b) p mr [] Y).

(** A part of a form as a client sends it: the field name, the file name
    (empty for a text field) and the content. *)
Record FormPart : Type := mkFormPart {
  fp_name : bytes;
  fp_fileName : bytes;
  fp_body : bytes
}.

Definition contentDisposition (fp : FormPart) : bytes :=
  "form-data; name=" ++ [DQUOTE] ++ fp_name fp ++ [DQUOTE]
  ++ (if bool_decide (fp_fileName fp = []) then []
      else "; filename=" ++ [DQUOTE] ++ fp_fileName fp ++ [DQUOTE]).

Definition partHeader (fp : FormPart) : Header.t :=
  [("Content-Disposition" : bytes, [contentDisposition fp])].

(** The multipart/form-data body with the boundary [b]: for each part the
    delimiter line, the header block, an empty line, the content and CRLF;
    then the closing delimiter line. *)
Fixpoint encodeForm (b : bytes) (fps : list FormPart) : bytes :=
  match fps with
  | [] => "--" ++ b ++ "--" ++ CRLF
  | fp :: fps' =>
      "--" ++ b ++ CRLF
      ++ "Content-Disposition: " ++ contentDisposition fp ++ CRLF
      ++ CRLF
      ++ fp_body fp ++ CRLF
      ++ encodeForm b fps'
  end.

(** What follows the first "--" and boundary of [encodeForm b fps]. *)
Definition tailForm (b : bytes) (fps : list FormPart) : bytes :=
  match fps with
  | [] => "--" ++ CRLF
  | fp :: fps' =>
      CRLF ++ "Content-Disposition: " ++ contentDisposition fp ++ CRLF
      ++ CRLF ++ fp_body fp ++ CRLF ++ encodeForm b fps'
  end.

(** Names that can stand between quotes in Content-Disposition. *)
Definition nameOK (s : bytes) : Prop :=
  (LF ∉ s) /\ (";"%char ∉ s) /\ ("="%char ∉ s) /\ (DQUOTE ∉ s).

Definition wellFormedBoundary (b : bytes) : Prop := (LF ∉ b) /\ (length b <= 70)%nat.

(** A part is well formed for the boundary [b] when it has a name, the names
    can be quoted and are of moderate length, and the content does not hold
    the delimiter. *)
Definition wellFormedPart (b : bytes) (fp : FormPart) : Prop :=
  fp_name fp <> []
  /\ nameOK (fp_name fp) /\ nameOK (fp_fileName fp)
  /\ (length (fp_name fp) + length (fp_fileName fp) <= 1024)%nat
  /\ Strings.Index (fp_body fp ++ CRLF ++ "--" ++ b) (CRLF ++ "--" ++ b)
     = Some (length (fp_body fp)).

(** The bytes of the text fields and of the files of a form. *)
Definition textSize (fps : list FormPart) : Z :=
  foldr (fun fp n =>
           if bool_decide (fp_fileName fp = []) then Z.of_nat (length (fp_body fp)) + n else n)
        0%Z fps.

Definition fileSize (fps : list FormPart) : Z :=
  foldr (fun fp n =>
           if bool_decide (fp_fileName fp = []) then n else Z.of_nat (length (fp_body fp)) + n)
        0%Z fps.

(** The form after one more part, kept in memory, and the form of a list of
    parts: a later part takes the place of an earlier one of the same name. *)
Definition addPart (mf : MultipartForm) (fp : FormPart) : MultipartForm :=
  if bool_decide (fp_fileName fp = []) then
    mkMultipartForm (<[fp_name fp := fp_body fp]> (Value mf)) (File mf)
  else
    mkMultipartForm (Value mf)
      (<[fp_name fp :=
           mkFileHeader (fp_fileName fp) (partHeader fp)
             (Z.of_nat (length (fp_body fp))) (fp_body fp) []]> (File mf)).

Definition formOf (fps : list FormPart) : MultipartForm := foldl addPart emptyForm fps.

(** ** Inputs of the examples *)

(** A byte that can stand in a chunk-size line. *)
Definition isHexByte (c : ascii) : bool :=
  inRange "a" "f" c || inRange "A" "F" c || inRange "0" "9" c.

Definition chunkedResponse : response :=
  mkResponse false [("Transfer-Encoding" : bytes, ["chunked" : bytes])] 200 false
    Bufio.newWriter true "HTTP/1.1" false true.

Definition twoChunks : bytes :=
  "1" ++ CRLF ++ "a" ++ CRLF ++ "1" ++ CRLF ++ "b" ++ CRLF ++ "0" ++ CRLF ++ CRLF.

(** A form of two parts, and a body that ends within the content of its
    only part. *)
Definition exampleParts : list FormPart :=
  [mkFormPart "a" [] "hello"; mkFormPart "f" "x.txt" ("file" ++ CRLF ++ "data")].


(** Two files sent under one field name, the first of 30 MiB and one byte. *)
Definition uploads (big : bytes) : list FormPart :=
  [mkFormPart "f" "a.bin" big; mkFormPart "f" "b.txt" "x"].

Definition bigFile : bytes := replicate (Z.to_nat (30 * 2 ^ 20 + 1)) "a"%char.

(** ** Notions for lines, header blocks, queries and cookies *)

(** A byte that is a visible ASCII character, and a string that is empty or
    begins and ends with one: [strings.TrimSpace] leaves it as it is. *)
Definition isGraphic (c : ascii) : bool :=
  ((32 <? nat_of_ascii c) && (nat_of_ascii c <? 128))%nat.

Definition trimmed (s : bytes) : bool :=
  match head s, last s with
  | Some a, Some b => isGraphic a && isGraphic b
  | _, _ => true
  end.

(** A line without its terminator as [bufio.Reader.ReadLine] hands it out:
    one CR at its end is dropped. *)
Definition dropCR (l : bytes) : bytes :=
  match last l with
  | Some c => if Ascii.eqb c CR then take (length l - 1)%nat l else l
  | None => l
  end.

(** A header with one value per field, and a field as it can stand on one
    line of a header block. *)
Definition headerOf (fields : list (bytes * bytes)) : Header.t :=
  map (fun kv => (kv.1, [kv.2])) fields.

Definition fieldOK (kv : bytes * bytes) : Prop :=
  (":"%char ∉ kv.1) /\ (LF ∉ kv.1) /\ (LF ∉ kv.2) /\ trimmed kv.2 = true
  /\ (length kv.1 + length kv.2 + 4 <= bufSize)%nat.

(** The header [readHeader] builds from the fields in the order of their
    lines. *)
Definition collect (fields : list (bytes * bytes)) : Header.t :=
  foldl (fun h kv => Header.Add h kv.1 kv.2) Header.empty fields.

(** The parts [parts] with the byte [c] between them. *)
Fixpoint join (c : ascii) (parts : list bytes) : bytes :=
  match parts with
  | [] => []
  | [p] => p
  | p :: ps => p ++ c :: join c ps
  end.

(** A query string or form body of the pairs [kvs], as a client sends it
    when no byte needs escaping; and a pair that can stand in one. *)
Definition encodeQuery (kvs : list (bytes * bytes)) : bytes :=
  join "&" (map (fun kv => kv.1 ++ "=" ++ kv.2) kvs).

Definition pairOK (kv : bytes * bytes) : Prop :=
  ("&"%char ∉ kv.1) /\ ("="%char ∉ kv.1) /\ ("&"%char ∉ kv.2) /\ kv.2 <> []
  /\ trimmed kv.1 = true /\ trimmed kv.2 = true.

(** The map that holds, for each name, the value of its last pair. *)
Definition lastWins (kvs : list (bytes * bytes)) : gmap bytes bytes :=
  foldl (fun m kv => <[kv.1 := kv.2]> m) ∅ kvs.

(** A Cookie line of the pairs [kvs], "; " between them, and a pair that can
    stand in one. *)
Definition encodeCookies (kvs : list (bytes * bytes)) : bytes :=
  match kvs with
  | [] => []
  | kv :: rest =>
      join ";" ((kv.1 ++ "=" ++ kv.2) :: map (fun kv => " " ++ kv.1 ++ "=" ++ kv.2) rest)
  end.

Definition cookieOK (kv : bytes * bytes) : Prop :=
  (";"%char ∉ kv.1) /\ ("="%char ∉ kv.1) /\ (";"%char ∉ kv.2)
  /\ trimmed kv.1 = true /\ trimmed kv.2 = true.



(** A request with a body of [n] bytes: POST or PUT, not chunked, with a
    Content-Length that reads [n] and without [Expect: 100-continue]. *)
Definition sizedBody (m : bytes) (h : Header.t) (n : nat) : Prop :=
  (m = "POST" \/ m = "PUT")
  /\ Header.Get h "Transfer-Encoding" <> "chunked"
  /\ Header.Get h "Content-Length" <> []
  /\ Strconv.ParseInt (Header.Get h "Content-Length") = Some (Z.of_nat n)
  /\ Header.Get h "Expect" <> "100-continue".

(** ** Notions for the chunk writer *)

(** A write of [d] as [chunkWriter.Write] frames it in chunked mode, and a
    body of the writes [ds] with the last chunk [finishRequest] adds. *)
Definition frame (d : bytes) : bytes :=
  Strconv.FormatHex (Z.of_nat (length d)) ++ CRLF ++ d ++ CRLF.

Definition encodeChunks (ds : list bytes) : bytes :=
  concat (map frame ds) ++ "0" ++ CRLF ++ CRLF.

(** A chunk that a reader takes in one read when its slices are [cap]. *)
Definition chunkOK (cap : nat -> nat) (d : bytes) : Prop :=
  d <> [] /\ (forall i, (length d < cap i)%nat) /\ (Z.of_nat (length d) < 2 ^ 63)%Z.

(** The status line [writeHeader] writes, without its CRLF. *)
Definition statusLine (statusText : Z -> bytes) (w : response) : bytes :=
  resp_Proto w ++ " " ++ Strconv.Itoa (statusCode w) ++ " " ++ statusText (statusCode w).

(** * Properties *)

Local Open Scope nat_scope.

(** ** Facts about strings *)

Section StringFacts.

Implicit Types (s t : bytes) (c : ascii).

Lemma IndexByte_None s c : Strings.IndexByte s c = None <-> c ∉ s.
Proof.
  induction s as [|x s IH]; simpl.
  - split; [intros _; apply not_elem_of_nil | done].
  - destruct (Ascii.eqb_spec x c) as [->|Hne].
    + split; [done | intros H; exfalso; apply H; left].
    + rewrite fmap_None, IH, not_elem_of_cons. split; [by intros ? | by intros [_ ?]].
Qed.

Lemma IndexByte_Some s c i :
  Strings.IndexByte s c = Some i ->
  s = take i s ++ c :: drop (S i) s /\ (c ∉ take i s) /\ i < length s.
Proof.
  revert i. induction s as [|x s IH]; intros i; simpl; [done|].
  destruct (Ascii.eqb_spec x c) as [->|Hne].
  - intros [= <-]. simpl. rewrite drop_0. split_and!; [done | apply not_elem_of_nil | lia].
  - destruct (Strings.IndexByte s c) as [j|] eqn:E; [|done].
    intros [= <-]. destruct (IH j eq_refl) as (H1 & H2 & H3). simpl.
    split_and!; [by rewrite <- H1 | by rewrite not_elem_of_cons | lia].
Qed.

Lemma IndexByte_app s t c :
  c ∉ s -> Strings.IndexByte (s ++ c :: t) c = Some (length s).
Proof.
  induction s as [|x s IH]; simpl; intros H.
  - by rewrite Ascii.eqb_refl.
  - apply not_elem_of_cons in H as [H1 H2].
    destruct (Ascii.eqb_spec x c) as [->|Hne]; [done|]. by rewrite IH.
Qed.

Lemma Split_nonempty s c : Strings.Split s c <> [].
Proof.
  destruct s as [|x s]; simpl; [done|].
  destruct (Ascii.eqb x c); [done|]. by destruct (Strings.Split s c).
Qed.

Lemma Split_IndexByte s c :
  Strings.Split s c =
    match Strings.IndexByte s c with
    | Some i => take i s :: Strings.Split (drop (S i) s) c
    | None => [s]
    end.
Proof.
  induction s as [|x s IH]; simpl; [done|].
  destruct (Ascii.eqb x c); [by rewrite drop_0|].
  rewrite IH. by destruct (Strings.IndexByte s c).
Qed.

Lemma Split_length s c : length (Strings.Split s c) = S (countByte c s).
Proof.
  unfold countByte. induction s as [|x s IH]; simpl; [done|].
  destruct (Ascii.eqb_spec x c) as [->|Hne].
  - rewrite filter_cons_True by done. simpl. by rewrite IH.
  - rewrite filter_cons_False by done.
    destruct (Strings.Split s c) eqn:E; simpl in *; [done | done].
Qed.

End StringFacts.

(** ** Facts about the connection's writer and about reading a body *)

Lemma conn_Flush_ok c :
  healthy c ->
  conn_Flush c = (None, mkConn (bufr c) Bufio.newWriter (sent c) false).
Proof.
  destruct c as [r [b e] o br]. unfold healthy, sent. simpl. intros [-> ->].
  unfold conn_Flush, Bufio.Flush. simpl.
  destruct b as [|x b]; simpl.
  - by rewrite app_nil_r.
  - rewrite Nat.ltb_irrefl. reflexivity.
Qed.

Lemma WriteString_loop_ok fuel : forall p nn c,
  healthy c ->
  length p < fuel \/ (Bufio.wbuf (bufw c) = [] /\ length p <= fuel) ->
  exists c',
    Bufio.WriteString_loop bufw set_bufw rwc_Write fuel p nn c = (nn + length p, None, c')
    /\ healthy c' /\ bufr c' = bufr c /\ sent c' = sent c ++ p.
Proof.
  induction fuel as [|fuel IH]; intros p nn c Hc Hf.
  - destruct Hf as [Hf | [Hb Hf]]; [lia|].
    assert (p = []) as -> by (destruct p; simpl in *; [done | lia]).
    destruct c as [r [b e] o br]. destruct Hc as [Hc1 Hc2]. simpl in *. subst.
    eexists. split; [reflexivity|]. unfold healthy, sent. simpl.
    rewrite ?app_nil_r. done.
  - destruct c as [r [b e] o br]. destruct Hc as [Hc1 Hc2]. simpl in Hc1, Hc2. subst.
    cbn [Bufio.WriteString_loop bufw Bufio.werr Bufio.wbuf set_bufw].
    destruct (Nat.ltb_spec (Bufio.Available (Bufio.mkWriter b None)) (length p)) as [Hlt|Hge].
    + set (n := Bufio.Available (Bufio.mkWriter b None)) in *.
      pose proof (conn_Flush_ok (mkConn r (Bufio.mkWriter (b ++ take n p) None) o false)) as HF.
      unfold conn_Flush in HF. cbn [bufr bufw rwc_out rwc_broken set_bufw] in *.
      change (set_bufw (mkConn r (Bufio.mkWriter b None) o false)
                (Bufio.mkWriter (b ++ take n p) None))
        with (mkConn r (Bufio.mkWriter (b ++ take n p) None) o false).
      rewrite HF by done. clear HF.
      destruct (IH (drop n p) (nn + n)
                  (mkConn r Bufio.newWriter (sent (mkConn r (Bufio.mkWriter (b ++ take n p) None) o false)) false))
        as (c' & H1 & H2 & H3 & H4); [done| |].
      { rewrite length_drop. simpl in Hf. destruct Hf as [Hf | [Hb Hf]].
        - right. split; [done | lia].
        - right. split; [done|]. subst b. unfold n, Bufio.Available in *. simpl in *.
          unfold bufSize in *. lia. }
      exists c'. rewrite H1. rewrite length_drop. split; [f_equal; f_equal; lia|].
      split; [done|]. split; [done|]. rewrite H4. unfold sent. simpl.
      rewrite app_nil_r, <- !app_assoc. by rewrite take_drop.
    + eexists. split; [reflexivity|]. unfold healthy, sent. simpl.
      by rewrite app_assoc.
Qed.

Lemma conn_WriteString_ok p c :
  healthy c ->
  exists c',
    conn_WriteString p c = (length p, None, c')
    /\ healthy c' /\ bufr c' = bufr c /\ sent c' = sent c ++ p.
Proof.
  intros Hc. unfold conn_WriteString, Bufio.WriteString.
  destruct (WriteString_loop_ok (S (length p)) p 0 c Hc) as (c' & H & ?); [left; lia|].
  exists c'. by rewrite H.
Qed.

Lemma emitContinue_ok c :
  healthy c ->
  emitContinue c = mkConn (bufr c) Bufio.newWriter (sent c ++ continueLine) false.
Proof.
  intros Hc. unfold emitContinue.
  destruct (conn_WriteString_ok continueLine c Hc) as (c1 & -> & H1 & H2 & H3).
  rewrite conn_Flush_ok by done. by rewrite H2, H3.
Qed.

Lemma set_bufr_id c : set_bufr c (bufr c) = c.
Proof. by destruct c. Qed.

Lemma Flush_bufr c : bufr (conn_Flush c).2 = bufr c.
Proof.
  unfold conn_Flush, Bufio.Flush. destruct c as [r [b e] o br]. simpl.
  destruct e; [done|]. destruct b as [|x b]; [done|].
  unfold rwc_Write. simpl. destruct br; simpl; [done|].
  by rewrite Nat.ltb_irrefl.
Qed.

Lemma WriteString_loop_bufr fuel : forall p nn c,
  bufr (Bufio.WriteString_loop bufw set_bufw rwc_Write fuel p nn c).2 = bufr c.
Proof.
  induction fuel as [|fuel IH]; intros p nn c; simpl.
  - destruct (Bufio.werr (bufw c)); [done|]. by destruct (_ <? _).
  - destruct (Bufio.werr (bufw c)); [done|]. destruct (_ <? _); [|done].
    pose proof (Flush_bufr (set_bufw c
      (Bufio.mkWriter (Bufio.wbuf (bufw c) ++ take (Bufio.Available (bufw c)) p) None))) as HF.
    unfold conn_Flush in HF.
    destruct (Bufio.Flush _ _ _ _) as [e s']. simpl in HF. rewrite IH. by rewrite HF.
Qed.

Lemma emitContinue_bufr c : bufr (emitContinue c) = bufr c.
Proof.
  unfold emitContinue, conn_WriteString, Bufio.WriteString.
  pose proof (WriteString_loop_bufr (S (length continueLine)) continueLine 0 c) as H.
  destruct (Bufio.WriteString_loop _ _ _ _ _ _ _) as [[n e] c1]. simpl in H.
  pose proof (Flush_bufr c1) as H1. destruct (conn_Flush c1) as [e' c2]. simpl in *.
  congruence.
Qed.

Section Reading.

Context (cap : nat -> nat).

Lemma body_ReadAll_S fuel i b c :
  body_ReadAll cap (S fuel) i b c
  = let '(data, err, b', c') := body_Read (cap i) b c in
    match err with
    | Some EOF => (data, None, b', c')
    | Some e => (data, Some e, b', c')
    | None =>
        let '(rest, err', b'', c'') := body_ReadAll cap fuel (S i) b' c' in
        (data ++ rest, err', b'', c'')
    end.
Proof. reflexivity. Qed.

Lemma ReadAll_wrapper fuel : forall i w inner c,
  body_ReadAll cap (S fuel) i (expectContinueReader w inner) c
  = let '(d, e, inner', c') :=
      body_ReadAll cap (S fuel) i inner (if w then c else emitContinue c) in
    (d, e, expectContinueReader true inner', c').
Proof.
  induction fuel as [|fuel IH]; intros i w inner c.
  - simpl. destruct (body_Read _ _ _) as [[[d e] r'] c']. by destruct e as [[]|].
  - rewrite (body_ReadAll_S (S fuel) i (expectContinueReader w inner)).
    rewrite (body_ReadAll_S (S fuel) i inner).
    cbn [body_Read].
    destruct (body_Read (cap i) inner _) as [[[d e] r'] c'].
    destruct e as [[]|]; try done.
    rewrite IH.
    by destruct (body_ReadAll cap (S fuel) (S i) r' c') as [[[? ?] ?] ?].
Qed.

Lemma Bufio_Read_some k s :
  0 < k -> s <> [] -> Bufio.Read k s = (take k s, None, drop k s).
Proof. destruct k, s; simpl; done || lia. Qed.

Lemma limitReader_ReadAll (Hcap : forall i, 0 < cap i) fuel : forall i n c,
  n <= length (bufr c) -> n < fuel ->
  body_ReadAll cap fuel i (limitReader (Z.of_nat n)) c
  = (take n (bufr c), None, limitReader 0, set_bufr c (drop n (bufr c))).
Proof.
  induction fuel as [|fuel IH]; intros i n c Hn Hf; [lia|].
  rewrite body_ReadAll_S. cbn [body_Read].
  destruct (Z.leb_spec (Z.of_nat n) 0) as [H0|H0].
  - assert (n = 0) as -> by lia. simpl. by rewrite drop_0, set_bufr_id.
  - pose proof (Hcap i) as Hk.
    set (k' := if (Z.of_nat n <? Z.of_nat (cap i))%Z then Z.to_nat (Z.of_nat n) else cap i).
    assert (Hk' : 0 < k' /\ k' <= n).
    { unfold k'. destruct (Z.ltb_spec (Z.of_nat n) (Z.of_nat (cap i))); lia. }
    clearbody k'.
    rewrite Bufio_Read_some; [|lia|intros E; rewrite E in Hn; simpl in Hn; lia].
    rewrite length_take_le by lia.
    replace (Z.of_nat n - Z.of_nat k')%Z with (Z.of_nat (n - k')) by lia.
    rewrite IH; cbn [bufr set_bufr]; [| destruct c; simpl in *; rewrite length_drop; lia | lia].
    destruct c as [r w o br]; simpl in *.
    rewrite drop_drop, take_take_drop.
    by replace (k' + (n - k')) with n by lia.
Qed.

End Reading.

Lemma body_Read_plain k b c :
  plainBody b ->
  exists d e b' s', body_Read k b c = (d, e, b', set_bufr c s') /\ plainBody b'.
Proof.
  destruct b as [|cw|N|w r]; simpl; intros Hp; [| | |done].
  - eexists _, _, _, (bufr c). by rewrite set_bufr_id.
  - destruct (chunkReader_Read k cw (bufr c)) as [[[d e] cw'] s']. by eexists _, _, _, _.
  - destruct (N <=? 0)%Z.
    + eexists _, _, _, (bufr c). by rewrite set_bufr_id.
    + destruct (Bufio.Read _ _) as [[d e] s']. by eexists _, _, _, _.
Qed.

Lemma body_Reads_plain ks : forall b c,
  plainBody b ->
  exists b' s', body_Reads ks (expectContinueReader true b) c
                = (expectContinueReader true b', set_bufr c s') /\ plainBody b'.
Proof.
  induction ks as [|k ks IH]; intros b c Hp.
  - exists b, (bufr c). by rewrite set_bufr_id.
  - cbn [body_Reads body_Read].
    destruct (body_Read_plain k b c Hp) as (d & e & b' & s' & -> & Hp').
    destruct (IH b' (set_bufr c s') Hp') as (b'' & s'' & -> & Hp'').
    exists b'', s''. by destruct c.
Qed.

Section Finish.

Context (DetectContentType : bytes -> bytes) (statusText : Z -> bytes).
Context (cap : nat -> nat).

Lemma writeHeader_loop_ok h : forall c,
  healthy c -> Forall (fun kv => kv.2 <> []) h ->
  exists c', writeHeader_loop h c = (None, c')
    /\ healthy c' /\ bufr c' = bufr c /\ sent c' = sent c ++ headerLines h.
Proof.
  induction h as [|[k v] h IH]; intros c Hc Hh.
  - exists c. unfold headerLines. simpl. by rewrite app_nil_r.
  - apply Forall_cons in Hh as [Hv Hh]. simpl in Hv.
    destruct v as [|v0 v]; [done|]. cbn [writeHeader_loop].
    destruct (conn_WriteString_ok (k ++ ": " ++ v0 ++ CRLF) c Hc) as (c1 & -> & H1 & H2 & H3).
    destruct (IH c1 H1 Hh) as (c2 & -> & H4 & H5 & H6).
    exists c2. split; [done|]. split; [done|]. split; [congruence|].
    rewrite H6, H3. unfold headerLines. simpl. by rewrite <- !app_assoc.
Qed.

Lemma writeHeader_ok w c :
  healthy c -> Forall (fun kv => kv.2 <> []) (header w) ->
  exists c', writeHeader statusText w c = (None, c')
    /\ healthy c' /\ bufr c' = bufr c /\ sent c' = sent c ++ headerBlock statusText w.
Proof.
  intros Hc Hh. unfold writeHeader.
  destruct (conn_WriteString_ok
              (resp_Proto w ++ " " ++ Strconv.Itoa (statusCode w) ++ " "
               ++ statusText (statusCode w) ++ CRLF) c Hc) as (c1 & -> & H1 & H2 & H3).
  destruct (writeHeader_loop_ok (header w) c1 H1 Hh) as (c2 & -> & H4 & H5 & H6).
  destruct (conn_WriteString_ok CRLF c2 H4) as (c3 & -> & H7 & H8 & H9).
  exists c3. split; [done|]. split; [done|]. split; [congruence|].
  rewrite H9, H6, H3. unfold headerBlock. by rewrite <- !app_assoc.
Qed.

Lemma Set_values_nonempty h k v :
  Forall (fun kv : bytes * list bytes => kv.2 <> []) h ->
  Forall (fun kv : bytes * list bytes => kv.2 <> []) (Header.Set_ h k v).
Proof.
  induction h as [|[k' vs] h IH]; intros H; simpl.
  - by constructor.
  - apply Forall_cons in H as [H1 H2]. case_bool_decide; constructor; auto.
Qed.

Lemma body_ReadAll_plain fuel : forall i b c,
  plainBody b ->
  exists d e b' s', body_ReadAll cap fuel i b c = (d, e, b', set_bufr c s').
Proof.
  induction fuel as [|fuel IH]; intros i b c Hp.
  - eexists _, _, _, (bufr c). simpl. by rewrite set_bufr_id.
  - rewrite (body_ReadAll_S cap).
    destruct (body_Read_plain (cap i) b c Hp) as (d & e & b' & s' & -> & Hp').
    destruct e as [[]|]; try by eexists _, _, _, _.
    destruct (IH (S i) b' (set_bufr c s') Hp') as (d1 & e1 & b1 & s1 & ->).
    eexists _, _, _, s1. by destruct c.
Qed.

Lemma drain_unread c inner :
  healthy c -> plainBody inner ->
  rwc_out (body_ReadAll cap (readFuel c) 0 (expectContinueReader false inner) c).2
  = sent c ++ continueLine.
Proof.
  intros Hc Hp.
  assert (Hfuel : exists f, readFuel c = S f).
  { unfold readFuel. exists (2 * length (bufr c) + 3). lia. }
  destruct Hfuel as [f ->].
  rewrite (ReadAll_wrapper cap). rewrite emitContinue_ok by done.
  destruct (body_ReadAll_plain (S f) 0 inner
              (mkConn (bufr c) Bufio.newWriter (sent c ++ continueLine) false) Hp)
    as (d & e & b' & s' & ->).
  reflexivity.
Qed.

Lemma finishRequest_drains_unread fuel r w c fs inner :
  healthy c ->
  multipartForm r = None ->
  Body r = expectContinueReader false inner -> plainBody inner ->
  resp_bufw w = Bufio.newWriter ->
  Forall (fun kv => kv.2 <> []) (header w) ->
  rwc_out (finishRequest DetectContentType statusText cap fuel r w c fs).1.2
  = sent c ++ finishReply statusText w ++ continueLine.
Proof.
  intros Hc Hmf HB Hp Hw Hh. unfold finishRequest. rewrite Hmf, HB.
  unfold resp_Flush, Bufio.Flush.
  cbn [get_resp_bufw fst resp_bufw set_handlerDone]. rewrite Hw.
  cbn [Bufio.werr Bufio.wbuf Bufio.newWriter chunking set_handlerDone cw_wrote header].
  unfold finishReply.
  assert (Hflush : forall c2, healthy c2 ->
            rwc_out (let '(_, err, b, c3) :=
                       body_ReadAll cap
                         (readFuel (mkConn (bufr c2) Bufio.newWriter (sent c2) false)) 0
                         (expectContinueReader false inner)
                         (mkConn (bufr c2) Bufio.newWriter (sent c2) false) in
                     (err, set_Body r b, set_handlerDone w true, c3, fs)).1.2
            = sent c2 ++ continueLine).
  { intros c2 Hc2.
    pose proof (drain_unread (mkConn (bufr c2) Bufio.newWriter (sent c2) false) inner) as HD.
    destruct (body_ReadAll _ _ _ _ _) as [[[d e] b'] c3]. simpl in *.
    rewrite HD by done. unfold sent at 1. simpl. by rewrite app_nil_r. }
  destruct (chunking w).
  - destruct (conn_WriteString_ok ("0" ++ CRLF ++ CRLF) c Hc) as (c1 & -> & H1 & H2 & H3).
    destruct (cw_wrote w); cbn [negb].
    + rewrite conn_Flush_ok by done. rewrite Hflush by done.
      rewrite H3. by rewrite app_nil_r, <- !app_assoc.
    + destruct (writeHeader_ok
                  (set_header (set_handlerDone w true)
                     (Header.Set_ (header w) "Content-Length" "0")) c1 H1)
        as (c2 & -> & H4 & H5 & H6); [by apply Set_values_nonempty|].
      rewrite conn_Flush_ok by done.
      pose proof (Hflush c2 H4) as HF.
      destruct (body_ReadAll _ _ _ _ _) as [[[d e] b'] c3]. simpl in *.
      rewrite HF, H6, H3. by rewrite <- !app_assoc.
  - destruct (cw_wrote w); cbn [negb].
    + rewrite conn_Flush_ok by done. rewrite Hflush by done.
      by rewrite app_nil_r.
    + destruct (writeHeader_ok
                  (set_header (set_handlerDone w true)
                     (Header.Set_ (header w) "Content-Length" "0")) c Hc)
        as (c2 & -> & H4 & H5 & H6); [by apply Set_values_nonempty|].
      rewrite conn_Flush_ok by done.
      pose proof (Hflush c2 H4) as HF.
      destruct (body_ReadAll _ _ _ _ _) as [[[d e] b'] c3]. simpl in *.
      rewrite HF, H6. by rewrite <- !app_assoc.
Qed.

End Finish.

(** ** The response write path (C1) *)

(** C1 (the code departs from it): a handler that writes the two bytes "hi"
    in answer to [GET / HTTP/1.1].  [response.Write] hands the bytes to the
    connection's writer, not to [resp.bufw]: the socket receives the body
    bytes first and the status line and header block after them, finalized by
    [finishRequest] as for a handler that wrote nothing
    ([Content-Length: 0]). *)
Theorem response_Write_body_before_header
    (DetectContentType : bytes -> bytes) (cap : nat -> nat) :
  serve DetectContentType statusText_OK (fun _ => true) cap (fun _ => [DoWrite "hi"])
    (newConn ("GET / HTTP/1.1" ++ CRLF ++ CRLF)) emptyFS
  = ([mkRequest "GET" "HTTP/1.1" [] eofReader [] [] None None false None],
     mkConn [] Bufio.newWriter
       ("hi" ++ "HTTP/1.1 200 OK" ++ CRLF ++ "Content-Length: 0" ++ CRLF ++ CRLF)
       false,
     emptyFS).
Proof. vm_compute. reflexivity. Qed.

(** ** Closing after the reply (C2) *)

(** C2 (the code departs from it): [setupResponse] scans the protocol with
    the format "HTTP/%d%d", which has no dot between the two numbers, so the
    second number is never read; and it looks the header "Connectioni" up.
    Every request with protocol [HTTP/1.1] gets [closeAfterReply], whatever
    its header: of two requests sent on one connection the loop decodes the
    first only and leaves the second unread.  A request with protocol
    [HTTP/2.0] and [Connection: close] does not get it. *)
Theorem serve_closes_after_HTTP11_reply
    (DetectContentType : bytes -> bytes) (cap : nat -> nat) :
  (forall m h b ct bd pf mf hp pe,
     closeAfterReply (setupResponse (mkRequest m "HTTP/1.1" h b ct bd pf mf hp pe)) = true)
  /\ serve DetectContentType statusText_OK (fun _ => true) cap (fun _ => [])
       (newConn ("GET /a HTTP/1.1" ++ CRLF ++ CRLF ++ "GET /b HTTP/1.1" ++ CRLF ++ CRLF))
       emptyFS
     = ([mkRequest "GET" "HTTP/1.1" [] eofReader [] [] None None false None],
        mkConn ("GET /b HTTP/1.1" ++ CRLF ++ CRLF) Bufio.newWriter
          ("HTTP/1.1 200 OK" ++ CRLF ++ "Content-Length: 0" ++ CRLF ++ CRLF) false,
        emptyFS)
  /\ closeAfterReply
       (setupResponse
          (mkRequest "GET" "HTTP/2.0" [("Connection" : bytes, ["close" : bytes])]
             eofReader [] [] None None false None)) = false.
Proof.
  split; [|split].
  - intros. reflexivity.
  - vm_compute. reflexivity.
  - reflexivity.
Qed.

(** ** Discarding CRLF (C3) *)

(** C3 (the code departs from it): [chunkReader.discardCRLF] looks at the two
    bytes only when the read failed, so after a read that succeeded it
    accepts any two bytes; [MultipartReader.discardCRLF] rejects the two bytes
    only when both are wrong, so it accepts a pair of which one byte is
    right. *)
Theorem discardCRLF_accepts_other_bytes :
  (forall cw a b rest, (chunkReader_discardCRLF cw (a :: b :: rest)).1.1 = None)
  /\ (chunkReader_discardCRLF newChunkReader "ab").1.1 = None
  /\ (forall mr b rest,
        (MultipartReader_discardCRLF (set_mr_bufr mr (CR :: b :: rest))).1 = None)
  /\ (forall mr a rest,
        (MultipartReader_discardCRLF (set_mr_bufr mr (a :: LF :: rest))).1 = None)
  /\ (MultipartReader_discardCRLF (NewMultipartReader (CR :: "X") "b")).1 = None.
Proof.
  repeat split; try reflexivity.
  intros mr a rest. unfold MultipartReader_discardCRLF. simpl.
  rewrite andb_false_r. reflexivity.
Qed.

(** ** The interim response (C4) *)

Lemma run_handler_noRead cap acts : forall x,
  Forall noRead acts ->
  (run_handler cap acts x).1 = false
  /\ Body (ex_req (run_handler cap acts x).2) = Body (ex_req x).
Proof.
  induction acts as [|a acts IH]; intros x H; [done|].
  apply Forall_cons in H as [Ha H]. cbn [run_handler].
  destruct a; try done; cbn [run_action].
  - destruct (response_Write p (ex_resp x) (ex_conn x)) as [[[n e] w] c'].
    destruct (IH (mkExchange (ex_req x) w c' (ex_fs x)) H) as [H1 H2]. done.
  - apply (IH (mkExchange _ _ _ _) H).
  - apply (IH (mkExchange _ _ _ _) H).
Qed.

(** The interim response on the first read.  For a request with
    [Expect: 100-continue] and a chunked or
    content-length body, the body reader is an [expectContinueReader] around
    the plain reader.  Its first read writes the interim line and the blank
    line to the connection and flushes them, then delegates to the plain
    reader; whatever reads follow, the interim response stays the only thing
    the reads put on the connection, so it is sent exactly once.  A handler
    that makes no call touching the body leaves the reader unread; the drain
    of the body at the end of [finishRequest] then makes the first read, and
    the interim response goes out after the reply. *)
Theorem expectContinue_once_on_first_read
    (DetectContentType : bytes -> bytes) (statusText : Z -> bytes) (cap : nat -> nat)
    (m p : bytes) (h : Header.t) (c : conn)
    (Hm : m = "POST" \/ m = "PUT")
    (He : Header.Get h "Expect" = "100-continue")
    (Hb : Header.Get h "Transfer-Encoding" = "chunked"
          \/ (Header.Get h "Content-Length" <> []
              /\ Strconv.ParseInt (Header.Get h "Content-Length") <> None))
    (Hc : healthy c) :
  let r := setupBody (newRequest m p h) in
  let c1 := mkConn (bufr c) Bufio.newWriter (sent c ++ continueLine) false in
  exists inner,
    Body r = expectContinueReader false inner /\ plainBody inner
    /\ (forall k,
          body_Read k (Body r) c
          = let '(d, e, inner', c2) := body_Read k inner c1 in
            (d, e, expectContinueReader true inner', c2))
    /\ (forall k ks,
          let c' := (body_Reads (k :: ks) (Body r) c).2 in
          rwc_out c' = sent c ++ continueLine /\ bufw c' = Bufio.newWriter)
    /\ (forall acts x,
          Forall noRead acts -> Body (ex_req x) = Body r ->
          Body (ex_req (run_handler cap acts x).2) = expectContinueReader false inner)
    /\ (forall w fs fuel,
          resp_bufw w = Bufio.newWriter ->
          Forall (fun kv => kv.2 <> []) (header w) ->
          rwc_out (finishRequest DetectContentType statusText cap fuel r w c fs).1.2
          = sent c ++ finishReply statusText w ++ continueLine).
Proof.
  intros r c1.
  assert (exists inner, Body r = expectContinueReader false inner /\ plainBody inner
                        /\ multipartForm r = None) as (inner & HB & Hp & Hmf).
  { assert (Hnb : noBodyMethod (newRequest m p h) = false).
    { unfold noBodyMethod. simpl. by destruct Hm as [-> | ->]. }
    unfold r, setupBody. rewrite Hnb. unfold chunked, fixExpectContinueReader.
    cbn [r_Header newRequest set_Body Body].
    rewrite (bool_decide_eq_true_2 _ He). cbn [negb].
    case_bool_decide as Hte.
    - by eexists.
    - destruct Hb as [Hb | [Hcl Hp]]; [done|].
      rewrite (bool_decide_eq_false_2 _ Hcl). cbn [negb].
      destruct (Strconv.ParseInt _); [|done]. by eexists. }
  exists inner. split; [done|]. split; [done|]. split; [|split; [|split]].
  - intros k. rewrite HB. cbn [body_Read]. by rewrite emitContinue_ok.
  - intros k ks. rewrite HB. cbn [body_Reads body_Read]. rewrite emitContinue_ok by done.
    destruct (body_Read_plain k inner (mkConn (bufr c) Bufio.newWriter (sent c ++ continueLine) false) Hp)
      as (d & e & b' & s' & -> & Hp').
    destruct (body_Reads_plain ks b'
                (set_bufr (mkConn (bufr c) Bufio.newWriter (sent c ++ continueLine) false) s') Hp')
      as (b'' & s'' & -> & _).
    done.
  - intros acts x Hacts Hx.
    destruct (run_handler_noRead cap acts x Hacts) as [_ ->]. by rewrite Hx.
  - intros w fs fuel Hw Hh.
    by apply (finishRequest_drains_unread _ _ _ fuel r w c fs inner).
Qed.

(** A POST request with [Content-Length: 3] and [Expect: 100-continue]. *)
Lemma expectContinue_once_on_first_read_witness :
  let h : Header.t :=
    [("Content-Length" : bytes, ["3" : bytes]); ("Expect" : bytes, ["100-continue" : bytes])] in
  exists inner,
    Body (setupBody (newRequest "POST" "HTTP/1.1" h)) = expectContinueReader false inner
    /\ plainBody inner.
Proof.
  intros h.
  destruct (expectContinue_once_on_first_read (fun _ => []) statusText_OK (fun _ => 512)
              "POST" "HTTP/1.1" h (newConn "abc")) as (inner & H1 & H2 & _).
  - left; reflexivity.
  - reflexivity.
  - right. split; discriminate.
  - split; reflexivity.
  - exists inner. split; [exact H1 | exact H2].
Defined.

(** C4 (the code departs from it): the interim response is to be sent on the
    first read of the body and never when the handler does not read it.  For
    a POST with [Content-Length: 3] and [Expect: 100-continue] whose handler
    makes no call at all, [finishRequest] drains the body through the same
    [expectContinueReader]: that is the reader's first read, and the line
    "HTTP/1.1 100 Continue" is on the connection after the final reply. *)
Lemma expectContinue_sent_by_finishRequest :
  (serve (fun _ => []) statusText_OK (fun _ => true) (fun _ => 512) (fun _ => [])
     (newConn ("POST /upload HTTP/1.1" ++ CRLF ++ "Content-Length: 3" ++ CRLF
               ++ "Expect: 100-continue" ++ CRLF ++ CRLF ++ "abc"))
     emptyFS).1.2
  = mkConn [] Bufio.newWriter
      ("HTTP/1.1 200 OK" ++ CRLF ++ "Content-Length: 0" ++ CRLF ++ CRLF ++ continueLine)
      false.
Proof. vm_compute. reflexivity. Qed.

(** ** Selecting the body reader (C5) *)

(** C5: the body reader [setupBody] installs.  A method other than POST and
    PUT gives the reader that is at its end at once; otherwise
    [Transfer-Encoding: chunked] gives the chunked reader whatever
    Content-Length says; otherwise a Content-Length that parses gives the
    reader limited to that many bytes, which read to its end delivers exactly
    the next [n] bytes of the connection (at once its end when the number is
    negative), one that does not parse gives the reader at its end, and so
    does a missing one.  With [Expect: 100-continue] the chunked and the
    limited reader come wrapped in the [expectContinueReader]. *)
Theorem setupBody_selects (cap : nat -> nat) (m p : bytes) (h : Header.t) :
  let r := setupBody (newRequest m p h) in
  let te := Header.Get h "Transfer-Encoding" in
  let cl := Header.Get h "Content-Length" in
  let wrap b :=
    if bool_decide (Header.Get h "Expect" = "100-continue")
    then expectContinueReader false b else b in
  (forall k c, body_Read k eofReader c = ([], Some EOF, eofReader, c))
  /\ (m <> "POST" -> m <> "PUT" -> Body r = eofReader)
  /\ (m = "POST" \/ m = "PUT" ->
      (te = "chunked" -> Body r = wrap (chunkBody newChunkReader))
      /\ (te <> "chunked" ->
          (cl = [] -> Body r = eofReader)
          /\ (cl <> [] -> Strconv.ParseInt cl = None -> Body r = eofReader)
          /\ (forall n : nat,
                cl <> [] -> Strconv.ParseInt cl = Some (Z.of_nat n) ->
                Body r = wrap (limitReader (Z.of_nat n))
                /\ (forall c fuel,
                      n <= length (bufr c) -> (forall i, 0 < cap i) -> n < fuel ->
                      exists b' c',
                        body_ReadAll cap fuel 0 (Body r) c
                          = (take n (bufr c), None, b', c')
                        /\ length (take n (bufr c)) = n
                        /\ bufr c' = drop n (bufr c)))
          /\ (forall z : Z,
                cl <> [] -> Strconv.ParseInt cl = Some z -> (z < 0)%Z ->
                forall k c, exists b' c',
                  body_Read k (Body r) c = ([], Some EOF, b', c')))).
Proof.
  intros r te cl wrap. subst r te cl wrap. split; [done|]. split.
  - intros H1 H2. unfold setupBody, noBodyMethod. cbn [Method newRequest].
    by rewrite (bool_decide_eq_false_2 _ H1), (bool_decide_eq_false_2 _ H2).
  - intros Hm.
    assert (Hnb : noBodyMethod (newRequest m p h) = false).
    { unfold noBodyMethod. simpl. by destruct Hm as [-> | ->]. }
    unfold setupBody. rewrite Hnb. unfold chunked, fixExpectContinueReader.
    cbn [r_Header newRequest set_Body Body]. split.
    + intros Hte. rewrite (bool_decide_eq_true_2 _ Hte). by case_bool_decide.
    + intros Hte. rewrite (bool_decide_eq_false_2 _ Hte). split; [|split; [|split]].
      * intros Hcl. by rewrite (bool_decide_eq_true_2 _ Hcl).
      * intros Hcl Hp. by rewrite (bool_decide_eq_false_2 _ Hcl), Hp.
      * intros n Hcl Hp. rewrite (bool_decide_eq_false_2 _ Hcl), Hp.
        cbn [negb r_Header set_Body Body].
        case_bool_decide; cbn [negb Body set_Body]; (split; [done|]);
          intros c fuel Hn Hcap Hf.
        -- destruct fuel as [|fuel]; [lia|]. rewrite ReadAll_wrapper.
           rewrite limitReader_ReadAll; [|done|by rewrite emitContinue_bufr|lia].
           rewrite emitContinue_bufr. eexists _, _. split; [reflexivity|].
           split; [by rewrite length_take_le|]. simpl. done.
        -- rewrite limitReader_ReadAll by done. eexists _, _. split; [reflexivity|].
           split; [by rewrite length_take_le|]. done.
      * intros z Hcl Hp Hz k c. rewrite (bool_decide_eq_false_2 _ Hcl), Hp.
        cbn [negb r_Header set_Body Body].
        case_bool_decide; cbn [negb Body set_Body body_Read];
          (destruct (Z.leb_spec z 0); [|lia]); by eexists _, _.
Qed.

(** A POST request with [Content-Length: 3] on a connection that holds six
    bytes: the body is the first three. *)
Lemma setupBody_selects_witness :
  let h : Header.t := [("Content-Length" : bytes, ["3" : bytes])] in
  exists b' c',
    body_ReadAll (fun _ => 2) 4 0 (Body (setupBody (newRequest "POST" "HTTP/1.1" h)))
      (newConn "abcdef")
    = (take 3 ("abcdef" : bytes), None, b', c')
    /\ length (take 3 ("abcdef" : bytes)) = 3
    /\ bufr c' = drop 3 ("abcdef" : bytes).
Proof.
  intros h.
  destruct (setupBody_selects (fun _ => 2) "POST" "HTTP/1.1" h) as (_ & _ & H).
  destruct (H (or_introl eq_refl)) as [_ H2].
  destruct H2 as (_ & _ & H3 & _); [discriminate|].
  destruct (H3 3) as [_ H4]; [discriminate | reflexivity |].
  apply (H4 (newConn "abcdef") 4); [simpl; lia | intros; lia | lia].
Defined.

(** ** Content types with another parameter (C9) *)

Lemma setupBody_fields r :
  Method (setupBody r) = Method r /\ r_Header (setupBody r) = r_Header r
  /\ contentType (setupBody r) = contentType r /\ boundary (setupBody r) = boundary r
  /\ postForm (setupBody r) = postForm r /\ multipartForm (setupBody r) = multipartForm r
  /\ haveParsedForm (setupBody r) = haveParsedForm r
  /\ parseFormErr (setupBody r) = parseFormErr r.
Proof.
  unfold setupBody, fixExpectContinueReader.
  repeat (case_match; simpl); done.
Qed.

Lemma parseContentType_no_boundary r media params :
  Header.Get (r_Header r) "Content-Type" = media ++ ";" ++ params ->
  ";"%char ∉ media ->
  boundaryParam params = false ->
  parseContentType r = r.
Proof.
  intros Hct Hmedia Hparam. unfold parseContentType. rewrite Hct.
  cbn [list_ascii_of_string app].
  rewrite IndexByte_app by done.
  destruct (_ =? _); [done|].
  rewrite cons_middle, app_assoc.
  rewrite drop_app_length' by (rewrite length_app; simpl; lia).
  rewrite Split_IndexByte. unfold boundaryParam, attrKey in Hparam.
  destruct (Strings.IndexByte params "=") as [i|]; [|done].
  rewrite Split_IndexByte.
  apply bool_decide_eq_false in Hparam.
  destruct (Strings.IndexByte (drop (S i) params) "=");
    (rewrite bool_decide_eq_false_2 by done); done.
Qed.

(** C9: a Content-Type with a ';' whose parameter is not a boundary parameter
    leaves [contentType] empty, and form parsing on a POST or PUT request
    answers "unsupported form type", on the first call and on every later
    one. *)
Theorem parseContentType_other_parameter_unsupported
    (cap : nat -> nat) (m p : bytes) (h : Header.t) (media params : bytes)
    (c : conn) (fs : FS)
    (Hm : m = "POST" \/ m = "PUT")
    (Hct : Header.Get h "Content-Type" = media ++ ";" ++ params)
    (Hmedia : ";"%char ∉ media)
    (Hparam : boundaryParam params = false) :
  let r := parseContentType (setupBody (newRequest m p h)) in
  contentType r = []
  /\ (parseForm cap r c fs).1.1.1 = Some (Err "unsupported form type")
  /\ exists r1,
       Request_MultipartForm cap r c fs
         = (None, Some (Err "unsupported form type"), r1, c, fs)
       /\ Request_MultipartForm cap r1 c fs
            = (None, Some (Err "unsupported form type"), r1, c, fs)
       /\ forall name, Request_PostForm cap name r1 c fs = ([], r1, c, fs).
Proof.
  intros r.
  destruct (setupBody_fields (newRequest m p h))
    as (HM & HH & HC & HB & HP & HF & HV & HE).
  assert (Hr : r = setupBody (newRequest m p h)).
  { apply (parseContentType_no_boundary _ media params); [by rewrite HH | done | done]. }
  assert (Hnb : noBodyMethod r = false).
  { unfold noBodyMethod. rewrite Hr, HM. simpl. by destruct Hm as [-> | ->]. }
  assert (Hc : contentType r = []) by (by rewrite Hr, HC).
  assert (Hpf : parseForm cap r c fs
                = (Some (Err "unsupported form type"),
                   set_forms r (postForm r) (multipartForm r) true (parseFormErr r), c, fs)).
  { unfold parseForm. rewrite Hnb. simpl. rewrite Hc. reflexivity. }
  split; [done|]. split; [by rewrite Hpf|].
  eexists. split; [|split].
  - unfold Request_MultipartForm. rewrite Hr at 1. rewrite HV. simpl.
    rewrite Hpf. simpl. reflexivity.
  - unfold Request_MultipartForm. simpl. rewrite Hr, HF. reflexivity.
  - intros name. unfold Request_PostForm. simpl. reflexivity.
Qed.

(** A form sent with a charset parameter. *)
Lemma parseContentType_other_parameter_unsupported_witness :
  let h : Header.t :=
    [("Content-Type" : bytes,
      ["application/x-www-form-urlencoded; charset=UTF-8" : bytes])] in
  (parseForm (fun _ => 512) (parseContentType (setupBody (newRequest "POST" "HTTP/1.1" h)))
     (newConn []) emptyFS).1.1.1
  = Some (Err "unsupported form type").
Proof.
  intros h.
  apply (parseContentType_other_parameter_unsupported (fun _ => 512) "POST" "HTTP/1.1" h
           "application/x-www-form-urlencoded" " charset=UTF-8" (newConn []) emptyFS).
  - left; reflexivity.
  - reflexivity.
  - apply IndexByte_None. reflexivity.
  - reflexivity.
Defined.

(** ** Attributes with a second '=' (C10) *)

Lemma getKV_many a : 1 < countByte "=" a -> getKV a = ([], []).
Proof.
  intros Ha. unfold getKV.
  pose proof (Split_length a "=") as Hl.
  destruct (Strings.Split a "=") as [|k [|v [|? ?]]]; simpl in Hl; try done. lia.
Qed.

Lemma getKV_key s k :
  (getKV s).1 = k -> k <> [] -> attrKey s = k /\ countByte "=" s = 1.
Proof.
  unfold getKV, attrKey. intros Hk Hne.
  pose proof (Split_length s "=") as Hl.
  rewrite Split_IndexByte in Hk, Hl.
  destruct (Strings.IndexByte s "=") as [i|]; [|by subst].
  rewrite Split_IndexByte in Hk, Hl.
  destruct (Strings.IndexByte (drop (S i) s) "=") as [j|].
  - simpl in Hk. destruct (Strings.Split _ _) eqn:E; [by apply Split_nonempty in E|].
    by subst.
  - simpl in *. split; [done | lia].
Qed.

Lemma parseFormData_loop_fileName ss names :
  (forall s, s ∈ ss -> (getKV s).1 <> ("filename" : bytes)) ->
  (parseFormData_loop ss names).2 = names.2.
Proof.
  revert names. induction ss as [|s ss IH]; intros names H; simpl; [done|].
  destruct (getKV s) as [key value] eqn:E.
  rewrite IH by (intros; apply H; by right).
  assert (key <> ("filename" : bytes)).
  { specialize (H s). rewrite E in H. apply H. by left. }
  case_bool_decide; [done|]. by rewrite bool_decide_eq_false_2.
Qed.

Lemma parseFormData_loop_formName ss names :
  (forall s, s ∈ ss -> (getKV s).1 <> ("name" : bytes)) ->
  (parseFormData_loop ss names).1 = names.1.
Proof.
  revert names. induction ss as [|s ss IH]; intros names H; simpl; [done|].
  destruct (getKV s) as [key value] eqn:E.
  rewrite IH by (intros; apply H; by right).
  assert (key <> ("name" : bytes)).
  { specialize (H s). rewrite E in H. apply H. by left. }
  rewrite bool_decide_eq_false_2 by done. by case_bool_decide.
Qed.

(** C10: a segment of Content-Disposition with more than one '=' yields the
    empty key and value and counts for nothing in [parseFormData]; a part
    whose filename attributes all have a second '=' has the empty [FileName],
    one whose name attributes all have it has the empty [FormName], and
    [ReadForm] goes on to the next part without touching the form. *)
Theorem attribute_with_second_equals_dropped (cap : nat -> nat) (a : bytes)
    (Ha : 1 < countByte "=" a) :
  getKV a = ([], [])
  /\ (forall pre post names,
        parseFormData_loop (pre ++ a :: post) names
        = parseFormData_loop (pre ++ post) names)
  /\ (forall h,
        (forall s, s ∈ Strings.Split (Header.Get h "Content-Disposition") ";" ->
                   attrKey s = "filename" -> 1 < countByte "=" s) ->
        FileName (newPart h) = [])
  /\ (forall h,
        (forall s, s ∈ Strings.Split (Header.Get h "Content-Disposition") ";" ->
                   attrKey s = "name" -> 1 < countByte "=" s) ->
        FormName (newPart h) = [])
  /\ (forall fuel nf fm mf cur mr fs p cur' mr',
        NextPart cap cur mr = (Some p, None, cur', mr') ->
        FormName p = [] ->
        ReadForm_loop cap (S fuel) nf fm mf cur mr fs
        = ReadForm_loop cap fuel nf fm mf (Some (Part_parse p)) mr' fs).
Proof.
  split; [by apply getKV_many|]. split; [|split; [|split]].
  - intros pre post. induction pre as [|s pre IH]; intros names; simpl.
    + by rewrite getKV_many.
    + destruct (getKV s). apply IH.
  - intros h H. unfold FileName, Part_parse, parseFormData, newPart. simpl.
    case_match; [done|].
    apply parseFormData_loop_fileName. intros s Hs Hk.
    apply getKV_key in Hk as [Hk Hc]; [|done].
    specialize (H s Hs Hk). lia.
  - intros h H. unfold FormName, Part_parse, parseFormData, newPart. simpl.
    case_match; [done|].
    apply parseFormData_loop_formName. intros s Hs Hk.
    apply getKV_key in Hk as [Hk Hc]; [|done].
    specialize (H s Hs Hk). lia.
  - intros fuel nf fm mf cur mr fs p cur' mr' HN HF. simpl. rewrite HN.
    unfold FormName in HF. rewrite HF. reflexivity.
Qed.

(** The file name a=b.txt. *)
Lemma attribute_with_second_equals_dropped_witness :
  getKV ("filename=" ++ [DQUOTE] ++ "a=b.txt" ++ [DQUOTE]) = ([], []).
Proof.
  apply (attribute_with_second_equals_dropped (fun _ => 512)).
  vm_compute. lia.
Defined.

(** ** Facts about [bytes.Index] *)

Section IndexFacts.

Implicit Types (s t sep : bytes).

Lemma hasPrefix_true sep s : Strings.hasPrefix sep s = true <-> exists t, s = sep ++ t.
Proof.
  revert s. induction sep as [|a sep IH]; intros s; simpl.
  - split; [intros _; by exists s | done].
  - destruct s as [|b s]; [split; [done | intros [t Ht]; done]|].
    rewrite andb_true_iff, IH. split.
    + intros [Hab [t ->]]. apply Ascii.eqb_eq in Hab as ->. by exists t.
    + intros [t [= -> ->]]. split; [apply Ascii.eqb_refl | by exists t].
Qed.

Lemma hasPrefix_app sep t : Strings.hasPrefix sep (sep ++ t) = true.
Proof. apply hasPrefix_true. by exists t. Qed.

Lemma hasPrefix_length sep s : Strings.hasPrefix sep s = true -> length sep <= length s.
Proof. intros [t ->]%hasPrefix_true. rewrite length_app. lia. Qed.

Lemma hasPrefix_take sep s m :
  Strings.hasPrefix sep (take m s) = Strings.hasPrefix sep s && (length sep <=? m).
Proof.
  destruct (Strings.hasPrefix sep (take m s)) eqn:E.
  - apply hasPrefix_true in E as [t Ht]. symmetry. apply andb_true_iff. split.
    + apply hasPrefix_true. exists (t ++ drop m s).
      by rewrite app_assoc, <- Ht, take_drop.
    + apply Nat.leb_le. apply (f_equal length) in Ht.
      rewrite length_take, length_app in Ht. lia.
  - symmetry. apply andb_false_iff.
    destruct (Nat.leb_spec (length sep) m) as [Hle|]; [left|by right].
    destruct (Strings.hasPrefix sep s) eqn:E2; [|done].
    apply hasPrefix_true in E2 as [t ->].
    rewrite take_app_ge in E by done.
    by rewrite hasPrefix_app in E.
Qed.

Lemma Index_Some s sep i :
  Strings.Index s sep = Some i <->
  i <= length s /\ occurs sep s i = true /\ forall j, j < i -> occurs sep s j = false.
Proof.
  unfold occurs. revert i. induction s as [|x s IH]; intros i.
  - cbn [Strings.Index]. destruct (Strings.hasPrefix sep []) eqn:E.
    + split.
      * intros [= <-]. split; [done|]. split; [done|]. intros; lia.
      * intros (Hi & _ & _). simpl in Hi. f_equal. lia.
    + split; [done|]. intros (Hi & H & _). simpl in Hi.
      replace i with 0 in H by lia. simpl in H. congruence.
  - cbn [Strings.Index]. destruct (Strings.hasPrefix sep (x :: s)) eqn:E.
    + split.
      * intros [= <-]. split; [simpl; lia|]. split; [done|]. intros; lia.
      * intros (_ & _ & H). destruct i as [|i]; [done|].
        specialize (H 0 ltac:(lia)). simpl in H. congruence.
    + split.
      * destruct (Strings.Index s sep) as [i'|] eqn:E2; [|done].
        intros [= <-]. destruct (proj1 (IH i') eq_refl) as (H1 & H2 & H3).
        simpl. split; [lia|]. split; [done|].
        intros [|j] Hj; [done|]. simpl. apply H3. lia.
      * intros (H1 & H2 & H3). destruct i as [|i]; [simpl in H2; congruence|].
        simpl in *. rewrite (proj2 (IH i)); [done|].
        split; [lia|]. split; [done|]. intros j Hj. apply (H3 (S j)). lia.
Qed.

Lemma Index_None s sep :
  Strings.Index s sep = None <-> forall j, j <= length s -> occurs sep s j = false.
Proof.
  unfold occurs. induction s as [|x s IH].
  - cbn [Strings.Index]. destruct (Strings.hasPrefix sep []) eqn:E.
    + split; [done|]. intros H. specialize (H 0 ltac:(done)). simpl in H. congruence.
    + split; [|done]. intros _ j Hj. simpl in Hj. by replace j with 0 by lia.
  - cbn [Strings.Index]. destruct (Strings.hasPrefix sep (x :: s)) eqn:E.
    + split; [done|]. intros H. specialize (H 0 ltac:(lia)). simpl in H. congruence.
    + rewrite fmap_None, IH. split.
      * intros H [|j] Hj; [done|]. simpl in *. apply H. lia.
      * intros H j Hj. apply (H (S j)). simpl. lia.
Qed.

Lemma occurs_take sep s n j :
  occurs sep (take n s) j = occurs sep s j && (length sep <=? n - j).
Proof. unfold occurs. by rewrite skipn_firstn_comm, hasPrefix_take. Qed.

Lemma occurs_drop sep s r j : occurs sep (drop r s) j = occurs sep s (r + j).
Proof. unfold occurs. by rewrite drop_drop. Qed.

Section First.

Context (body delim : bytes).
Context (Hfirst : Strings.Index (body ++ delim) delim = Some (length body)).

Lemma first_before j rest : j < length body -> occurs delim (body ++ delim ++ rest) j = false.
Proof.
  intros Hj. apply Index_Some in Hfirst as (_ & _ & H).
  specialize (H j Hj).
  replace (body ++ delim) with (take (length body + length delim) (body ++ delim ++ rest)) in H.
  - rewrite occurs_take in H. apply andb_false_iff in H as [H|H]; [done|].
    apply Nat.leb_gt in H. lia.
  - rewrite app_assoc. rewrite take_app_length'; [done|]. by rewrite length_app.
Qed.

Lemma first_at rest : occurs delim (body ++ delim ++ rest) (length body) = true.
Proof. unfold occurs. rewrite drop_app_length. apply hasPrefix_app. Qed.

Lemma Index_first rest :
  Strings.Index (body ++ delim ++ rest) delim = Some (length body).
Proof.
  apply Index_Some. split; [rewrite length_app; lia|]. split; [apply first_at|].
  intros j Hj. by apply first_before.
Qed.

Lemma Index_first_window rest n :
  length body + length delim <= n ->
  Strings.Index (take n (body ++ delim ++ rest)) delim = Some (length body).
Proof.
  intros Hn. apply Index_Some. split; [|split].
  - rewrite length_take, !length_app. lia.
  - rewrite occurs_take, first_at. apply Nat.leb_le. lia.
  - intros j Hj. rewrite occurs_take. rewrite (first_before j rest Hj). reflexivity.
Qed.

Lemma Index_first_short rest n :
  0 < length delim ->
  n < length body + length delim ->
  Strings.Index (take n (body ++ delim ++ rest)) delim = None.
Proof.
  intros Hd Hn. apply Index_None. intros j Hj. rewrite occurs_take.
  destruct (Nat.lt_ge_cases j (length body)).
  - rewrite (first_before j rest); [reflexivity | lia].
  - apply andb_false_iff. right. apply Nat.leb_gt. lia.
Qed.

Lemma Index_first_drop r :
  r <= length body ->
  Strings.Index (drop r body ++ delim) delim = Some (length (drop r body)).
Proof.
  intros Hr. rewrite <- drop_app_le by done. rewrite length_drop.
  pose proof Hfirst as (H1 & H2 & H3)%Index_Some.
  apply Index_Some. split; [|split].
  - rewrite length_drop, length_app. lia.
  - rewrite occurs_drop. by replace (r + (length body - r)) with (length body) by lia.
  - intros j Hj. rewrite occurs_drop. apply H3. lia.
Qed.

End First.

End IndexFacts.

(** ** Reading a part *)

Lemma sameDelims_refl mr : sameDelims mr mr.
Proof. done. Qed.

Lemma sameDelims_trans a b c : sameDelims a b -> sameDelims b c -> sameDelims a c.
Proof. unfold sameDelims. intuition congruence. Qed.

Lemma samePart_refl p : samePart p p.
Proof. done. Qed.

Lemma samePart_trans a b c : samePart a b -> samePart b c -> samePart a c.
Proof. unfold samePart. intuition congruence. Qed.

Lemma set_mr_bufr_id mr : set_mr_bufr mr (mr_bufr mr) = mr.
Proof. by destruct mr. Qed.

Lemma substitute_Read_reading k p mr delim body rest :
  0 < k ->
  mr_bufr mr = body ++ delim ++ rest ->
  exists r,
    substitute_Read k (Z.of_nat (length body)) p mr
    = (take r body, (if body is [] then Some EOF else None),
       set_substituteReader p (Some (Z.of_nat (length (drop r body)))),
       set_mr_bufr mr (drop r body ++ delim ++ rest))
    /\ (body <> [] -> 0 < r) /\ r <= k /\ r <= length body.
Proof.
  intros Hk Hs. unfold substitute_Read.
  destruct body as [|x body].
  - exists 0. simpl in *. rewrite <- Hs, set_mr_bufr_id.
    split; [done|]. split; [done|]. lia.
  - destruct (Z.leb_spec (Z.of_nat (length (x :: body))) 0) as [H|H]; [simpl in H; lia|].
    set (k' := if (Z.of_nat (length (x :: body)) <? Z.of_nat k)%Z
               then Z.to_nat (Z.of_nat (length (x :: body))) else k).
    assert (Hk' : 0 < k' /\ k' <= k /\ k' <= length (x :: body)).
    { unfold k'. destruct (Z.ltb_spec (Z.of_nat (length (x :: body))) (Z.of_nat k)); lia. }
    clearbody k'. exists k'. rewrite Hs.
    rewrite Bufio_Read_some by (done || lia).
    rewrite take_app_le, drop_app_le by lia.
    rewrite length_take_le, length_drop by lia.
    split; [|split; [intros _; lia | lia]].
    by replace (Z.of_nat (length (x :: body)) - Z.of_nat k')%Z
      with (Z.of_nat (length (x :: body) - k')) by lia.
Qed.

Lemma Part_Read_reading k p mr delim body rest :
  0 < k -> 0 < length delim -> length delim <= bufSize ->
  reading delim p mr body rest ->
  exists r p' mr',
    Part_Read k p mr = (take r body, (if body is [] then Some EOF else None), p', mr')
    /\ (body <> [] -> 0 < r) /\ r <= k /\ r <= length body
    /\ reading delim p' mr' (drop r body) rest
    /\ (body = [] -> substituteReader p' = Some 0%Z)
    /\ samePart p p' /\ sameDelims mr mr'.
Proof.
  intros Hk Hd0 Hd [Hdelim Hs Hfirst Hopen Hsub].
  assert (Hsubst : forall mr0, mr_bufr mr0 = body ++ delim ++ rest ->
            crlfDashBoundary mr0 = delim -> sameDelims mr mr0 ->
            exists r p' mr',
              substitute_Read k (Z.of_nat (length body)) p mr0
              = (take r body, (if body is [] then Some EOF else None), p', mr')
              /\ (body <> [] -> 0 < r) /\ r <= k /\ r <= length body
              /\ reading delim p' mr' (drop r body) rest
              /\ (body = [] -> substituteReader p' = Some 0%Z)
              /\ samePart p p' /\ sameDelims mr mr').
  { intros mr0 Hs0 Hd1 Hsame.
    destruct (substitute_Read_reading k p mr0 delim body rest Hk Hs0) as (r & -> & H1 & H2 & H3).
    eexists r, _, _. split; [reflexivity|]. split; [done|]. split; [done|]. split; [done|].
    split; [|split; [|split]].
    - constructor; simpl; try done.
      + by apply Index_first_drop.
      + by right.
    - intros ->. simpl. by destruct r.
    - done.
    - destruct Hsame as (?&?&?&?). by destruct mr0. }
  unfold Part_Read. rewrite Hopen.
  destruct Hsub as [Hsub|Hsub]; rewrite Hsub; [|by apply Hsubst].
  set (s := body ++ delim ++ rest) in *.
  destruct (occurEofErr mr) eqn:Heof.
  - rewrite Hs, Hdelim. unfold s. rewrite Index_first by done.
    rewrite Heof. replace (negb (Z.of_nat (length body) =? -1)%Z) with true
      by (symmetry; apply negb_true_iff, Z.eqb_neq; lia).
    cbn [orb]. by apply Hsubst.
  - unfold Bufio.Peek. rewrite Hs.
    destruct (Nat.leb_spec bufSize (length s)) as [Hlen|Hlen].
    + rewrite Hdelim, Heof.
      destruct (Nat.le_gt_cases (length body + length delim) bufSize) as [Hw|Hw].
      * unfold s. rewrite Index_first_window by done.
        replace (negb (Z.of_nat (length body) =? -1)%Z) with true
          by (symmetry; apply negb_true_iff, Z.eqb_neq; lia).
        cbn [orb]. by apply Hsubst.
      * unfold s. rewrite Index_first_short by done. cbn [Z.eqb negb orb andb].
        set (maxRead := (Z.of_nat bufSize - Z.of_nat (length delim) + 1)%Z).
        set (mx := if (maxRead >? Z.of_nat k)%Z then Z.of_nat k else maxRead).
        assert (Hmx : (0 < mx /\ mx <= Z.of_nat k /\ mx <= Z.of_nat (length body))%Z).
        { unfold mx, maxRead. destruct (Z.gtb_spec (Z.of_nat bufSize - Z.of_nat (length delim) + 1) (Z.of_nat k)); lia. }
        clearbody mx. destruct (Z.ltb_spec mx 0) as [?|_]; [lia|].
        rewrite Hs. fold s.
        rewrite Bufio_Read_some; [|lia|unfold s; destruct body; simpl in *; [lia|done]].
        exists (Z.to_nat mx), p, (set_mr_bufr mr (drop (Z.to_nat mx) s)).
        unfold s. rewrite take_app_le, drop_app_le by lia.
        destruct body as [|x body]; [simpl in *; lia|].
        split; [done|]. split; [lia|]. split; [lia|]. split; [lia|].
        split; [|split; [done|split; [done|by destruct mr]]].
        constructor; simpl; try done.
        -- apply Index_first_drop; [done|lia].
        -- by left.
    + cbn [occurEofErr set_occurEofErr mr_bufr crlfDashBoundary].
      rewrite Hdelim, Hs. unfold s. rewrite Index_first by done.
      replace (negb (Z.of_nat (length body) =? -1)%Z) with true
        by (symmetry; apply negb_true_iff, Z.eqb_neq; lia).
      cbn [orb]. apply Hsubst; [by rewrite <- Hs | done | by destruct mr].
Qed.

Section PartLoops.

Context (cap : nat -> nat) (Hcap : forall i, 0 < cap i).
Context (delim : bytes) (Hd0 : 0 < length delim) (Hd : length delim <= bufSize).

Lemma Part_ReadAll_S fuel i p mr :
  Part_ReadAll cap (S fuel) i p mr
  = let '(data, err, p', mr') := Part_Read (cap i) p mr in
    match err with
    | Some EOF => (data, None, p', mr')
    | Some e => (data, Some e, p', mr')
    | None =>
        let '(rest, err', p'', mr'') := Part_ReadAll cap fuel (S i) p' mr' in
        (data ++ rest, err', p'', mr'')
    end.
Proof. reflexivity. Qed.

Lemma Part_CopyN_loop_S fuel i N p mr :
  Part_CopyN_loop cap (S fuel) i N p mr
  = if (N <=? 0)%Z then ([], None, p, mr)
    else
      let k := if (N <? Z.of_nat (cap i))%Z then Z.to_nat N else cap i in
      let '(data, err, p', mr') := Part_Read k p mr in
      match err with
      | Some EOF => (data, None, p', mr')
      | Some e => (data, Some e, p', mr')
      | None =>
          let '(rest, err', p'', mr'') :=
            Part_CopyN_loop cap fuel (S i) (N - Z.of_nat (length data)) p' mr' in
          (data ++ rest, err', p'', mr'')
      end.
Proof. reflexivity. Qed.

Lemma Part_ReadAll_reading fuel : forall i p mr body rest,
  reading delim p mr body rest ->
  length body < fuel ->
  exists p' mr',
    Part_ReadAll cap fuel i p mr = (body, None, p', mr')
    /\ reading delim p' mr' [] rest
    /\ substituteReader p' = Some 0%Z
    /\ samePart p p' /\ sameDelims mr mr'.
Proof.
  induction fuel as [|fuel IH]; intros i p mr body rest Hr Hf; [lia|].
  rewrite Part_ReadAll_S.
  destruct (Part_Read_reading (cap i) p mr delim body rest (Hcap i) Hd0 Hd Hr)
    as (r & p' & mr' & -> & H1 & H2 & H3 & H4 & H5 & H6 & H7).
  destruct body as [|x body].
  - rewrite take_nil. rewrite drop_nil in H4. exists p', mr'. auto.
  - specialize (H1 ltac:(done)).
    destruct (IH (S i) p' mr' (drop r (x :: body)) rest H4) as (p'' & mr'' & -> & G1 & G2 & G3 & G4).
    { rewrite length_drop. simpl in *. lia. }
    exists p'', mr''. rewrite take_drop. split; [done|]. split; [done|]. split; [done|].
    split; [by eapply samePart_trans | by eapply sameDelims_trans].
Qed.

Lemma Part_CopyN_loop_reading fuel : forall i (N : Z) p mr body rest,
  reading delim p mr body rest ->
  length body < fuel ->
  exists p' mr',
    Part_CopyN_loop cap fuel i N p mr = (take (Z.to_nat N) body, None, p', mr')
    /\ reading delim p' mr' (drop (Z.to_nat N) body) rest
    /\ ((Z.of_nat (length body) < N)%Z -> substituteReader p' = Some 0%Z)
    /\ samePart p p' /\ sameDelims mr mr'.
Proof.
  induction fuel as [|fuel IH]; intros i N p mr body rest Hr Hf; [lia|].
  rewrite Part_CopyN_loop_S.
  destruct (Z.leb_spec N 0) as [HN|HN].
  - replace (Z.to_nat N) with 0 by lia. rewrite take_0, drop_0.
    exists p, mr. split; [done|]. split; [done|]. split; [lia|]. done.
  - set (k := if (N <? Z.of_nat (cap i))%Z then Z.to_nat N else cap i).
    assert (Hk : 0 < k /\ (Z.of_nat k <= N)%Z).
    { unfold k. pose proof (Hcap i). destruct (Z.ltb_spec N (Z.of_nat (cap i))); lia. }
    clearbody k. destruct Hk as [Hk0 HkN]. cbn zeta.
    destruct (Part_Read_reading k p mr delim body rest Hk0 Hd0 Hd Hr)
      as (r & p' & mr' & -> & H1 & H2 & H3 & H4 & H5 & H6 & H7).
    destruct body as [|x body].
    + rewrite !take_nil, drop_nil. rewrite drop_nil in H4. exists p', mr'. auto.
    + specialize (H1 ltac:(done)).
      rewrite length_take_le by done.
      destruct (IH (S i) (N - Z.of_nat r)%Z p' mr' (drop r (x :: body)) rest H4)
        as (p'' & mr'' & -> & G1 & G2 & G3 & G4).
      { rewrite length_drop. simpl in *. lia. }
      exists p'', mr''.
      replace (Z.to_nat (N - Z.of_nat r)) with (Z.to_nat N - r) in * by lia.
      rewrite take_take_drop, drop_drop in *.
      replace (r + (Z.to_nat N - r)) with (Z.to_nat N) in * by lia.
      split; [done|]. split; [done|]. split.
      { intros HlN. apply G2. rewrite length_drop. lia. }
      split; [by eapply samePart_trans | by eapply sameDelims_trans].
Qed.

Lemma Part_CopyN_all fuel n p mr body rest :
  reading delim p mr body rest ->
  length body < fuel ->
  (Z.of_nat (length body) < n)%Z ->
  exists p' mr',
    Part_CopyN cap fuel n p mr = (body, Some EOF, p', mr')
    /\ reading delim p' mr' [] rest
    /\ substituteReader p' = Some 0%Z
    /\ samePart p p' /\ sameDelims mr mr'.
Proof.
  intros Hr Hf Hn. unfold Part_CopyN.
  destruct (Part_CopyN_loop_reading fuel 0 n p mr body rest Hr Hf)
    as (p' & mr' & -> & H1 & H2 & H3 & H4).
  rewrite take_ge, drop_ge in * by lia.
  destruct (Z.eqb_spec (Z.of_nat (length body)) n) as [?|_]; [lia|].
  destruct (Z.ltb_spec (Z.of_nat (length body)) n) as [_|?]; [|lia].
  exists p', mr'. auto.
Qed.

Lemma Part_CopyN_some fuel n p mr body rest :
  reading delim p mr body rest ->
  length body < fuel ->
  n <= length body ->
  exists p' mr',
    Part_CopyN cap fuel (Z.of_nat n) p mr = (take n body, None, p', mr')
    /\ reading delim p' mr' (drop n body) rest
    /\ samePart p p' /\ sameDelims mr mr'.
Proof.
  intros Hr Hf Hn. unfold Part_CopyN.
  destruct (Part_CopyN_loop_reading fuel 0 (Z.of_nat n) p mr body rest Hr Hf)
    as (p' & mr' & -> & H1 & H2 & H3 & H4).
  rewrite Nat2Z.id in *. rewrite length_take_le by done. rewrite Z.eqb_refl.
  exists p', mr'. auto.
Qed.

End PartLoops.

(** ** Lines, trimming and quoting *)

Lemma readLine_crlf l t :
  LF ∉ l -> length l + 2 <= bufSize -> readLine (l ++ CRLF ++ t) = (l, None, t).
Proof.
  intros Hl Hlen. unfold readLine.
  assert (Hs : l ++ CRLF ++ t = (l ++ [CR]) ++ LF :: t) by (unfold CRLF; rewrite <- app_assoc; reflexivity).
  rewrite Hs.
  assert (Hnl : LF ∉ l ++ [CR]).
  { rewrite not_elem_of_app. split; [done|].
    apply not_elem_of_cons. split; [discriminate | apply not_elem_of_nil]. }
  rewrite take_app_ge by (rewrite length_app; simpl; lia).
  rewrite length_app. cbn [length].
  destruct (bufSize - (length l + 1)) as [|n] eqn:E; [lia|].
  cbn [take]. rewrite IndexByte_app by done.
  rewrite length_app. cbn [length].
  rewrite take_app_length' by (rewrite length_app; simpl; lia).
  rewrite last_snoc. cbn [Ascii.eqb CR]. simpl Ascii.eqb.
  replace (length l + 1 - 1) with (length l) by lia.
  rewrite take_app_length.
  replace (S (length l + 1)) with (length (l ++ [CR]) + 1)
    by (rewrite length_app; simpl; lia).
  rewrite drop_app_add. reflexivity.
Qed.

Lemma readLine_end l :
  LF ∉ l -> l <> [] -> length l < bufSize -> readLine l = (l, None, []).
Proof.
  intros Hl Hne Hlen. unfold readLine.
  rewrite take_ge by lia. rewrite (proj2 (IndexByte_None l "010") Hl).
  destruct (Nat.ltb_spec (length l) bufSize); [|lia]. by destruct l.
Qed.

(** Trimming *)

Lemma spaceRuneLenLast_snoc s c :
  (32 < nat_of_ascii c < 128) -> Strings.spaceRuneLenLast (s ++ [c]) = 0.
Proof.
  intros Hc. unfold Strings.spaceRuneLenLast.
  assert (exists u, drop (length (s ++ [c]) - 3) (s ++ [c]) = u ++ [c] /\ length u <= 2)
    as (u & -> & Hu).
  { rewrite length_app. cbn [length].
    destruct (Nat.le_gt_cases 2 (length s)).
    - exists (drop (length s - 2) s). rewrite length_drop. split; [|lia].
      replace (length s + 1 - 3) with (length s - 2) by lia.
      by rewrite drop_app_le by lia.
    - exists s. split; [|lia]. by replace (length s + 1 - 3) with 0 by lia. }
  rewrite map_app. cbn [map].
  set (x := nat_of_ascii c) in *.
  assert (E1 : (x <=? 13) = false) by (apply Nat.leb_gt; lia).
  assert (E2 : (128 <=? x) = false) by (apply Nat.leb_gt; lia).
  assert (E3 : forall n, 128 <= n \/ n <= 32 -> (x =? n) = false)
    by (intros; apply Nat.eqb_neq; lia).
  unfold Strings.isSpaceRune.
  destruct u as [|a [|b [|? ?]]]; cbn [map app length Nat.sub drop]; [| | |simpl in Hu; lia].
  - by rewrite E1, !E3, ?andb_false_r by lia.
  - by rewrite E1, !E3, ?andb_false_r by lia.
  - rewrite E1, E2, !E3 by lia. cbn [andb orb]. by rewrite ?andb_false_r.
Qed.

Lemma spaceRuneLen_cons c s :
  (32 < nat_of_ascii c < 128) -> Strings.spaceRuneLen (c :: s) = 0.
Proof.
  intros Hc. unfold Strings.spaceRuneLen. cbn [take map].
  set (x := nat_of_ascii c) in *.
  assert (E1 : (x <=? 13) = false) by (apply Nat.leb_gt; lia).
  assert (E3 : forall n, 128 <= n \/ n <= 32 -> (x =? n) = false)
    by (intros; apply Nat.eqb_neq; lia).
  unfold Strings.isSpaceRune.
  destruct s as [|a [|b s]]; cbn [take map]; by rewrite E1, !E3, ?andb_false_r by lia.
Qed.

Lemma TrimSpace_value s c0 c1 :
  (32 < nat_of_ascii c0 < 128) -> (32 < nat_of_ascii c1 < 128) ->
  Strings.TrimSpace (" " ++ c0 :: s ++ [c1]) = c0 :: s ++ [c1].
Proof.
  intros H0 H1. unfold Strings.TrimSpace.
  assert (Hl : Strings.trimLeftSpace (length (" " ++ c0 :: s ++ [c1])) (" " ++ c0 :: s ++ [c1])
               = c0 :: s ++ [c1]).
  { cbn [list_ascii_of_string app length Strings.trimLeftSpace].
    change (Strings.spaceRuneLen (" "%char :: c0 :: s ++ [c1])) with 1.
    cbn [drop Strings.trimLeftSpace]. by rewrite spaceRuneLen_cons. }
  rewrite Hl. cbn [length Strings.trimRightSpace].
  change (c0 :: s ++ [c1]) with ((c0 :: s) ++ [c1]).
  by rewrite spaceRuneLenLast_snoc.
Qed.

Lemma trimLeftByte_id c s : c ∉ s -> Strings.trimLeftByte c s = s.
Proof.
  destruct s as [|x s]; [done|]. intros [Hx _]%not_elem_of_cons. simpl.
  destruct (Ascii.eqb_spec x c); [by subst|done].
Qed.

Lemma not_elem_of_rev (c : ascii) (s : bytes) : c ∉ s -> c ∉ rev s.
Proof. intros H Hin. apply H. apply list_elem_of_In, in_rev. by apply list_elem_of_In. Qed.

Lemma Trim_quoted c s : c ∉ s -> Strings.Trim (c :: s ++ [c]) c = s.
Proof.
  intros Hs. unfold Strings.Trim. cbn [Strings.trimLeftByte]. rewrite Ascii.eqb_refl.
  assert (Hl : Strings.trimLeftByte c (s ++ [c]) = if s is [] then [] else s ++ [c]).
  { destruct s as [|x s]; simpl; [by rewrite Ascii.eqb_refl|].
    apply not_elem_of_cons in Hs as [Hx _].
    destruct (Ascii.eqb_spec x c); [by subst|done]. }
  rewrite Hl. destruct s as [|x s]; [done|].
  rewrite rev_unit. cbn [Strings.trimLeftByte]. rewrite Ascii.eqb_refl.
  rewrite trimLeftByte_id by (by apply not_elem_of_rev).
  apply rev_involutive.
Qed.

Lemma Split_none s c : c ∉ s -> Strings.Split s c = [s].
Proof. intros H. rewrite Split_IndexByte. by rewrite (proj2 (IndexByte_None s c) H). Qed.

Lemma Split_app_sep s t c :
  c ∉ s -> Strings.Split (s ++ c :: t) c = s :: Strings.Split t c.
Proof.
  intros H. rewrite Split_IndexByte, IndexByte_app by done.
  rewrite take_app_length. rewrite cons_middle, app_assoc.
  by rewrite drop_app_length' by (rewrite length_app; simpl; lia).
Qed.

Lemma not_elem_of_literal (c : ascii) (s : bytes) :
  Strings.IndexByte s c = None -> c ∉ s.
Proof. apply IndexByte_None. Qed.

Lemma parseFormData_loop_none s ss names :
  getKV s = ([], []) -> parseFormData_loop (s :: ss) names = parseFormData_loop ss names.
Proof.
  intros H. cbn [parseFormData_loop]. rewrite H.
  by rewrite !bool_decide_eq_false_2 by discriminate.
Qed.

Lemma parseFormData_loop_name s ss names v :
  getKV s = ("name" : bytes, v) ->
  parseFormData_loop (s :: ss) names = parseFormData_loop ss (v, names.2).
Proof.
  intros H. cbn [parseFormData_loop]. rewrite H.
  by rewrite bool_decide_eq_true_2 by reflexivity.
Qed.

Lemma parseFormData_loop_filename s ss names v :
  getKV s = ("filename" : bytes, v) ->
  parseFormData_loop (s :: ss) names = parseFormData_loop ss (names.1, v).
Proof.
  intros H. cbn [parseFormData_loop]. rewrite H.
  rewrite bool_decide_eq_false_2 by discriminate.
  by rewrite bool_decide_eq_true_2 by reflexivity.
Qed.

Section Canonical.

Context (fp : FormPart).
Context (Hname : nameOK (fp_name fp)) (Hfile : nameOK (fp_fileName fp)).

Let name := fp_name fp.
Let fn := fp_fileName fp.

Lemma getKV_name : getKV (" name=" ++ [DQUOTE] ++ name ++ [DQUOTE]) = ("name" : bytes, name).
Proof.
  destruct Hname as (H1 & H2 & H3 & H4). unfold getKV.
  change (" name=" ++ [DQUOTE] ++ name ++ [DQUOTE])
    with (list_ascii_of_string " name" ++ "="%char :: (DQUOTE :: name ++ [DQUOTE])).
  rewrite Split_app_sep by (by apply not_elem_of_literal).
  rewrite Split_none.
  - by rewrite Trim_quoted.
  - apply not_elem_of_cons. split; [discriminate|].
    apply not_elem_of_app. split; [done|]. apply not_elem_of_cons.
    split; [discriminate | apply not_elem_of_nil].
Qed.

Lemma getKV_filename :
  getKV (" filename=" ++ [DQUOTE] ++ fn ++ [DQUOTE]) = ("filename" : bytes, fn).
Proof.
  destruct Hfile as (H1 & H2 & H3 & H4). unfold getKV.
  change (" filename=" ++ [DQUOTE] ++ fn ++ [DQUOTE])
    with (list_ascii_of_string " filename" ++ "="%char :: (DQUOTE :: fn ++ [DQUOTE])).
  rewrite Split_app_sep by (by apply not_elem_of_literal).
  rewrite Split_none.
  - by rewrite Trim_quoted.
  - apply not_elem_of_cons. split; [discriminate|].
    apply not_elem_of_app. split; [done|]. apply not_elem_of_cons.
    split; [discriminate | apply not_elem_of_nil].
Qed.

Lemma quoted_no_semicolon (pre : bytes) (s : bytes) :
  Strings.IndexByte pre ";" = None -> ";"%char ∉ s ->
  ";"%char ∉ pre ++ [DQUOTE] ++ s ++ [DQUOTE].
Proof.
  intros Hp Hs. apply not_elem_of_app. split; [by apply not_elem_of_literal|].
  apply not_elem_of_cons. split; [discriminate|].
  apply not_elem_of_app. split; [done|]. apply not_elem_of_cons.
  split; [discriminate | apply not_elem_of_nil].
Qed.

Lemma Part_parse_canonical :
  Part_parse (newPart (partHeader fp))
  = mkPart (partHeader fp) name fn false None true.
Proof.
  unfold Part_parse, parseFormData, newPart. cbn [parsed p_Header formName fileName closed substituteReader].
  assert (HG : Header.Get (partHeader fp) "Content-Disposition" = contentDisposition fp).
  { unfold partHeader, Header.Get. cbn [Header.values]. by rewrite bool_decide_eq_true_2. }
  rewrite HG. unfold contentDisposition. fold name fn.
  destruct Hname as (N1 & N2 & N3 & N4). destruct Hfile as (F1 & F2 & F3 & F4).
  case_bool_decide as Hfn.
  - rewrite app_nil_r.
    change ("form-data; name=" ++ [DQUOTE] ++ name ++ [DQUOTE])
      with (list_ascii_of_string "form-data" ++ ";"%char
              :: (" name=" ++ [DQUOTE] ++ name ++ [DQUOTE])).
    rewrite Split_app_sep by (by apply not_elem_of_literal).
    rewrite Split_none by (by apply quoted_no_semicolon).
    cbn [length Nat.eqb hd orb]. rewrite bool_decide_eq_true_2 by reflexivity.
    cbn [negb].
    rewrite parseFormData_loop_none by reflexivity.
    rewrite (parseFormData_loop_name _ _ _ name) by apply getKV_name.
    cbn. by rewrite <- Hfn.
  - replace ("form-data; name=" ++ [DQUOTE] ++ name ++ [DQUOTE]
             ++ "; filename=" ++ [DQUOTE] ++ fn ++ [DQUOTE])
      with (list_ascii_of_string "form-data" ++ ";"%char
              :: ((" name=" ++ [DQUOTE] ++ name ++ [DQUOTE])
                  ++ ";"%char :: (" filename=" ++ [DQUOTE] ++ fn ++ [DQUOTE])))
      by (cbn [list_ascii_of_string app]; by rewrite <- !app_assoc).
    rewrite Split_app_sep by (by apply not_elem_of_literal).
    rewrite Split_app_sep by (by apply quoted_no_semicolon).
    rewrite Split_none by (by apply quoted_no_semicolon).
    cbn [length Nat.eqb hd orb]. rewrite bool_decide_eq_true_2 by reflexivity.
    cbn [negb].
    rewrite parseFormData_loop_none by reflexivity.
    rewrite (parseFormData_loop_name _ _ _ name) by apply getKV_name.
    rewrite (parseFormData_loop_filename _ _ _ fn) by apply getKV_filename.
    by cbn.
Qed.

End Canonical.

Lemma readHeader_loop_S fuel header s :
  readHeader_loop (S fuel) header s
  = let '(line, err, s') := readLine s in
    match err with
    | Some e => (None, Some e, s')
    | None =>
        match line with
        | [] => (Some header, None, s')
        | _ =>
            match Strings.IndexByte line ":" with
            | None => (None, Some (Err "unsupported protocol"), s')
            | Some i =>
                if (i =? length line - 1)%nat then readHeader_loop fuel header s'
                else
                  let k := take i line in
                  let v := Strings.TrimSpace (drop (S i) line) in
                  readHeader_loop fuel (Header.Add header k v) s'
            end
        end
    end.
Proof. reflexivity. Qed.

Section CanonicalHeader.

Context (fp : FormPart).
Context (Hname : nameOK (fp_name fp)) (Hfile : nameOK (fp_fileName fp)).
Context (Hlen : length (fp_name fp) + length (fp_fileName fp) <= 1024).

Lemma contentDisposition_shape :
  exists s, contentDisposition fp = "f"%char :: s ++ [DQUOTE].
Proof.
  unfold contentDisposition. case_bool_decide.
  - exists ("orm-data; name=" ++ [DQUOTE] ++ fp_name fp).
    cbn [list_ascii_of_string app]. rewrite ?app_nil_r, <- ?app_assoc. reflexivity.
  - exists ("orm-data; name=" ++ [DQUOTE] ++ fp_name fp ++ [DQUOTE]
            ++ "; filename=" ++ [DQUOTE] ++ fp_fileName fp).
    cbn [list_ascii_of_string app]. rewrite <- ?app_assoc. reflexivity.
Qed.

Lemma contentDisposition_length : length (contentDisposition fp) <= 1060.
Proof.
  unfold contentDisposition. case_bool_decide; rewrite !length_app; simpl; lia.
Qed.

Lemma contentDisposition_LF : LF ∉ contentDisposition fp.
Proof.
  destruct Hname as (N1 & _). destruct Hfile as (F1 & _).
  unfold contentDisposition.
  repeat (apply not_elem_of_app; split);
    try done; try (by apply not_elem_of_literal);
    try (apply not_elem_of_cons; split; [discriminate | apply not_elem_of_nil]).
  case_bool_decide; [apply not_elem_of_nil|].
  repeat (apply not_elem_of_app; split);
    try done; try (by apply not_elem_of_literal);
    try (apply not_elem_of_cons; split; [discriminate | apply not_elem_of_nil]).
Qed.

Lemma readHeader_canonical t :
  readHeader ("Content-Disposition: " ++ contentDisposition fp ++ CRLF ++ CRLF ++ t)
  = (Some (partHeader fp), None, t).
Proof.
  unfold readHeader, partHeader.
  pose proof contentDisposition_length as HL. pose proof contentDisposition_LF as HLF.
  destruct contentDisposition_shape as [s' Hshape].
  set (cd := contentDisposition fp) in *. clearbody cd.
  set (line1 := "Content-Disposition: " ++ cd).
  assert (Hs : "Content-Disposition: " ++ cd ++ CRLF ++ CRLF ++ t
               = line1 ++ CRLF ++ ([] ++ CRLF ++ t)).
  { unfold line1. by rewrite <- !app_assoc. }
  rewrite Hs.
  assert (Hl1 : length line1 = 21 + length cd) by (unfold line1; by rewrite length_app).
  remember (length (line1 ++ CRLF ++ [] ++ CRLF ++ t)) as n eqn:En.
  destruct n as [|f].
  { exfalso. rewrite !length_app in En. unfold CRLF in En. simpl in En. lia. }
  clear En.
  rewrite readHeader_loop_S.
  rewrite readLine_crlf; cycle 1.
  { unfold line1. apply not_elem_of_app. split; [by apply not_elem_of_literal | done]. }
  { rewrite Hl1. unfold bufSize. lia. }
  assert (Hline : line1 = list_ascii_of_string "Content-Disposition" ++ ":"%char :: (" " ++ cd))
    by reflexivity.
  assert (Hne : exists x l, line1 = x :: l) by (by eexists _, _).
  destruct Hne as (x & l & Hxl). rewrite Hxl. rewrite <- Hxl. clear x l Hxl.
  rewrite Hline at 1. rewrite IndexByte_app by (by apply not_elem_of_literal).
  destruct (Nat.eqb_spec (length (list_ascii_of_string "Content-Disposition")) (length line1 - 1)) as [E|_].
  { rewrite Hl1 in E. rewrite Hshape in E. simpl in E. lia. }
  cbn zeta. rewrite Hline.
  rewrite take_app_length.
  rewrite cons_middle, app_assoc.
  rewrite drop_app_length' by (rewrite length_app; simpl; lia).
  rewrite Hshape. rewrite TrimSpace_value by (vm_compute; lia).
  rewrite readHeader_loop_S. rewrite readLine_crlf; [|apply not_elem_of_nil|unfold bufSize; simpl; lia].
  reflexivity.
Qed.

End CanonicalHeader.

(** ** The parts of a well-formed body *)

Lemma NewMultipartReader_delims input b :
  delimsOf b (NewMultipartReader input b)
  /\ mr_bufr (NewMultipartReader input b) = input.
Proof.
  unfold delimsOf, NewMultipartReader.
  cbn [crlfDashBoundary dashBoundary dashBoundaryDash mr_bufr].
  set (d := CRLF ++ "--" ++ b).
  assert (H1 : take (length (CRLF ++ "--" ++ b ++ "--") - 2) (CRLF ++ "--" ++ b ++ "--") = d).
  { replace (CRLF ++ "--" ++ b ++ "--") with (d ++ "--")
      by (unfold d; by rewrite <- !app_assoc).
    rewrite length_app. replace (length d + length (list_ascii_of_string "--") - 2) with (length d)
      by (simpl; lia).
    apply take_app_length. }
  rewrite H1. done.
Qed.

Lemma encodeForm_tail b fps : encodeForm b fps = "--" ++ b ++ tailForm b fps.
Proof. destruct fps; simpl; reflexivity. Qed.

Lemma encodeForm_length b fps : length fps < length (encodeForm b fps).
Proof.
  induction fps as [|fp fps IH]; cbn [encodeForm length].
  - rewrite length_app. simpl. lia.
  - rewrite !length_app. simpl. lia.
Qed.

Section Boundary.

Context (cap : nat -> nat) (Hcap : forall i, 0 < cap i).
Context (b : bytes) (Hb : wellFormedBoundary b).

Let dash : bytes := "--" ++ b.
Let delim : bytes := CRLF ++ "--" ++ b.

Lemma delim_length : 0 < length delim /\ length delim <= bufSize.
Proof.
  destruct Hb as [_ Hl]. unfold delim. rewrite !length_app. unfold bufSize. simpl. lia.
Qed.

Lemma dash_LF : LF ∉ dash.
Proof.
  destruct Hb as [Hl _]. unfold dash. apply not_elem_of_app.
  split; [by apply not_elem_of_literal | done].
Qed.

Lemma closeCurPart_atDelim cur mr Y :
  delimsOf b mr -> atDelim b cur mr Y ->
  exists cur' mr',
    closeCurPart cap cur mr = (None, cur', mr')
    /\ mr_bufr mr' = dash ++ Y /\ sameDelims mr mr'.
Proof.
  intros (D1 & D2 & D3) [[-> Hs] | (p & -> & Hr)].
  - exists None, mr. done.
  - unfold closeCurPart, Part_Close. rewrite (rd_open _ _ _ _ _ Hr).
    destruct delim_length as [L1 L2].
    destruct (Part_ReadAll_reading cap Hcap delim L1 L2 (S (S (length (mr_bufr mr)))) 0
                p mr [] Y Hr) as (p' & mr' & -> & R1 & R2 & R3 & R4); [simpl; lia|].
    unfold MultipartReader_discardCRLF. rewrite (rd_stream _ _ _ _ _ R1).
    cbn [app]. unfold delim, CRLF. cbn [app Bufio.ReadFull length Nat.leb take drop store2 fst snd].
    eexists _, _. split; [reflexivity|]. split; [reflexivity|].
    destruct R4 as (?&?&?&?). by destruct mr'.
Qed.

Lemma NextPart_end cur mr :
  delimsOf b mr -> atDelim b cur mr (tailForm b []) ->
  exists p' cur' mr', NextPart cap cur mr = (p', Some EOF, cur', mr').
Proof.
  intros HD Hat.
  destruct (closeCurPart_atDelim cur mr _ HD Hat) as (cur' & mr' & Hc & Hs & Hsame).
  unfold NextPart. rewrite Hc, Hs.
  destruct HD as (D1 & D2 & D3). destruct Hsame as (S1 & S2 & S3 & S4).
  replace (dash ++ tailForm b []) with ((dash ++ "--") ++ CRLF ++ [])
    by (unfold tailForm; by rewrite <- !app_assoc, app_nil_r).
  rewrite readLine_crlf; cycle 1.
  { apply not_elem_of_app. split; [apply dash_LF | by apply not_elem_of_literal]. }
  { destruct Hb as [_ Hl]. unfold dash. rewrite !length_app. unfold bufSize. simpl. lia. }
  cbn [dashBoundaryDash set_mr_bufr]. rewrite S4, D3.
  rewrite bool_decide_eq_true_2 by (unfold dash; by rewrite <- !app_assoc).
  by eexists _, _, _.
Qed.

Lemma NextPart_part cur mr fp fps :
  delimsOf b mr -> wellFormedPart b fp ->
  atDelim b cur mr (tailForm b (fp :: fps)) ->
  exists mr',
    NextPart cap cur mr
    = (Some (newPart (partHeader fp)), None, Some (newPart (partHeader fp)), mr')
    /\ mr_bufr mr' = fp_body fp ++ delim ++ tailForm b fps
    /\ sameDelims mr mr'.
Proof.
  intros HD (W1 & W2 & W3 & W4 & W5) Hat.
  destruct (closeCurPart_atDelim cur mr _ HD Hat) as (cur' & mr' & Hc & Hs & Hsame).
  unfold NextPart. rewrite Hc, Hs.
  destruct HD as (D1 & D2 & D3). destruct Hsame as (S1 & S2 & S3 & S4).
  unfold tailForm. fold tailForm.
  rewrite readLine_crlf; cycle 1.
  { apply dash_LF. }
  { destruct Hb as [_ Hl]. unfold dash. rewrite !length_app. unfold bufSize. simpl. lia. }
  cbn [dashBoundaryDash dashBoundary set_mr_bufr mr_bufr]. rewrite S3, S4, D2, D3.
  rewrite bool_decide_eq_false_2; cycle 1.
  { unfold dash. intros E. apply (f_equal length) in E. rewrite !length_app in E.
    simpl in E. lia. }
  rewrite bool_decide_eq_true_2 by done. cbn [negb].
  rewrite readHeader_canonical by done.
  cbn [default]. eexists. split; [reflexivity|].
  cbn [mr_bufr]. split.
  - rewrite encodeForm_tail. unfold delim. by rewrite <- !app_assoc.
  - by destruct mr'.
Qed.

End Boundary.

Lemma textSize_nonneg fps : (0 <= textSize fps)%Z.
Proof. induction fps as [|fp fps IH]; simpl; [lia|]. case_bool_decide; lia. Qed.

Lemma fileSize_nonneg fps : (0 <= fileSize fps)%Z.
Proof. induction fps as [|fp fps IH]; simpl; [lia|]. case_bool_decide; lia. Qed.

Lemma delimsOf_same b mr mr' : delimsOf b mr -> sameDelims mr mr' -> delimsOf b mr'.
Proof. unfold delimsOf, sameDelims. intuition congruence. Qed.

(** ** One part of the aggregation *)

Section Steps.

Context (cap : nat -> nat) (Hcap : forall i, 0 < cap i).
Context (b : bytes) (Hb : wellFormedBoundary b).

(** After [NextPart] and the parse of the names, the part of [fp] is being
    read. *)
Lemma ReadForm_loop_enter cur mr fp fps :
  wellFormedPart b fp -> delimsOf b mr ->
  atDelim b cur mr (tailForm b (fp :: fps)) ->
  exists mr1,
    NextPart cap cur mr
    = (Some (newPart (partHeader fp)), None, Some (newPart (partHeader fp)), mr1)
    /\ Part_parse (newPart (partHeader fp))
       = mkPart (partHeader fp) (fp_name fp) (fp_fileName fp) false None true
    /\ delimsOf b mr1
    /\ reading (CRLF ++ "--" ++ b)
         (mkPart (partHeader fp) (fp_name fp) (fp_fileName fp) false None true)
         mr1 (fp_body fp) (tailForm b fps)
    /\ length (fp_body fp) < S (S (length (mr_bufr mr1))).
Proof.
  intros Hfp HD Hat.
  destruct (NextPart_part cap Hcap b Hb cur mr fp fps HD Hfp Hat) as (mr1 & HN & Hs1 & Hsame1).
  pose proof Hfp as (W1 & W2 & W3 & W4 & W5).
  pose proof (delimsOf_same _ _ _ HD Hsame1) as HD1.
  exists mr1. split; [done|]. split; [by apply Part_parse_canonical|]. split; [done|].
  split.
  - constructor; try done.
    + apply HD1.
    + by left.
  - rewrite Hs1, length_app. lia.
Qed.

(** A text field over the budget that is left ends the aggregation. *)
Lemma ReadForm_loop_text_over fuel nf fm mf cur mr fs fp fps :
  wellFormedPart b fp -> fp_fileName fp = [] ->
  (0 <= nf < Z.of_nat (length (fp_body fp)))%Z ->
  delimsOf b mr -> atDelim b cur mr (tailForm b (fp :: fps)) ->
  exists cur' mr',
    ReadForm_loop cap (S fuel) nf fm mf cur mr fs
    = mkReadFormResult None (Some (Err "multipart: message too large")) cur' mr' fs.
Proof.
  intros Hfp Hfn Hnf HD Hat.
  destruct (ReadForm_loop_enter cur mr fp fps Hfp HD Hat) as (mr1 & HN & HP & HD1 & Hr & Hcf).
  cbn [ReadForm_loop]. rewrite HN, HP. cbn [formName fileName].
  rewrite bool_decide_eq_false_2 by apply Hfp.
  rewrite bool_decide_eq_true_2 by done.
  destruct (delim_length b Hb) as [L1 L2].
  replace (nf + 1)%Z with (Z.of_nat (Z.to_nat (nf + 1))) by lia.
  destruct (Part_CopyN_some cap Hcap _ L1 L2 _ (Z.to_nat (nf + 1)) _ _ _ _ Hr Hcf ltac:(lia))
    as (p' & mr2 & -> & R1 & R2 & R3).
  cbn [fatal]. rewrite length_take_le by lia.
  destruct (Z.ltb_spec (nf - Z.of_nat (Z.to_nat (nf + 1))) 0) as [_|?]; [|lia].
  by eexists _, _.
Qed.

(** A part that fits in the budget of its kind is kept in memory. *)
Lemma ReadForm_loop_fits fuel nf fm mf cur mr fs fp fps :
  wellFormedPart b fp ->
  (if bool_decide (fp_fileName fp = []) then Z.of_nat (length (fp_body fp)) <= nf
   else Z.of_nat (length (fp_body fp)) <= fm)%Z ->
  delimsOf b mr -> atDelim b cur mr (tailForm b (fp :: fps)) ->
  exists p' mr',
    delimsOf b mr' /\ atDelim b (Some p') mr' (tailForm b fps)
    /\ ReadForm_loop cap (S fuel) nf fm mf cur mr fs
       = ReadForm_loop cap fuel
           (if bool_decide (fp_fileName fp = []) then nf - Z.of_nat (length (fp_body fp)) else nf)%Z
           (if bool_decide (fp_fileName fp = []) then fm else fm - Z.of_nat (length (fp_body fp)))%Z
           (addPart mf fp) (Some p') mr' fs.
Proof.
  intros Hfp Hsz HD Hat.
  destruct (ReadForm_loop_enter cur mr fp fps Hfp HD Hat) as (mr1 & HN & HP & HD1 & Hr & Hcf).
  cbn [ReadForm_loop]. rewrite HN, HP. cbn [formName fileName].
  rewrite bool_decide_eq_false_2 by apply Hfp.
  destruct (delim_length b Hb) as [L1 L2].
  unfold addPart. case_bool_decide as Hfn.
  - destruct (Part_CopyN_all cap Hcap _ L1 L2 _ (nf + 1) _ _ _ _ Hr Hcf ltac:(lia))
      as (p' & mr2 & -> & R1 & R2 & (P1 & P2 & P3 & P4) & Hsame2).
    cbn [fatal].
    destruct (Z.ltb_spec (nf - Z.of_nat (length (fp_body fp))) 0) as [?|_]; [lia|].
    exists p', mr2. split; [by eapply delimsOf_same|]. split; [right; by exists p'|].
    by rewrite P2.
  - destruct (Part_CopyN_all cap Hcap _ L1 L2 _ (fm + 1) _ _ _ _ Hr Hcf ltac:(lia))
      as (p' & mr2 & -> & R1 & R2 & (P1 & P2 & P3 & P4) & Hsame2).
    cbn [fatal].
    destruct (Z.geb_spec fm (Z.of_nat (length (fp_body fp)))) as [_|?]; [|lia].
    exists p', mr2. split; [by eapply delimsOf_same|]. split; [right; by exists p'|].
    by rewrite P1, P2, P3.
Qed.

(** A file over the budget that is left goes to a new temporary file; the
    temporary file of an entry it replaces is removed. *)
Lemma ReadForm_loop_spill fuel nf fm mf cur mr fs fp fps :
  wellFormedPart b fp -> fp_fileName fp <> [] ->
  (0 <= fm < Z.of_nat (length (fp_body fp)))%Z ->
  delimsOf b mr -> atDelim b cur mr (tailForm b (fp :: fps)) ->
  exists p' mr',
    delimsOf b mr' /\ atDelim b (Some p') mr' (tailForm b fps)
    /\ ReadForm_loop cap (S fuel) nf fm mf cur mr fs
       = ReadForm_loop cap fuel nf fm
           (mkMultipartForm (Value mf)
              (<[fp_name fp :=
                   mkFileHeader (fp_fileName fp) (partHeader fp)
                     (Z.of_nat (length (fp_body fp))) [] (tmpName (created fs))]> (File mf)))
           (Some p') mr'
           (let fs1 := writeFile (tmpName (created fs)) (fp_body fp) (CreateTemp fs).2 in
            match File mf !! fp_name fp with
            | Some old => Remove (fh_tmpFile old) fs1
            | None => fs1
            end).
Proof.
  intros Hfp Hfn Hfm HD Hat.
  destruct (ReadForm_loop_enter cur mr fp fps Hfp HD Hat) as (mr1 & HN & HP & HD1 & Hr & Hcf).
  cbn [ReadForm_loop]. rewrite HN, HP. cbn [formName fileName].
  rewrite bool_decide_eq_false_2 by apply Hfp.
  rewrite bool_decide_eq_false_2 by done.
  destruct (delim_length b Hb) as [L1 L2].
  replace (fm + 1)%Z with (Z.of_nat (Z.to_nat (fm + 1))) by lia.
  destruct (Part_CopyN_some cap Hcap _ L1 L2 _ (Z.to_nat (fm + 1)) _ _ _ _ Hr Hcf ltac:(lia))
    as (p' & mr2 & -> & R1 & (P1 & P2 & P3 & P4) & Hsame2).
  cbn [fatal]. rewrite length_take_le by lia.
  destruct (Z.geb_spec fm (Z.of_nat (Z.to_nat (fm + 1)))) as [?|_]; [lia|].
  unfold CreateTemp at 1.
  destruct (Part_ReadAll_reading cap Hcap _ L1 L2 (S (S (length (mr_bufr mr1)))) 0
              p' mr2 _ _ R1) as (p'' & mr3 & -> & Q1 & Q2 & (S1 & S2 & S3 & S4) & Hsame3).
  { rewrite length_drop. lia. }
  rewrite take_drop.
  exists p'', mr3.
  split; [eapply delimsOf_same; [|exact Hsame3]; by eapply delimsOf_same|].
  split; [right; by exists p''|].
  rewrite S1, S2, S3, P1, P2, P3. reflexivity.
Qed.

End Steps.

(** ** The whole form *)

Section RoundTrip.

Context (cap : nat -> nat) (Hcap : forall i, 0 < cap i).
Context (b : bytes) (Hb : wellFormedBoundary b).

Lemma ReadForm_loop_parts fps : forall fuel nf fm mf cur mr fs,
  Forall (wellFormedPart b) fps ->
  delimsOf b mr ->
  atDelim b cur mr (tailForm b fps) ->
  length fps < fuel ->
  (textSize fps <= nf)%Z -> (fileSize fps <= fm)%Z ->
  exists cur' mr',
    ReadForm_loop cap fuel nf fm mf cur mr fs
    = mkReadFormResult (Some (foldl addPart mf fps)) None cur' mr' fs.
Proof.
  induction fps as [|fp fps IH]; intros fuel nf fm mf cur mr fs Hwf HD Hat Hfuel Hnf Hfm.
  - destruct fuel as [|fuel]; [simpl in Hfuel; lia|]. cbn [ReadForm_loop].
    destruct (NextPart_end cap Hcap b Hb cur mr HD Hat) as (p' & cur' & mr' & ->).
    by eexists _, _.
  - destruct fuel as [|fuel]; [simpl in Hfuel; lia|].
    apply Forall_cons in Hwf as [Hfp Hwf].
    simpl in Hnf, Hfm, Hfuel.
    pose proof (textSize_nonneg fps). pose proof (fileSize_nonneg fps).
    destruct (ReadForm_loop_fits cap Hcap b Hb fuel nf fm mf cur mr fs fp fps Hfp)
      as (p' & mr' & HD' & Hat' & ->); [case_bool_decide; lia | done | done |].
    cbn [foldl]. apply IH; try done; [lia | case_bool_decide; lia | case_bool_decide; lia].
Qed.

Lemma ReadForm_encodeForm fps fs :
  Forall (wellFormedPart b) fps ->
  (textSize fps <= 10 * 2 ^ 20)%Z -> (fileSize fps <= 30 * 2 ^ 20)%Z ->
  exists cur' mr',
    ReadForm cap (NewMultipartReader (encodeForm b fps) b) fs
    = mkReadFormResult (Some (formOf fps)) None cur' mr' fs.
Proof.
  intros Hwf Hnf Hfm. unfold ReadForm, formOf.
  destruct (NewMultipartReader_delims (encodeForm b fps) b) as [HD Hs].
  apply ReadForm_loop_parts; try done.
  - left. split; [done|]. by rewrite Hs, encodeForm_tail.
  - rewrite Hs. pose proof (encodeForm_length b fps). lia.
Qed.

End RoundTrip.

(** ** The form of a list of parts *)

Lemma foldl_addPart_lookup n l : forall mf,
  Forall (fun q => fp_name q <> n) l ->
  Value (foldl addPart mf l) !! n = Value mf !! n
  /\ File (foldl addPart mf l) !! n = File mf !! n.
Proof.
  induction l as [|q l IH]; intros mf Hl; [done|].
  apply Forall_cons in Hl as [Hq Hl]. cbn [foldl].
  destruct (IH (addPart mf q) Hl) as [-> ->].
  unfold addPart. case_bool_decide; cbn [Value File]; by rewrite lookup_insert_ne.
Qed.

Lemma formOf_lookup l1 fp l2 fs :
  Forall (fun q => fp_name q <> fp_name fp) l2 ->
  if bool_decide (fp_fileName fp = []) then
    Value (formOf (l1 ++ fp :: l2)) !! fp_name fp = Some (fp_body fp)
  else
    exists fh,
      File (formOf (l1 ++ fp :: l2)) !! fp_name fp = Some fh
      /\ fh_FileName fh = fp_fileName fp
      /\ FileHeader_content fh fs = Some (fp_body fp).
Proof.
  intros Hl. unfold formOf. rewrite foldl_app. cbn [foldl].
  destruct (foldl_addPart_lookup (fp_name fp) l2 (addPart (foldl addPart emptyForm l1) fp) Hl)
    as [HV HF].
  rewrite HV, HF. unfold addPart.
  case_bool_decide; cbn [Value File]; rewrite lookup_insert_eq; [done|].
  eexists. split; [reflexivity|]. done.
Qed.

(** ** A part at the end of the stream *)

Lemma Part_Read_end_of_stream k p mr :
  closed p = false -> substituteReader p = None ->
  occurEofErr mr = true \/ length (mr_bufr mr) < bufSize ->
  Strings.Index (mr_bufr mr) (crlfDashBoundary mr) = None ->
  Part_Read k p mr
  = ([], Some EOF, set_substituteReader p (Some (-1)%Z), set_occurEofErr mr true).
Proof.
  intros Hc Hsub Hend Hidx. unfold Part_Read. rewrite Hc, Hsub.
  destruct (occurEofErr mr) eqn:Heof.
  - rewrite Hidx, Heof. cbn [Z.eqb negb orb andb]. unfold substitute_Read.
    cbn [Z.leb Z.compare]. f_equal. destruct mr; simpl in *; by subst.
  - destruct Hend as [?|Hlen]; [done|].
    unfold Bufio.Peek. destruct (Nat.leb_spec bufSize (length (mr_bufr mr))); [lia|].
    cbn [crlfDashBoundary set_occurEofErr occurEofErr]. rewrite Hidx.
    cbn [Z.eqb negb orb andb]. reflexivity.
Qed.

(** ** A delimiter whose first byte the content does not hold *)

Lemma Index_absent_first (c : ascii) (d body : bytes) :
  c ∉ body ->
  Strings.Index (body ++ c :: d) (c :: d) = Some (length body).
Proof.
  intros Hc. apply Index_Some. split; [rewrite length_app; lia|]. split.
  - unfold occurs. rewrite drop_app_length.
    rewrite <- (app_nil_r (c :: d)) at 2. apply hasPrefix_app.
  - intros j Hj. unfold occurs.
    destruct (Strings.hasPrefix (c :: d) (drop j (body ++ c :: d))) eqn:E; [|done].
    apply hasPrefix_true in E as [t Ht].
    exfalso. apply Hc.
    assert (Hj' : (body ++ c :: d) !! j = Some c).
    { rewrite <- (Nat.add_0_r j), <- lookup_drop, Ht. reflexivity. }
    rewrite lookup_app_l in Hj' by done.
    by eapply list_elem_of_lookup_2.
Qed.

(** ** A file that takes the place of a file kept on disk *)

Section Replacement.

Context (cap : nat -> nat) (Hcap : forall i, 0 < cap i).
Context (b : bytes) (Hb : wellFormedBoundary b).

Lemma ReadForm_replaces_spilled fp1 fp2 fs :
  wellFormedPart b fp1 -> wellFormedPart b fp2 ->
  fp_fileName fp1 <> [] -> fp_fileName fp2 <> [] ->
  fp_name fp2 = fp_name fp1 ->
  (30 * 2 ^ 20 < Z.of_nat (length (fp_body fp1)))%Z ->
  (Z.of_nat (length (fp_body fp2)) <= 30 * 2 ^ 20)%Z ->
  exists cur' mr',
    ReadForm cap (NewMultipartReader (encodeForm b [fp1; fp2]) b) fs
    = mkReadFormResult
        (Some (mkMultipartForm ∅
                 {[ fp_name fp1 :=
                      mkFileHeader (fp_fileName fp2) (partHeader fp2)
                        (Z.of_nat (length (fp_body fp2))) (fp_body fp2) [] ]}))
        None cur' mr'
        (writeFile (tmpName (created fs)) (fp_body fp1) (CreateTemp fs).2).
Proof.
  intros W1 W2 F1 F2 Hn H1 H2. unfold ReadForm.
  destruct (NewMultipartReader_delims (encodeForm b [fp1; fp2]) b) as [HD Hs].
  assert (Hat : atDelim b None (NewMultipartReader (encodeForm b [fp1; fp2]) b)
                  (tailForm b [fp1; fp2])).
  { left. split; [done|]. by rewrite Hs, encodeForm_tail. }
  destruct (ReadForm_loop_spill cap Hcap b Hb (length (mr_bufr (NewMultipartReader (encodeForm b [fp1; fp2]) b)))
              (10 * 2 ^ 20) (30 * 2 ^ 20) emptyForm None _ fs fp1 [fp2] W1 F1 ltac:(lia) HD Hat)
    as (p1 & mr1 & HD1 & Hat1 & ->).
  rewrite Hs. pose proof (encodeForm_length b [fp1; fp2]) as Hlen. cbn [length] in Hlen.
  destruct (length (encodeForm b [fp1; fp2])) as [|[|fuel]] eqn:E; [lia|lia|].
  cbn [File emptyForm]. rewrite lookup_empty. cbn zeta.
  match goal with
  | |- context [ReadForm_loop cap _ ?nf ?fm ?mf (Some p1) mr1 ?fs'] =>
      destruct (ReadForm_loop_fits cap Hcap b Hb (S fuel) nf fm mf (Some p1) mr1 fs' fp2 [] W2)
        as (p2 & mr2 & HD2 & Hat2 & ->); [by rewrite bool_decide_eq_false_2 by done|done|done|]
  end.
  cbn [ReadForm_loop].
  destruct (NextPart_end cap Hcap b Hb (Some p2) mr2 HD2 Hat2) as (p' & cur' & mr' & ->).
  exists cur', mr'. f_equal. f_equal.
  unfold addPart. rewrite bool_decide_eq_false_2 by done.
  cbn [Value File emptyForm]. rewrite Hn, insert_insert_eq. reflexivity.
Qed.

End Replacement.

(** ** Chunked bodies *)

Lemma chunkSize_loop_illegal line : forall n,
  Exists (fun c => isHexByte c = false) line ->
  chunkSize_loop n line = (0%Z, Some (Err "illegal hex number")).
Proof.
  induction line as [|c line IH]; intros n H; [by apply Exists_nil in H|].
  apply Exists_cons in H. cbn [chunkSize_loop]. unfold isHexByte in H.
  destruct (inRange "a" "f" c); [destruct H as [H|H]; [done|by apply IH]|].
  destruct (inRange "A" "F" c); [destruct H as [H|H]; [done|by apply IH]|].
  destruct (inRange "0" "9" c); [destruct H as [H|H]; [done|by apply IH]|].
  reflexivity.
Qed.

(** A chunk-size line, within the reader's buffer, that holds a byte that is
    not a hexadecimal digit ends the read with an error. *)
Lemma chunkReader_Read_illegal k line t :
  LF ∉ line -> length line + 2 <= bufSize ->
  Exists (fun c => isHexByte c = false) line ->
  chunkReader_Read k newChunkReader (line ++ CRLF ++ t)
  = ([], Some (Err "illegal hex number"), newChunkReader, t).
Proof.
  intros Hl Hlen Hx. unfold chunkReader_Read, getChunkSize.
  cbn [cr_done cr_n newChunkReader Z.eqb].
  rewrite readLine_crlf by done.
  rewrite chunkSize_loop_illegal by done. reflexivity.
Qed.

(** C6: the handler's writes "a" and "b", framed by the chunk writer and
    followed by the last chunk, are the bytes [twoChunks]; the chunk reader,
    asked for one byte at a time, yields "a" from them, reports the end of the
    body and has taken "1" and CR for the CRLF after the last chunk; asked for
    two bytes at a time it yields "ab". *)
Theorem chunked_roundtrip_loses_bytes (DetectContentType : bytes -> bytes) :
  (let '(_, _, st1) :=
     chunkWriter_Write DetectContentType statusText_OK 3 "a" (chunkedResponse, newConn []) in
   let '(_, _, st2) := chunkWriter_Write DetectContentType statusText_OK 3 "b" st1 in
   Bufio.wbuf (resp_bufw st2.1) ++ "0" ++ CRLF ++ CRLF) = twoChunks
  /\ (body_ReadAll (fun _ => 1) 20 0 (chunkBody newChunkReader) (newConn twoChunks)).1
     = ("a" : bytes, None, chunkBody (mkChunkReader 0 true ("1"%char, CR)))
  /\ (body_ReadAll (fun _ => 2) 20 0 (chunkBody newChunkReader) (newConn twoChunks)).1.1
     = ("ab" : bytes, None).
Proof. vm_compute. repeat split. Qed.

(** ** Multipart forms *)

(** Decoding a form.  A well-formed multipart/form-data body whose text values
    total at most 10 MiB and whose files total at most 30 MiB is decoded
    without error, and without a temporary file, into the form of its parts;
    in that form a name holds the content of the last part of that name, byte
    for byte.  The bytes a part reader yields are exactly those before the
    next occurrence of the delimiter, which it leaves unread.  When the end of
    the stream is reached and the delimiter is not in what is left, the part
    reader yields none of the bytes that are left and reports the end of the
    part. *)
Theorem multipart_form_roundtrip (cap : nat -> nat) (b : bytes)
    (Hcap : forall i, 0 < cap i) (Hb : wellFormedBoundary b) :
  (forall fps fs,
     Forall (wellFormedPart b) fps ->
     (textSize fps <= 10 * 2 ^ 20)%Z -> (fileSize fps <= 30 * 2 ^ 20)%Z ->
     exists cur mr,
       ReadForm cap (NewMultipartReader (encodeForm b fps) b) fs
       = mkReadFormResult (Some (formOf fps)) None cur mr fs)
  /\ (forall l1 fp l2 fs,
        Forall (fun q => fp_name q <> fp_name fp) l2 ->
        if bool_decide (fp_fileName fp = []) then
          Value (formOf (l1 ++ fp :: l2)) !! fp_name fp = Some (fp_body fp)
        else
          exists fh,
            File (formOf (l1 ++ fp :: l2)) !! fp_name fp = Some fh
            /\ fh_FileName fh = fp_fileName fp
            /\ FileHeader_content fh fs = Some (fp_body fp))
  /\ (forall fuel i p mr body rest,
        reading (CRLF ++ "--" ++ b) p mr body rest ->
        length body < fuel ->
        exists p' mr',
          Part_ReadAll cap fuel i p mr = (body, None, p', mr')
          /\ mr_bufr mr' = (CRLF ++ "--" ++ b) ++ rest)
  /\ (forall k p mr,
        closed p = false -> substituteReader p = None ->
        occurEofErr mr = true \/ length (mr_bufr mr) < bufSize ->
        Strings.Index (mr_bufr mr) (crlfDashBoundary mr) = None ->
        Part_Read k p mr
        = ([], Some EOF, set_substituteReader p (Some (-1)%Z), set_occurEofErr mr true)).
Proof.
  split; [|split; [|split]].
  - intros fps fs. by apply ReadForm_encodeForm.
  - apply formOf_lookup.
  - intros fuel i p mr body rest Hr Hf.
    destruct (delim_length b Hb) as [L1 L2].
    destruct (Part_ReadAll_reading cap Hcap _ L1 L2 fuel i p mr body rest Hr Hf)
      as (p' & mr' & E & R & _).
    exists p', mr'. split; [done|]. apply (rd_stream _ _ _ _ _ R).
  - apply Part_Read_end_of_stream.
Qed.

(** The form [exampleParts] with the boundary XX, a part read up to its
    delimiter, and a part at the end of the stream. *)
Lemma multipart_form_roundtrip_witness :
  (exists cur mr,
     ReadForm (fun _ => 512) (NewMultipartReader (encodeForm "XX" exampleParts) "XX") emptyFS
     = mkReadFormResult (Some (formOf exampleParts)) None cur mr emptyFS)
  /\ Value (formOf exampleParts) !! ("a" : bytes) = Some ("hello" : bytes)
  /\ (exists p' mr',
        Part_ReadAll (fun _ => 512) 6 0 (newPart [])
          (NewMultipartReader ("hello" ++ CRLF ++ "--XX" ++ CRLF) "XX")
        = ("hello" : bytes, None, p', mr')
        /\ mr_bufr mr' = (CRLF ++ "--" ++ "XX") ++ CRLF)
  /\ Part_Read 512 (newPart []) (NewMultipartReader "hello" "XX")
     = ([], Some EOF, set_substituteReader (newPart []) (Some (-1)%Z),
        set_occurEofErr (NewMultipartReader "hello" "XX") true).
Proof.
  assert (Hcap : forall i : nat, 0 < 512) by (intros _; lia).
  assert (Hb : wellFormedBoundary "XX").
  { split; [by apply not_elem_of_literal | simpl; lia]. }
  destruct (multipart_form_roundtrip (fun _ => 512) "XX" Hcap Hb) as (A & B & C & D).
  split; [|split; [|split]].
  - apply A.
    + repeat constructor; try discriminate; try (by apply not_elem_of_literal);
        try (simpl; lia); reflexivity.
    + vm_compute. discriminate.
    + vm_compute. discriminate.
  - apply (B [] (mkFormPart "a" [] "hello") [mkFormPart "f" "x.txt" ("file" ++ CRLF ++ "data")]
             emptyFS).
    repeat constructor. discriminate.
  - apply C; [|simpl; lia].
    constructor; try reflexivity. by left.
  - apply D; try reflexivity. right. unfold bufSize. simpl. lia.
Defined.


(** ** Replaced files *)

(** The form and the temporary files after [uploads big], for any content
    [big] of more than 30 MiB without a CR. *)
Lemma ReadForm_uploads (big : bytes) :
  CR ∉ big -> (30 * 2 ^ 20 < Z.of_nat (length big))%Z ->
  exists cur mr mf fs,
    ReadForm (fun _ => 512) (NewMultipartReader (encodeForm "XX" (uploads big)) "XX") emptyFS
    = mkReadFormResult (Some mf) None cur mr fs
    /\ File mf
       = {[ ("f" : bytes) :=
              mkFileHeader "b.txt" (partHeader (mkFormPart "f" "b.txt" "x")) 1 "x" [] ]}
    /\ files fs = {[ tmpName 0 := big ]}
    /\ RemoveAll mf fs = fs.
Proof.
  intros Hbig Hlen.
  assert (Hcap : forall i : nat, 0 < 512) by (intros _; lia).
  assert (Hb : wellFormedBoundary "XX").
  { split; [by apply not_elem_of_literal | simpl; lia]. }
  destruct (ReadForm_replaces_spilled (fun _ => 512) Hcap "XX" Hb
              (mkFormPart "f" "a.bin" big) (mkFormPart "f" "b.txt" "x") emptyFS)
    as (cur & mr & E).
  - split; [discriminate|].
    split; [repeat split; by apply not_elem_of_literal|].
    split; [repeat split; by apply not_elem_of_literal|].
    split; [cbn [fp_name fp_fileName]; simpl; lia|].
    exact (Index_absent_first CR (LF :: list_ascii_of_string "--XX") big Hbig).
  - repeat constructor; try discriminate; try (by apply not_elem_of_literal);
      try (cbn [fp_name fp_fileName]; simpl; lia); reflexivity.
  - discriminate.
  - discriminate.
  - reflexivity.
  - exact Hlen.
  - cbn [fp_body]. simpl. lia.
  - exists cur, mr. eexists _, _. split; [exact E|].
    cbn [File fp_name fp_fileName fp_body].
    split; [reflexivity|].
    assert (Hfiles : files (writeFile (tmpName (created emptyFS)) big (CreateTemp emptyFS).2)
                     = {[ tmpName 0 := big ]}).
    { cbn [writeFile CreateTemp files created emptyFS snd].
      rewrite insert_insert_eq. apply insert_empty. }
    split; [exact Hfiles|].
    unfold RemoveAll. cbn [File]. rewrite map_fold_singleton. reflexivity.
Qed.

(** C8: a file of more than 30 MiB goes to a temporary file; a second, small
    file of the same field name is kept in memory and takes its place in the
    form, and the temporary file of the first stays: it is no longer in the
    form, and the cleanup of the form does not remove it. *)
Theorem replaced_tempfile_not_removed :
  exists cur mr mf fs,
    ReadForm (fun _ => 512) (NewMultipartReader (encodeForm "XX" (uploads bigFile)) "XX") emptyFS
    = mkReadFormResult (Some mf) None cur mr fs
    /\ File mf
       = {[ ("f" : bytes) :=
              mkFileHeader "b.txt" (partHeader (mkFormPart "f" "b.txt" "x")) 1 "x" [] ]}
    /\ files fs = {[ tmpName 0 := bigFile ]}
    /\ RemoveAll mf fs = fs.
Proof.
  refine (ReadForm_uploads bigFile _ _).
  - intros H. apply elem_of_replicate_inv in H. discriminate H.
  - unfold bigFile. rewrite length_replicate. lia.
Qed.

(** ** Lines *)

Lemma readLine_lf l t :
  LF ∉ l -> length l < bufSize -> readLine (l ++ LF :: t) = (dropCR l, None, t).
Proof.
  intros Hl Hlen. unfold readLine, dropCR.
  rewrite take_app_ge by lia.
  destruct (bufSize - length l) as [|n] eqn:E; [lia|].
  cbn [take]. rewrite IndexByte_app by done.
  rewrite take_app_length.
  replace (S (length l)) with (length l + 1) by lia.
  rewrite <- drop_drop, drop_app_length. cbn [drop].
  destruct (last l) as [c|]; [|done].
  unfold CR. by destruct (Ascii.eqb c "013").
Qed.

Lemma trimmed_cons c s :
  trimmed (c :: s) = true ->
  Strings.spaceRuneLen (c :: s) = 0
  /\ Strings.trimRightSpace (length (c :: s)) (c :: s) = c :: s.
Proof.
  unfold trimmed. cbn [head].
  destruct (last (c :: s)) as [d|] eqn:El; [|by apply last_None in El].
  intros [Hc Hd]%andb_true_iff. unfold isGraphic in Hc, Hd.
  apply andb_true_iff in Hc as [Hc1%Nat.ltb_lt Hc2%Nat.ltb_lt].
  apply andb_true_iff in Hd as [Hd1%Nat.ltb_lt Hd2%Nat.ltb_lt].
  split; [by apply spaceRuneLen_cons|].
  cbn [length Strings.trimRightSpace].
  apply last_Some in El as [s' Hs']. rewrite Hs'.
  by rewrite spaceRuneLenLast_snoc by lia.
Qed.

Lemma TrimSpace_id s : trimmed s = true -> Strings.TrimSpace s = s.
Proof.
  destruct s as [|c s]; [done|]. intros [H1 H2]%trimmed_cons.
  unfold Strings.TrimSpace. cbn [length Strings.trimLeftSpace]. by rewrite H1.
Qed.

Lemma TrimSpace_space s : trimmed s = true -> Strings.TrimSpace (" " ++ s) = s.
Proof.
  destruct s as [|c s]; [reflexivity|]. intros [H1 H2]%trimmed_cons.
  unfold Strings.TrimSpace.
  cbn [list_ascii_of_string app length Strings.trimLeftSpace].
  change (Strings.spaceRuneLen (" "%char :: c :: s)) with 1.
  cbn [drop]. by rewrite H1.
Qed.

(** ** Header blocks *)

Lemma headerLines_cons kv fields :
  headerLines (headerOf (kv :: fields))
  = kv.1 ++ ": " ++ kv.2 ++ CRLF ++ headerLines (headerOf fields).
Proof. unfold headerLines. cbn [headerOf map concat fst snd hd]. by rewrite <- !app_assoc. Qed.

Lemma headerLines_length fields : length fields <= length (headerLines (headerOf fields)).
Proof.
  induction fields as [|kv fields IH]; [done|].
  rewrite headerLines_cons, !length_app. simpl. lia.
Qed.

Lemma readHeader_loop_end fuel acc t :
  readHeader_loop (S fuel) acc (CRLF ++ t) = (Some acc, None, t).
Proof.
  rewrite readHeader_loop_S.
  change (CRLF ++ t) with ([] ++ CRLF ++ t).
  rewrite readLine_crlf; [done|apply not_elem_of_nil|unfold bufSize; simpl; lia].
Qed.

Lemma readHeader_loop_field fuel acc kv rest :
  fieldOK kv ->
  readHeader_loop (S fuel) acc (kv.1 ++ ": " ++ kv.2 ++ CRLF ++ rest)
  = readHeader_loop fuel (Header.Add acc kv.1 kv.2) rest.
Proof.
  destruct kv as [k v]. intros (Hk & HkL & HvL & Hv & Hlen). cbn [fst snd] in *.
  rewrite readHeader_loop_S.
  replace (k ++ ": " ++ v ++ CRLF ++ rest) with ((k ++ ": " ++ v) ++ CRLF ++ rest)
    by (by rewrite <- !app_assoc).
  rewrite readLine_crlf; cycle 1.
  { rewrite !not_elem_of_app. split; [done|]. split; [by apply not_elem_of_literal|done]. }
  { rewrite !length_app. simpl. lia. }
  assert (Hne : k ++ ": " ++ v <> []).
  { intros E. apply (f_equal length) in E. rewrite !length_app in E. simpl in E. lia. }
  destruct (k ++ ": " ++ v) as [|x l] eqn:E; [done|]. rewrite <- E. clear Hne.
  change (k ++ ": " ++ v) with (k ++ ":"%char :: " " ++ v).
  rewrite IndexByte_app by done.
  rewrite length_app. cbn [length list_ascii_of_string app].
  destruct (Nat.eqb_spec (length k) (length k + S (S (length v)) - 1)) as [?|_]; [lia|].
  rewrite take_app_length.
  replace (S (length k)) with (length k + 1) by lia.
  rewrite <- drop_drop, drop_app_length. cbn [drop].
  change (" "%char :: v) with (" " ++ v).
  by rewrite TrimSpace_space.
Qed.

Lemma readHeader_loop_fields fields : forall fuel acc rest,
  Forall fieldOK fields ->
  readHeader_loop (length fields + fuel) acc (headerLines (headerOf fields) ++ rest)
  = readHeader_loop fuel (foldl (fun h kv => Header.Add h kv.1 kv.2) acc fields) rest.
Proof.
  induction fields as [|kv fields IH]; intros fuel acc rest Hf; [done|].
  apply Forall_cons in Hf as [Hkv Hf].
  rewrite headerLines_cons. cbn [length Nat.add foldl].
  rewrite <- !app_assoc. rewrite readHeader_loop_field by done.
  by apply IH.
Qed.

Lemma readHeader_fields fields t :
  Forall fieldOK fields ->
  readHeader (headerLines (headerOf fields) ++ CRLF ++ t) = (Some (collect fields), None, t).
Proof.
  intros Hf. unfold readHeader, collect.
  pose proof (headerLines_length fields) as Hl.
  set (s := headerLines (headerOf fields) ++ CRLF ++ t).
  assert (Hs : length fields < S (length s)).
  { unfold s. rewrite length_app. lia. }
  replace (S (length s)) with (length fields + S (length s - length fields)) by lia.
  unfold s. rewrite readHeader_loop_fields by done.
  apply readHeader_loop_end.
Qed.

Lemma Add_fresh h k v :
  k ∉ map fst h -> Header.Add h k v = h ++ [(k, [v])].
Proof.
  induction h as [|[k' vs] h IH]; [done|]. cbn [map fst].
  intros [Hk Hh]%not_elem_of_cons. cbn [Header.Add].
  rewrite bool_decide_eq_false_2 by done. by rewrite IH.
Qed.

Lemma collect_NoDup fields :
  NoDup (map fst fields) -> collect fields = headerOf fields.
Proof.
  unfold collect.
  assert (H : forall acc,
            NoDup (map fst acc ++ map fst fields) ->
            foldl (fun h kv => Header.Add h kv.1 kv.2) acc fields = acc ++ headerOf fields).
  { induction fields as [|[k v] fields IH]; intros acc Hnd; cbn [foldl headerOf map fst snd].
    - by rewrite app_nil_r.
    - cbn [map fst] in Hnd. apply NoDup_app in Hnd as (H1 & H2 & H3).
      apply NoDup_cons in H3 as [H3 H4].
      rewrite Add_fresh by (intros Hin; apply (H2 _ Hin); left).
      rewrite (IH (acc ++ [(k, [v])])).
      + by rewrite <- app_assoc.
      + rewrite map_app. cbn [map fst]. rewrite <- app_assoc. cbn [app].
        apply NoDup_app. split; [done|]. split; [|by apply NoDup_cons].
        intros x Hx. by apply H2. }
  intros Hnd. exact (H [] Hnd).
Qed.

(** Fields given by literals are well-formed. *)
Ltac fields_ok :=
  repeat (first [apply Forall_nil_2 | apply Forall_cons_2]);
  repeat split; try (by apply not_elem_of_literal); unfold bufSize; simpl; lia.

(** X1: [readLine] ends a line at its first LF and hands it out without the
    LF and without one CR before it; the bytes after the LF stay in the
    reader.  At the end of the stream an empty input gives [io.EOF], and what
    is left without an LF is a line as it stands, a CR at its end included. *)
Theorem readLine_first_LF (l t : bytes) (Hl : LF ∉ l) (Hlen : length l < bufSize) :
  readLine (l ++ LF :: t) = (dropCR l, None, t)
  /\ readLine [] = ([], Some EOF, [])
  /\ (l <> [] -> readLine l = (l, None, [])).
Proof.
  split; [by apply readLine_lf|]. split; [reflexivity|].
  intros Hne. by apply readLine_end.
Qed.

Lemma readLine_first_LF_witness :
  readLine ("GET / HTTP/1.1" ++ [CR; CR] ++ LF :: "Host: a")
  = ("GET / HTTP/1.1" ++ [CR], None, "Host: a" : bytes).
Proof.
  apply (readLine_first_LF ("GET / HTTP/1.1" ++ [CR; CR]) "Host: a").
  - by apply not_elem_of_literal.
  - unfold bufSize. simpl. lia.
Defined.

(** X2: a header block of field lines "name: value" ended by an empty line
    is read back as the header of its fields: the values of a repeated name
    are collected under the name in the order of the lines, and a block whose
    names differ gives each name its one value.  The bytes after the empty
    line stay in the reader. *)
Theorem readHeader_roundtrip (fields : list (bytes * bytes)) (t : bytes)
    (Hf : Forall fieldOK fields) :
  readHeader (headerLines (headerOf fields) ++ CRLF ++ t) = (Some (collect fields), None, t)
  /\ (NoDup (map fst fields) -> collect fields = headerOf fields)
  /\ (forall k v, collect (fields ++ [(k, v)]) = Header.Add (collect fields) k v).
Proof.
  split; [by apply readHeader_fields|]. split; [apply collect_NoDup|].
  intros k v. unfold collect. by rewrite foldl_app.
Qed.

Lemma readHeader_roundtrip_witness :
  readHeader ("Host: example.org" ++ CRLF ++ "Accept: a" ++ CRLF ++ "Accept: b" ++ CRLF
              ++ CRLF ++ "body")
  = (Some [("Host" : bytes, ["example.org" : bytes]);
           ("Accept" : bytes, ["a" : bytes; "b" : bytes])],
     None, "body" : bytes).
Proof.
  apply (readHeader_roundtrip
           [("Host" : bytes, "example.org" : bytes); ("Accept" : bytes, "a" : bytes);
            ("Accept" : bytes, "b" : bytes)] "body").
  fields_ok.
Defined.





(** ** Query strings and urlencoded forms *)

Lemma join_cons c p ps : ps <> [] -> join c (p :: ps) = p ++ c :: join c ps.
Proof. by destruct ps. Qed.

Lemma Split_join c parts :
  parts <> [] -> Forall (fun p => c ∉ p) parts -> Strings.Split (join c parts) c = parts.
Proof.
  induction parts as [|p ps IH]; [done|]. intros _ [Hp Hps]%Forall_cons.
  destruct ps as [|q ps]; [by apply Split_none|].
  rewrite join_cons by done. rewrite Split_app_sep by done. by rewrite IH.
Qed.

Lemma parseQuery_loop_app l1 : forall l2 q,
  parseQuery_loop (l1 ++ l2) q = parseQuery_loop l2 (parseQuery_loop l1 q).
Proof.
  induction l1 as [|p l1 IH]; intros l2 q; [done|]. cbn [app parseQuery_loop].
  destruct (Strings.IndexByte p "="); [|apply IH].
  destruct (n =? length p - 1); apply IH.
Qed.

Lemma parseQuery_loop_pair kv q :
  pairOK kv ->
  parseQuery_loop [kv.1 ++ "=" ++ kv.2] q = <[kv.1 := kv.2]> q.
Proof.
  destruct kv as [k v]. intros (_ & Hk & _ & Hv & Tk & Tv). cbn [fst snd] in *.
  cbn [parseQuery_loop].
  change (k ++ "=" ++ v) with (k ++ "="%char :: v).
  rewrite IndexByte_app by done. rewrite length_app. cbn [length].
  destruct (Nat.eqb_spec (length k) (length k + S (length v) - 1)) as [E|_].
  { destruct v; [done|simpl in E; lia]. }
  rewrite take_app_length.
  replace (S (length k)) with (length k + 1) by lia.
  rewrite <- drop_drop, drop_app_length. cbn [drop].
  by rewrite !TrimSpace_id.
Qed.

Lemma parseQuery_loop_pairs kvs : forall q,
  Forall pairOK kvs ->
  parseQuery_loop (map (fun kv => kv.1 ++ "=" ++ kv.2) kvs) q
  = foldl (fun m kv => <[kv.1 := kv.2]> m) q kvs.
Proof.
  induction kvs as [|kv kvs IH]; intros q Hk; [done|].
  apply Forall_cons in Hk as [H1 H2]. cbn [map foldl].
  change (?a :: ?l) with ([a] ++ l).
  rewrite parseQuery_loop_app, parseQuery_loop_pair by done. by apply IH.
Qed.

Lemma pairs_no_amp kvs :
  Forall pairOK kvs ->
  Forall (fun p => "&"%char ∉ p) (map (fun kv => kv.1 ++ "=" ++ kv.2) kvs).
Proof.
  intros H. apply Forall_map. eapply Forall_impl; [exact H|].
  intros [k v] (H1 & _ & H3 & _). cbn [fst snd] in *.
  rewrite !not_elem_of_app. split; [done|]. split; [by apply not_elem_of_literal|done].
Qed.

Lemma parseQuery_parts parts :
  Forall (fun p => "&"%char ∉ p) parts ->
  parseQuery (join "&" parts) = parseQuery_loop parts ∅.
Proof.
  intros H. unfold parseQuery. destruct parts as [|p ps]; [done|].
  by rewrite Split_join.
Qed.

Lemma foldl_insert_lookup (l : list (bytes * bytes)) : forall (m : gmap bytes bytes) k,
  k ∉ map fst l ->
  foldl (fun m kv => <[kv.1 := kv.2]> m) m l !! k = m !! k.
Proof.
  induction l as [|[k' v'] l IH]; intros m k Hk; [done|].
  cbn [map fst] in Hk. apply not_elem_of_cons in Hk as [Hne Hk].
  cbn [foldl fst snd]. rewrite IH by done. by rewrite lookup_insert_ne.
Qed.

Lemma lastWins_lookup l1 k v l2 :
  k ∉ map fst l2 -> lastWins (l1 ++ (k, v) :: l2) !! k = Some v.
Proof.
  intros Hk. unfold lastWins. rewrite foldl_app. cbn [foldl fst snd].
  rewrite foldl_insert_lookup by done. apply lookup_insert_eq.
Qed.

(** X4: the pairs name=value of a query string or form body, joined by '&',
    are read back by [parseQuery]: every name holds the value of its last
    pair, and a name that is in no pair is not in the map.  The bytes of
    names and values are taken as they stand. *)
Theorem parseQuery_roundtrip (kvs : list (bytes * bytes)) (Hk : Forall pairOK kvs) :
  parseQuery (encodeQuery kvs) = lastWins kvs
  /\ (forall l1 k v l2,
        kvs = l1 ++ (k, v) :: l2 -> k ∉ map fst l2 ->
        parseQuery (encodeQuery kvs) !! k = Some v)
  /\ (forall k, k ∉ map fst kvs -> parseQuery (encodeQuery kvs) !! k = None).
Proof.
  assert (E : parseQuery (encodeQuery kvs) = lastWins kvs).
  { unfold encodeQuery. rewrite parseQuery_parts by (by apply pairs_no_amp).
    by apply parseQuery_loop_pairs. }
  split; [done|]. rewrite E. split.
  - intros l1 k v l2 -> Hl2. by apply lastWins_lookup.
  - intros k Hkk. unfold lastWins. by rewrite foldl_insert_lookup.
Qed.

Lemma parseQuery_roundtrip_witness :
  parseQuery "a=1&b=%20x&a=2" !! ("a" : bytes) = Some ("2" : bytes)
  /\ parseQuery "a=1&b=%20x&a=2" !! ("b" : bytes) = Some ("%20x" : bytes)
  /\ parseQuery "a=1&b=%20x&a=2" !! ("c" : bytes) = None.
Proof.
  assert (Hk : Forall pairOK
                 [("a" : bytes, "1" : bytes); ("b" : bytes, "%20x" : bytes);
                  ("a" : bytes, "2" : bytes)]).
  { repeat constructor; try (by apply not_elem_of_literal); discriminate. }
  destruct (parseQuery_roundtrip _ Hk) as (_ & H2 & H3).
  split; [|split].
  - apply (H2 [("a" : bytes, "1" : bytes); ("b" : bytes, "%20x" : bytes)] "a" "2" []);
      [reflexivity|apply not_elem_of_nil].
  - apply (H2 [("a" : bytes, "1" : bytes)] "b" "%20x" [("a" : bytes, "2" : bytes)]);
      [reflexivity|]. apply not_elem_of_cons. split; [discriminate|apply not_elem_of_nil].
  - apply H3. repeat (apply not_elem_of_cons; split; [discriminate|]). apply not_elem_of_nil.
Defined.

(** X5: a part of a query string that has no '=', or whose first '=' is its
    last byte (a name with the empty value), leaves no trace: the map is that
    of the other parts. *)
Theorem parseQuery_drops_valueless (kvs1 kvs2 : list (bytes * bytes)) (j : bytes)
    (H1 : Forall pairOK kvs1) (H2 : Forall pairOK kvs2)
    (Hamp : "&"%char ∉ j)
    (Hj : "="%char ∉ j \/ exists k, j = k ++ "=" /\ "="%char ∉ k) :
  parseQuery (join "&" (map (fun kv => kv.1 ++ "=" ++ kv.2) kvs1 ++ j
                        :: map (fun kv => kv.1 ++ "=" ++ kv.2) kvs2))
  = lastWins (kvs1 ++ kvs2).
Proof.
  rewrite parseQuery_parts; cycle 1.
  { apply Forall_app. split; [by apply pairs_no_amp|].
    apply Forall_cons. split; [done|by apply pairs_no_amp]. }
  rewrite parseQuery_loop_app, parseQuery_loop_pairs by done.
  cbn [parseQuery_loop].
  assert (Hskip : forall q rest,
            match Strings.IndexByte j "=" with
            | Some index =>
                if index =? length j - 1 then parseQuery_loop rest q
                else parseQuery_loop rest
                       (<[Strings.TrimSpace (take index j) :=
                            Strings.TrimSpace (drop (S index) j)]> q)
            | None => parseQuery_loop rest q
            end = parseQuery_loop rest q).
  { intros q rest. destruct Hj as [Hj|(k & -> & Hk)].
    - by rewrite (proj2 (IndexByte_None j "=") Hj).
    - change (k ++ "=") with (k ++ "="%char :: []). rewrite IndexByte_app by done.
      rewrite length_app. cbn [length].
      by destruct (Nat.eqb_spec (length k) (length k + 1 - 1)) as [_|?]; [|lia]. }
  rewrite Hskip, parseQuery_loop_pairs by done.
  unfold lastWins. by rewrite foldl_app.
Qed.

Lemma parseQuery_drops_valueless_witness :
  parseQuery "a=1&flag&b=2" = lastWins [("a" : bytes, "1" : bytes); ("b" : bytes, "2" : bytes)]
  /\ parseQuery "a=1&empty=&b=2"
     = lastWins [("a" : bytes, "1" : bytes); ("b" : bytes, "2" : bytes)].
Proof.
  assert (Ha : Forall pairOK [("a" : bytes, "1" : bytes)])
    by (repeat constructor; try (by apply not_elem_of_literal); discriminate).
  assert (Hb : Forall pairOK [("b" : bytes, "2" : bytes)])
    by (repeat constructor; try (by apply not_elem_of_literal); discriminate).
  split.
  - apply (parseQuery_drops_valueless _ _ "flag" Ha Hb); [by apply not_elem_of_literal|].
    left. by apply not_elem_of_literal.
  - apply (parseQuery_drops_valueless _ _ "empty=" Ha Hb); [by apply not_elem_of_literal|].
    right. exists ("empty" : bytes). split; [reflexivity|by apply not_elem_of_literal].
Defined.

(** ** Forms of a request *)

Lemma setupBody_sized m p h n :
  sizedBody m h n ->
  setupBody (newRequest m p h) = mkRequest m p h (limitReader (Z.of_nat n)) [] [] None None false None.
Proof.
  intros (Hm & Hte & Hcl & Hn & He).
  unfold setupBody, noBodyMethod, chunked, fixExpectContinueReader, newRequest.
  cbn [Method r_Header set_Body Body Proto contentType boundary postForm multipartForm
       haveParsedForm parseFormErr].
  assert (Hnb : negb (bool_decide (m = "POST")) && negb (bool_decide (m = "PUT")) = false).
  { destruct Hm as [->| ->]; [done|]. by rewrite andb_false_r. }
  rewrite Hnb. rewrite (bool_decide_eq_false_2 _ Hte), (bool_decide_eq_false_2 _ Hcl).
  cbn [negb]. rewrite Hn.
  cbn [Method r_Header set_Body Body Proto contentType boundary postForm multipartForm
       haveParsedForm parseFormErr].
  by rewrite (bool_decide_eq_false_2 _ He).
Qed.

Section Urlencoded.

Context (cap : nat -> nat) (Hcap : forall i, 0 < cap i).

Lemma parseForm_urlencoded (m p : bytes) h n c fs :
  (m = "POST" \/ m = "PUT") -> n <= length (bufr c) ->
  parseForm cap
    (mkRequest m p h (limitReader (Z.of_nat n)) "application/x-www-form-urlencoded" []
       None None false None) c fs
  = (None,
     mkRequest m p h (limitReader 0) "application/x-www-form-urlencoded" []
       (Some (parseQuery (take n (bufr c)))) None true None,
     set_bufr c (drop n (bufr c)), fs).
Proof.
  intros Hm Hn. unfold parseForm, noBodyMethod.
  cbn [Method set_forms contentType r_Header Proto Body boundary postForm multipartForm
       haveParsedForm parseFormErr].
  assert (Hnb : negb (bool_decide (m = "POST")) && negb (bool_decide (m = "PUT")) = false).
  { destruct Hm as [->| ->]; [done|]. by rewrite andb_false_r. }
  rewrite Hnb. rewrite bool_decide_eq_true_2 by done.
  unfold parsePostForm, set_forms.
  cbn [Method contentType r_Header Proto Body boundary postForm multipartForm
       haveParsedForm parseFormErr].
  rewrite (limitReader_ReadAll cap Hcap) by (unfold readFuel; lia).
  reflexivity.
Qed.

End Urlencoded.

(** X6: a POST or PUT request with the content type
    application/x-www-form-urlencoded and a Content-Length of [n] has its form
    read from the next [n] bytes of the connection, on the first call of
    [PostForm]: the call returns the value [parseQuery] gives the name (the
    empty string for a name that is not there) and leaves the bytes after the
    body in the reader.  Every later call answers from the parsed form and
    reads nothing. *)
Theorem PostForm_urlencoded (cap : nat -> nat) (m p : bytes) (h : Header.t) (n : nat)
    (c : conn) (fs : FS) (name : bytes)
    (Hcap : forall i, 0 < cap i)
    (Hb : sizedBody m h n)
    (Hct : Header.Get h "Content-Type" = "application/x-www-form-urlencoded")
    (Hn : n <= length (bufr c)) :
  let r := parseContentType (setupBody (newRequest m p h)) in
  let form := parseQuery (take n (bufr c)) in
  exists r',
    Request_PostForm cap name r c fs
    = (default [] (form !! name), r', set_bufr c (drop n (bufr c)), fs)
    /\ forall name' c' fs',
         Request_PostForm cap name' r' c' fs' = (default [] (form !! name'), r', c', fs').
Proof.
  intros r form. unfold r. rewrite (setupBody_sized m p h n Hb).
  unfold parseContentType. cbn [r_Header]. rewrite Hct.
  change (Strings.IndexByte (list_ascii_of_string "application/x-www-form-urlencoded") ";")
    with (@None nat).
  unfold set_contentType.
  cbn [Method Proto r_Header Body boundary postForm multipartForm
       haveParsedForm parseFormErr].
  eexists. split.
  - unfold Request_PostForm. cbn [haveParsedForm negb].
    rewrite (parseForm_urlencoded cap Hcap) by (done || apply Hb).
    cbn [set_forms postForm parseFormErr multipartForm haveParsedForm Method Proto r_Header
         Body contentType boundary]. reflexivity.
  - intros name' c' fs'. reflexivity.
Qed.

Lemma PostForm_urlencoded_witness :
  let h : Header.t :=
    [("Content-Type" : bytes, ["application/x-www-form-urlencoded" : bytes]);
     ("Content-Length" : bytes, ["7" : bytes])] in
  exists r',
    Request_PostForm (fun _ => 512) "b"
      (parseContentType (setupBody (newRequest "POST" "HTTP/1.1" h)))
      (newConn "a=1&b=2GET / HTTP/1.1") emptyFS
    = ("2" : bytes, r', set_bufr (newConn "a=1&b=2GET / HTTP/1.1") "GET / HTTP/1.1", emptyFS).
Proof.
  intros h.
  destruct (PostForm_urlencoded (fun _ => 512) "POST" "HTTP/1.1" h 7
              (newConn "a=1&b=2GET / HTTP/1.1") emptyFS "b") as (r' & H1 & _).
  - intros _. lia.
  - split; [by left|]. repeat split; discriminate.
  - reflexivity.
  - simpl. lia.
  - exists r'. exact H1.
Defined.

(** X7: [FormFile] on a request whose form is urlencoded: the form parses,
    [MultipartForm] returns neither a form nor an error, and [FormFile]
    dereferences the form that is not there. *)
Theorem FormFile_urlencoded_panics (cap : nat -> nat) (m p : bytes) (h : Header.t) (n : nat)
    (c : conn) (fs : FS) (key : bytes)
    (Hcap : forall i, 0 < cap i)
    (Hb : sizedBody m h n)
    (Hct : Header.Get h "Content-Type" = "application/x-www-form-urlencoded")
    (Hn : n <= length (bufr c)) :
  let r := parseContentType (setupBody (newRequest m p h)) in
  exists r',
    Request_FormFile cap key r c fs
    = (None, Some (Panic "nil pointer dereference"), r', set_bufr c (drop n (bufr c)), fs)
    /\ forall key' c' fs',
         Request_FormFile cap key' r' c' fs'
         = (None, Some (Panic "nil pointer dereference"), r', c', fs').
Proof.
  intros r. unfold r. rewrite (setupBody_sized m p h n Hb).
  unfold parseContentType. cbn [r_Header]. rewrite Hct.
  change (Strings.IndexByte (list_ascii_of_string "application/x-www-form-urlencoded") ";")
    with (@None nat).
  unfold set_contentType.
  cbn [Method Proto r_Header Body boundary postForm multipartForm
       haveParsedForm parseFormErr].
  eexists. split.
  - unfold Request_FormFile, Request_MultipartForm. cbn [haveParsedForm negb].
    rewrite (parseForm_urlencoded cap Hcap) by (done || apply Hb).
    cbn [multipartForm parseFormErr]. reflexivity.
  - intros key' c' fs'. reflexivity.
Qed.

Lemma FormFile_urlencoded_panics_witness :
  let h : Header.t :=
    [("Content-Type" : bytes, ["application/x-www-form-urlencoded" : bytes]);
     ("Content-Length" : bytes, ["3" : bytes])] in
  exists r',
    Request_FormFile (fun _ => 512) "upload"
      (parseContentType (setupBody (newRequest "POST" "HTTP/1.1" h)))
      (newConn "a=1") emptyFS
    = (None, Some (Panic "nil pointer dereference"), r', set_bufr (newConn "a=1") [], emptyFS).
Proof.
  intros h.
  destruct (FormFile_urlencoded_panics (fun _ => 512) "POST" "HTTP/1.1" h 3
              (newConn "a=1") emptyFS "upload") as (r' & H1 & _).
  - intros _. lia.
  - split; [by left|]. repeat split; discriminate.
  - reflexivity.
  - simpl. lia.
  - exists r'. exact H1.
Defined.

(** ** Multipart forms of a request *)

Lemma Trim_id c s : c ∉ s -> Strings.Trim s c = s.
Proof.
  intros H. unfold Strings.Trim.
  rewrite (trimLeftByte_id c s H), trimLeftByte_id by (by apply not_elem_of_rev).
  apply rev_involutive.
Qed.

Lemma parseContentType_boundary (m p : bytes) h bd bv :
  Header.Get h "Content-Type" = "multipart/form-data; boundary=" ++ bv ->
  "="%char ∉ bv ->
  parseContentType (mkRequest m p h bd [] [] None None false None)
  = mkRequest m p h bd "multipart/form-data" (Strings.Trim bv DQUOTE) None None false None.
Proof.
  intros Hct Hbv. unfold parseContentType. cbn [r_Header]. rewrite Hct.
  change ("multipart/form-data; boundary=" ++ bv)
    with ("multipart/form-data" ++ ";"%char :: " boundary" ++ "="%char :: bv).
  rewrite IndexByte_app by (by apply not_elem_of_literal).
  rewrite length_app. cbn [length list_ascii_of_string app].
  destruct (Nat.eqb_spec 19 (19 + S (S (S (S (S (S (S (S (S (S (S (length bv))))))))))) - 1))
    as [?|_]; [lia|].
  change (drop 20 ?l) with (drop 20 l).
  cbn [drop app list_ascii_of_string].
  change (" "%char :: "b"%char :: "o"%char :: "u"%char :: "n"%char :: "d"%char :: "a"%char
          :: "r"%char :: "y"%char :: "="%char :: bv)
    with ((" boundary" : bytes) ++ "="%char :: bv).
  rewrite Split_app_sep by (by apply not_elem_of_literal).
  rewrite Split_none by done.
  rewrite bool_decide_eq_true_2 by reflexivity. cbn [negb take].
  reflexivity.
Qed.

Section MultipartRequest.

Context (cap : nat -> nat) (Hcap : forall i, 0 < cap i).

Lemma parseForm_multipart (m p : bytes) h b data rest c fs :
  (m = "POST" \/ m = "PUT") -> b <> [] ->
  bufr c = data ++ rest ->
  parseForm cap
    (mkRequest m p h (limitReader (Z.of_nat (length data))) "multipart/form-data" b
       None None false None) c fs
  = parseMultipartForm cap
      (mkRequest m p h (limitReader (Z.of_nat (length data))) "multipart/form-data" b
         None None true None) c fs
    /\ parseMultipartForm cap
         (mkRequest m p h (limitReader (Z.of_nat (length data))) "multipart/form-data" b
            None None true None) c fs
       = let res := ReadForm cap (NewMultipartReader data b) fs in
         let r := mkRequest m p h (limitReader 0) "multipart/form-data" b None None true None in
         match rf_mf res with
         | None =>
             (Some (Panic "nil pointer dereference"), r, set_bufr c rest, rf_fs res)
         | Some mf =>
             (rf_err res,
              mkRequest m p h (limitReader 0) "multipart/form-data" b (Some (Value mf))
                (Some mf) true None,
              set_bufr c rest, rf_fs res)
         end.
Proof.
  intros Hm Hb Hc. split.
  - unfold parseForm, noBodyMethod. unfold set_forms.
    cbn [Method contentType r_Header Proto Body boundary postForm multipartForm
         haveParsedForm parseFormErr].
    assert (Hnb : negb (bool_decide (m = "POST")) && negb (bool_decide (m = "PUT")) = false).
    { destruct Hm as [->| ->]; [done|]. by rewrite andb_false_r. }
    rewrite Hnb. rewrite bool_decide_eq_false_2 by discriminate.
    by rewrite bool_decide_eq_true_2 by done.
  - unfold parseMultipartForm. cbn [boundary Body].
    rewrite bool_decide_eq_false_2 by done.
    rewrite (limitReader_ReadAll cap Hcap); cycle 1.
    { rewrite Hc, length_app. lia. }
    { unfold readFuel. rewrite Hc, length_app. lia. }
    rewrite Hc, take_app_length, drop_app_length.
    unfold set_Body, set_forms.
    cbn [Method contentType r_Header Proto Body boundary postForm multipartForm
         haveParsedForm parseFormErr].
    reflexivity.
Qed.

End MultipartRequest.

(** X8: a POST or PUT request with the content type multipart/form-data and
    a boundary parameter, whose body of Content-Length bytes is a well-formed
    form within the ceilings, yields that form on the first call of
    [MultipartForm]; the bytes after the body stay in the reader.  After that
    [PostForm] answers with the text values and [FormFile] with the files of
    the form, without reading, and a name that has no file gives the error
    "http: miss multipart file". *)
Theorem MultipartForm_of_request (cap : nat -> nat) (m p : bytes) (h : Header.t)
    (bv b : bytes) (fps : list FormPart) (c : conn) (rest : bytes) (fs : FS)
    (Hcap : forall i, 0 < cap i)
    (Hb : wellFormedBoundary b) (Hne : b <> [])
    (Hbv : "="%char ∉ bv) (Hq : Strings.Trim bv DQUOTE = b)
    (Hbody : sizedBody m h (length (encodeForm b fps)))
    (Hct : Header.Get h "Content-Type" = "multipart/form-data; boundary=" ++ bv)
    (Hc : bufr c = encodeForm b fps ++ rest)
    (Hwf : Forall (wellFormedPart b) fps)
    (Htext : (textSize fps <= 10 * 2 ^ 20)%Z) (Hfile : (fileSize fps <= 30 * 2 ^ 20)%Z) :
  let r := parseContentType (setupBody (newRequest m p h)) in
  exists r',
    Request_MultipartForm cap r c fs = (Some (formOf fps), None, r', set_bufr c rest, fs)
    /\ (forall name c' fs',
          Request_PostForm cap name r' c' fs'
          = (default [] (Value (formOf fps) !! name), r', c', fs'))
    /\ (forall key c' fs',
          Request_FormFile cap key r' c' fs'
          = (File (formOf fps) !! key,
             match File (formOf fps) !! key with
             | Some _ => None
             | None => Some (Err "http: miss multipart file")
             end,
             r', c', fs')).
Proof.
  intros r. unfold r. rewrite (setupBody_sized m p h _ Hbody).
  rewrite (parseContentType_boundary m p h _ bv Hct Hbv), Hq.
  destruct (parseForm_multipart cap Hcap m p h b (encodeForm b fps) rest c fs
              ltac:(apply Hbody) Hne Hc) as [E1 E2].
  destruct (ReadForm_encodeForm cap Hcap b Hb fps fs Hwf Htext Hfile) as (cur & mr & E3).
  rewrite E3 in E2. cbn [rf_mf rf_err rf_fs] in E2. cbn zeta in E2.
  eexists. split; [|split].
  - unfold Request_MultipartForm. cbn [haveParsedForm negb]. rewrite E1, E2.
    cbn [multipartForm parseFormErr]. reflexivity.
  - intros name c' fs'. reflexivity.
  - intros key c' fs'. unfold Request_FormFile, Request_MultipartForm.
    cbn [haveParsedForm negb multipartForm parseFormErr].
    by destruct (File (formOf fps) !! key).
Qed.

Lemma MultipartForm_of_request_witness :
  let h : Header.t :=
    [("Content-Type" : bytes, ["multipart/form-data; boundary=XX" : bytes]);
     ("Content-Length" : bytes, ["145" : bytes])] in
  exists r',
    Request_MultipartForm (fun _ => 512)
      (parseContentType (setupBody (newRequest "POST" "HTTP/1.1" h)))
      (newConn (encodeForm "XX" exampleParts)) emptyFS
    = (Some (formOf exampleParts), None, r',
       set_bufr (newConn (encodeForm "XX" exampleParts)) [], emptyFS).
Proof.
  intros h.
  destruct (MultipartForm_of_request (fun _ => 512) "POST" "HTTP/1.1" h "XX" "XX"
              exampleParts (newConn (encodeForm "XX" exampleParts)) [] emptyFS)
    as (r' & H1 & _).
  - intros _. lia.
  - split; [by apply not_elem_of_literal | simpl; lia].
  - discriminate.
  - by apply not_elem_of_literal.
  - reflexivity.
  - split; [by left|]. repeat split; discriminate.
  - reflexivity.
  - cbn [newConn bufr]. by rewrite app_nil_r.
  - repeat constructor; try discriminate; try (by apply not_elem_of_literal);
      try (simpl; lia); reflexivity.
  - vm_compute. discriminate.
  - vm_compute. discriminate.
  - exists r'. exact H1.
Defined.

(** ** The ceilings of the aggregation *)

Lemma tailForm_app b fp fps tail :
  tailForm b ((fp :: fps) ++ tail)
  = CRLF ++ "Content-Disposition: " ++ contentDisposition fp ++ CRLF
    ++ CRLF ++ fp_body fp ++ CRLF ++ encodeForm b (fps ++ tail).
Proof. reflexivity. Qed.

Lemma textSize_app l1 l2 : textSize (l1 ++ l2) = (textSize l1 + textSize l2)%Z.
Proof.
  induction l1 as [|fp l1 IH]; [done|]. cbn [app textSize foldr] in *.
  fold (textSize (l1 ++ l2)). fold (textSize l1). case_bool_decide; lia.
Qed.

Lemma fileSize_app l1 l2 : fileSize (l1 ++ l2) = (fileSize l1 + fileSize l2)%Z.
Proof.
  induction l1 as [|fp l1 IH]; [done|]. cbn [app fileSize foldr] in *.
  fold (fileSize (l1 ++ l2)). fold (fileSize l1). case_bool_decide; lia.
Qed.

Section Ceilings.

Context (cap : nat -> nat) (Hcap : forall i, 0 < cap i).
Context (b : bytes) (Hb : wellFormedBoundary b).

(** The parts [fps1], which fit, are taken into the form, whatever follows
    them. *)
Lemma ReadForm_loop_prefix fps1 : forall fuel nf fm mf cur mr fs tail,
  Forall (wellFormedPart b) fps1 ->
  delimsOf b mr ->
  atDelim b cur mr (tailForm b (fps1 ++ tail)) ->
  (textSize fps1 <= nf)%Z -> (fileSize fps1 <= fm)%Z ->
  exists cur' mr',
    delimsOf b mr' /\ atDelim b cur' mr' (tailForm b tail)
    /\ ReadForm_loop cap (length fps1 + fuel) nf fm mf cur mr fs
       = ReadForm_loop cap fuel (nf - textSize fps1) (fm - fileSize fps1)
           (foldl addPart mf fps1) cur' mr' fs.
Proof.
  induction fps1 as [|fp fps1 IH]; intros fuel nf fm mf cur mr fs tail Hwf HD Hat Hnf Hfm.
  - exists cur, mr. split; [done|]. split; [done|].
    cbn [length Nat.add textSize fileSize foldr foldl]. by rewrite !Z.sub_0_r.
  - apply Forall_cons in Hwf as [Hfp Hwf].
    cbn [textSize fileSize foldr] in Hnf, Hfm. fold (textSize fps1) in Hnf.
    fold (fileSize fps1) in Hfm.
    pose proof (textSize_nonneg fps1). pose proof (fileSize_nonneg fps1).
    destruct (ReadForm_loop_fits cap Hcap b Hb (length fps1 + fuel) nf fm mf cur mr fs fp
                (fps1 ++ tail) Hfp)
      as (p' & mr' & HD' & Hat' & E); [case_bool_decide; lia | done | done |].
    cbn [length Nat.add]. rewrite E.
    destruct (IH fuel
                (if bool_decide (fp_fileName fp = []) then nf - Z.of_nat (length (fp_body fp))
                 else nf)%Z
                (if bool_decide (fp_fileName fp = []) then fm
                 else fm - Z.of_nat (length (fp_body fp)))%Z
                (addPart mf fp) (Some p') mr' fs tail Hwf HD' Hat')
      as (cur'' & mr'' & HD'' & Hat'' & E'); [case_bool_decide; lia | case_bool_decide; lia |].
    exists cur'', mr''. split; [done|]. split; [done|]. rewrite E'.
    cbn [foldl textSize fileSize foldr]. fold (textSize fps1). fold (fileSize fps1).
    f_equal; case_bool_decide; lia.
Qed.

Lemma ReadForm_start fps fs :
  let mr := NewMultipartReader (encodeForm b fps) b in
  delimsOf b mr /\ atDelim b None mr (tailForm b fps)
  /\ ReadForm cap mr fs
     = ReadForm_loop cap (S (length (encodeForm b fps))) (10 * 2 ^ 20) (30 * 2 ^ 20)
         emptyForm None mr fs.
Proof.
  intros mr. subst mr. destruct (NewMultipartReader_delims (encodeForm b fps) b) as [HD Hs].
  split; [done|]. split.
  - left. split; [done|]. by rewrite Hs, encodeForm_tail.
  - unfold ReadForm. by rewrite Hs.
Qed.

Lemma ReadForm_text_over fps1 fp fps2 fs :
  Forall (wellFormedPart b) (fps1 ++ [fp]) ->
  (textSize fps1 <= 10 * 2 ^ 20)%Z -> (fileSize fps1 <= 30 * 2 ^ 20)%Z ->
  fp_fileName fp = [] ->
  (10 * 2 ^ 20 < textSize fps1 + Z.of_nat (length (fp_body fp)))%Z ->
  exists cur mr,
    ReadForm cap (NewMultipartReader (encodeForm b (fps1 ++ fp :: fps2)) b) fs
    = mkReadFormResult None (Some (Err "multipart: message too large")) cur mr fs.
Proof.
  intros Hwf Ht Hf Hfn Hover.
  apply Forall_app in Hwf as [Hwf1 [Hfp _]%Forall_cons].
  destruct (ReadForm_start (fps1 ++ fp :: fps2) fs) as (HD & Hat & ->).
  pose proof (encodeForm_length b (fps1 ++ fp :: fps2)) as Hlen.
  rewrite length_app in Hlen. cbn [length] in Hlen.
  set (F := length (encodeForm b (fps1 ++ fp :: fps2)) - length fps1).
  replace (S (length (encodeForm b (fps1 ++ fp :: fps2)))) with (length fps1 + S F)
    by (unfold F; lia).
  destruct (ReadForm_loop_prefix fps1 (S F) _ _ emptyForm None _ fs (fp :: fps2)
              Hwf1 HD Hat Ht Hf) as (cur' & mr' & HD' & Hat' & ->).
  pose proof (textSize_nonneg fps1).
  apply (ReadForm_loop_text_over cap Hcap b Hb F _ _ _ cur' mr' fs fp fps2); try done. lia.
Qed.

(** The parts [fps1], whose text values fit, are passed, whatever their
    files and whatever follows them: a file over the budget that is left goes
    to disk. *)
Lemma ReadForm_loop_pass fps1 : forall fuel nf fm mf cur mr fs tail,
  Forall (wellFormedPart b) fps1 ->
  delimsOf b mr ->
  atDelim b cur mr (tailForm b (fps1 ++ tail)) ->
  (textSize fps1 <= nf)%Z -> (0 <= fm)%Z ->
  exists fm' mf' cur' mr' fs',
    (0 <= fm')%Z /\ delimsOf b mr' /\ atDelim b cur' mr' (tailForm b tail)
    /\ ReadForm_loop cap (length fps1 + fuel) nf fm mf cur mr fs
       = ReadForm_loop cap fuel (nf - textSize fps1) fm' mf' cur' mr' fs'.
Proof.
  induction fps1 as [|fp fps1 IH]; intros fuel nf fm mf cur mr fs tail Hwf HD Hat Hnf Hfm.
  - exists fm, mf, cur, mr, fs. split; [done|]. split; [done|]. split; [done|].
    cbn [length Nat.add textSize foldr]. by rewrite Z.sub_0_r.
  - apply Forall_cons in Hwf as [Hfp Hwf].
    cbn [textSize foldr] in Hnf. fold (textSize fps1) in Hnf.
    pose proof (textSize_nonneg fps1).
    cbn [length Nat.add].
    assert (Hstep : exists nf1 fm1 mf1 p1 mr1 fs1,
               (0 <= fm1)%Z /\ (textSize fps1 <= nf1)%Z
               /\ (nf1 - textSize fps1 = nf - textSize (fp :: fps1))%Z
               /\ delimsOf b mr1 /\ atDelim b (Some p1) mr1 (tailForm b (fps1 ++ tail))
               /\ ReadForm_loop cap (S (length fps1 + fuel)) nf fm mf cur mr fs
                  = ReadForm_loop cap (length fps1 + fuel) nf1 fm1 mf1 (Some p1) mr1 fs1).
    { cbn [textSize foldr]. fold (textSize fps1).
      destruct (decide (fp_fileName fp = [])) as [Hfn|Hfn].
      - rewrite (bool_decide_eq_true_2 _ Hfn) in Hnf |- *.
        destruct (ReadForm_loop_fits cap Hcap b Hb (length fps1 + fuel) nf fm mf cur mr fs fp
                    (fps1 ++ tail) Hfp)
          as (p' & mr' & HD' & Hat' & E);
          [rewrite (bool_decide_eq_true_2 _ Hfn); lia | done | done |].
        rewrite (bool_decide_eq_true_2 _ Hfn) in E.
        eexists (nf - Z.of_nat (length (fp_body fp)))%Z, fm, _, p', mr', _.
        split; [lia|]. split; [lia|]. split; [lia|].
        split; [exact HD'|]. split; [exact Hat'|exact E].
      - rewrite (bool_decide_eq_false_2 _ Hfn) in Hnf |- *.
        destruct (Z.le_gt_cases (Z.of_nat (length (fp_body fp))) fm) as [Hle|Hgt].
        + destruct (ReadForm_loop_fits cap Hcap b Hb (length fps1 + fuel) nf fm mf cur mr fs fp
                      (fps1 ++ tail) Hfp)
            as (p' & mr' & HD' & Hat' & E);
            [rewrite (bool_decide_eq_false_2 _ Hfn); lia | done | done |].
          rewrite (bool_decide_eq_false_2 _ Hfn) in E.
          eexists nf, (fm - Z.of_nat (length (fp_body fp)))%Z, _, p', mr', _.
          split; [lia|]. split; [lia|]. split; [lia|].
          split; [exact HD'|]. split; [exact Hat'|exact E].
        + destruct (ReadForm_loop_spill cap Hcap b Hb (length fps1 + fuel) nf fm mf cur mr fs fp
                      (fps1 ++ tail) Hfp Hfn ltac:(lia) HD Hat)
            as (p' & mr' & HD' & Hat' & E).
          eexists nf, fm, _, p', mr', _.
          split; [lia|]. split; [lia|]. split; [lia|].
          split; [exact HD'|]. split; [exact Hat'|exact E]. }
    destruct Hstep as (nf1 & fm1 & mf1 & p1 & mr1 & fs1 & H1 & H2 & H3 & HD1 & Hat1 & ->).
    destruct (IH fuel nf1 fm1 mf1 (Some p1) mr1 fs1 tail Hwf HD1 Hat1 H2 H1)
      as (fm' & mf' & cur' & mr' & fs' & G1 & G2 & G3 & ->).
    exists fm', mf', cur', mr', fs'. rewrite H3. done.
Qed.

(** Text values over 10 MiB in total end the aggregation, whatever the files
    before them. *)
Lemma ReadForm_text_over_any fps1 fp fps2 fs :
  Forall (wellFormedPart b) (fps1 ++ [fp]) ->
  (textSize fps1 <= 10 * 2 ^ 20)%Z ->
  fp_fileName fp = [] ->
  (10 * 2 ^ 20 < textSize fps1 + Z.of_nat (length (fp_body fp)))%Z ->
  exists cur mr fs',
    ReadForm cap (NewMultipartReader (encodeForm b (fps1 ++ fp :: fps2)) b) fs
    = mkReadFormResult None (Some (Err "multipart: message too large")) cur mr fs'.
Proof.
  intros Hwf Ht Hfn Hover.
  apply Forall_app in Hwf as [Hwf1 [Hfp _]%Forall_cons].
  destruct (ReadForm_start (fps1 ++ fp :: fps2) fs) as (HD & Hat & ->).
  pose proof (encodeForm_length b (fps1 ++ fp :: fps2)) as Hlen.
  rewrite length_app in Hlen. cbn [length] in Hlen.
  set (F := length (encodeForm b (fps1 ++ fp :: fps2)) - length fps1).
  replace (S (length (encodeForm b (fps1 ++ fp :: fps2)))) with (length fps1 + S F)
    by (unfold F; lia).
  destruct (ReadForm_loop_pass fps1 (S F) _ (30 * 2 ^ 20)%Z emptyForm None _ fs (fp :: fps2)
              Hwf1 HD Hat Ht ltac:(lia))
    as (fm' & mf' & cur' & mr' & fs' & _ & HD' & Hat' & ->).
  pose proof (textSize_nonneg fps1).
  destruct (ReadForm_loop_text_over cap Hcap b Hb F (10 * 2 ^ 20 - textSize fps1) fm' mf'
              cur' mr' fs' fp fps2 Hfp Hfn ltac:(lia) HD' Hat') as (cur2 & mr2 & ->).
  by eexists _, _, _.
Qed.

Lemma ReadForm_spill fps1 fp fps2 fs :
  Forall (wellFormedPart b) (fps1 ++ fp :: fps2) ->
  (textSize (fps1 ++ fps2) <= 10 * 2 ^ 20)%Z -> (fileSize (fps1 ++ fps2) <= 30 * 2 ^ 20)%Z ->
  fp_fileName fp <> [] ->
  (30 * 2 ^ 20 < fileSize fps1 + Z.of_nat (length (fp_body fp)))%Z ->
  Forall (fun q => fp_name q <> fp_name fp) fps1 ->
  exists cur mr,
    ReadForm cap (NewMultipartReader (encodeForm b (fps1 ++ fp :: fps2)) b) fs
    = mkReadFormResult
        (Some (foldl addPart
                 (mkMultipartForm (Value (formOf fps1))
                    (<[fp_name fp :=
                         mkFileHeader (fp_fileName fp) (partHeader fp)
                           (Z.of_nat (length (fp_body fp))) [] (tmpName (created fs))]>
                       (File (formOf fps1))))
                 fps2))
        None cur mr
        (writeFile (tmpName (created fs)) (fp_body fp) (CreateTemp fs).2).
Proof.
  intros Hwf Ht Hf Hfn Hover Hnames.
  apply Forall_app in Hwf as [Hwf1 [Hfp Hwf2]%Forall_cons].
  rewrite textSize_app in Ht. rewrite fileSize_app in Hf.
  pose proof (textSize_nonneg fps1). pose proof (fileSize_nonneg fps1).
  pose proof (textSize_nonneg fps2). pose proof (fileSize_nonneg fps2).
  destruct (ReadForm_start (fps1 ++ fp :: fps2) fs) as (HD & Hat & ->).
  pose proof (encodeForm_length b (fps1 ++ fp :: fps2)) as Hlen.
  rewrite length_app in Hlen. cbn [length] in Hlen.
  set (F := length (encodeForm b (fps1 ++ fp :: fps2)) - length fps1 - 1).
  replace (S (length (encodeForm b (fps1 ++ fp :: fps2)))) with (length fps1 + S (S F))
    by (unfold F; lia).
  destruct (ReadForm_loop_prefix fps1 (S (S F)) (10 * 2 ^ 20) (30 * 2 ^ 20) emptyForm None _
              fs (fp :: fps2) Hwf1 HD Hat ltac:(lia) ltac:(lia))
    as (cur1 & mr1 & HD1 & Hat1 & ->).
  destruct (ReadForm_loop_spill cap Hcap b Hb (S F) (10 * 2 ^ 20 - textSize fps1)
              (30 * 2 ^ 20 - fileSize fps1) (foldl addPart emptyForm fps1) cur1 mr1 fs
              fp fps2 Hfp Hfn ltac:(lia) HD1 Hat1) as (p2 & mr2 & HD2 & Hat2 & ->).
  fold (formOf fps1).
  assert (Hnone : File (formOf fps1) !! fp_name fp = None).
  { unfold formOf.
    destruct (foldl_addPart_lookup (fp_name fp) fps1 emptyForm Hnames) as [_ ->].
    apply lookup_empty. }
  rewrite Hnone. cbn zeta.
  replace (S F) with (length fps2 + S (F - length fps2)) by (unfold F; lia).
  apply (ReadForm_loop_parts cap Hcap b Hb fps2); try done; lia.
Qed.

End Ceilings.

(** ** Cleaning up *)

Lemma RemoveAll_files mf fs :
  created (RemoveAll mf fs) = created fs
  /\ (forall k fh, File mf !! k = Some fh -> fh_tmpFile fh <> [] ->
        files (RemoveAll mf fs) !! fh_tmpFile fh = None)
  /\ (forall t,
        (forall k fh, File mf !! k = Some fh -> fh_tmpFile fh <> [] -> fh_tmpFile fh <> t) ->
        files (RemoveAll mf fs) !! t = files fs !! t).
Proof.
  unfold RemoveAll.
  apply (map_fold_weak_ind
           (fun r (m : gmap bytes FileHeader) =>
              created r = created fs
              /\ (forall k fh, m !! k = Some fh -> fh_tmpFile fh <> [] ->
                    files r !! fh_tmpFile fh = None)
              /\ (forall t,
                    (forall k fh, m !! k = Some fh -> fh_tmpFile fh <> [] ->
                                  fh_tmpFile fh <> t) ->
                    files r !! t = files fs !! t))).
  - split; [done|]. split; [intros k fh H; by rewrite lookup_empty in H|done].
  - intros i x m r Hi (IH1 & IH2 & IH3). split; [|split].
    + by case_bool_decide.
    + intros k fh Hk Hne. apply lookup_insert_Some in Hk as [[-> ->]|[Hik Hk]].
      * rewrite bool_decide_eq_false_2 by done. apply lookup_delete_eq.
      * specialize (IH2 k fh Hk Hne). case_bool_decide; [done|].
        cbn [Remove files]. rewrite lookup_delete. by case_decide.
    + intros t Ht.
      assert (Hm : forall k fh, m !! k = Some fh -> fh_tmpFile fh <> [] -> fh_tmpFile fh <> t).
      { intros k fh Hk. apply (Ht k). rewrite lookup_insert_ne; [done|]. by intros ->; rewrite Hi in Hk. }
      specialize (IH3 t Hm). case_bool_decide as Hx; [done|].
      cbn [Remove files]. rewrite lookup_delete_ne; [done|].
      apply (Ht i x); [apply lookup_insert_eq|done].
Qed.

(** Facts about the large content of the examples *)

Lemma bigFile_CR : CR ∉ bigFile.
Proof. intros H. apply elem_of_replicate_inv in H. discriminate H. Qed.

Lemma bigFile_length : Z.of_nat (length bigFile) = (30 * 2 ^ 20 + 1)%Z.
Proof. unfold bigFile. rewrite length_replicate. lia. Qed.

Lemma wellFormedPart_big (name fn big : bytes) :
  name <> [] -> nameOK name -> nameOK fn -> length name + length fn <= 1024 ->
  CR ∉ big ->
  wellFormedPart "XX" (mkFormPart name fn big).
Proof.
  intros H1 H2 H3 H4 H5. split; [done|]. split; [done|]. split; [done|]. split; [done|].
  exact (Index_absent_first CR (LF :: list_ascii_of_string "--XX") big H5).
Qed.

Lemma nameOK_literal (s : bytes) :
  Strings.IndexByte s LF = None -> Strings.IndexByte s ";" = None ->
  Strings.IndexByte s "=" = None -> Strings.IndexByte s DQUOTE = None ->
  nameOK s.
Proof. intros. repeat split; by apply not_elem_of_literal. Qed.

Lemma wellFormedPart_bigText (big : bytes) :
  CR ∉ big -> wellFormedPart "XX" (mkFormPart "a" [] big).
Proof.
  intros H. apply wellFormedPart_big; [discriminate| | |simpl; lia|done];
    by apply nameOK_literal.
Qed.

Lemma wellFormedPart_bigUpload (big : bytes) :
  CR ∉ big -> wellFormedPart "XX" (mkFormPart "f" "a.bin" big).
Proof.
  intros H. apply wellFormedPart_big; [discriminate| | |simpl; lia|done];
    by apply nameOK_literal.
Qed.

Lemma wellFormedBoundary_XX : wellFormedBoundary "XX".
Proof. split; [by apply not_elem_of_literal | simpl; lia]. Qed.

(** X9: when the text values of a form of well-formed parts pass 10 MiB in
    total, [ReadForm] stops at the text part that passes the mark and returns
    no form and the error "multipart: message too large", whatever files
    came before and whatever parts follow.  When the files before that part
    total at most 30 MiB, none of them went to disk, and the file system is
    as it was: no temporary file has been created. *)
Theorem ReadForm_text_ceiling (cap : nat -> nat) (b : bytes)
    (fps1 : list FormPart) (fp : FormPart) (fps2 : list FormPart) (fs : FS)
    (Hcap : forall i, 0 < cap i) (Hb : wellFormedBoundary b)
    (Hwf : Forall (wellFormedPart b) (fps1 ++ [fp]))
    (Ht : (textSize fps1 <= 10 * 2 ^ 20)%Z)
    (Hfn : fp_fileName fp = [])
    (Hover : (10 * 2 ^ 20 < textSize fps1 + Z.of_nat (length (fp_body fp)))%Z) :
  (exists cur mr fs',
     ReadForm cap (NewMultipartReader (encodeForm b (fps1 ++ fp :: fps2)) b) fs
     = mkReadFormResult None (Some (Err "multipart: message too large")) cur mr fs')
  /\ ((fileSize fps1 <= 30 * 2 ^ 20)%Z ->
      exists cur mr,
        ReadForm cap (NewMultipartReader (encodeForm b (fps1 ++ fp :: fps2)) b) fs
        = mkReadFormResult None (Some (Err "multipart: message too large")) cur mr fs).
Proof.
  split; [by apply ReadForm_text_over_any|].
  intros Hf. by apply ReadForm_text_over.
Qed.

Lemma ReadForm_text_ceiling_witness :
  exists cur mr,
    ReadForm (fun _ => 512)
      (NewMultipartReader (encodeForm "XX" ([] ++ mkFormPart "a" [] bigFile :: [])) "XX") emptyFS
    = mkReadFormResult None (Some (Err "multipart: message too large")) cur mr emptyFS.
Proof.
  refine (proj2 (ReadForm_text_ceiling (fun _ => 512) "XX" [] (mkFormPart "a" [] bigFile) []
                   emptyFS _ _ _ _ _ _) _).
  - intros _. lia.
  - exact wellFormedBoundary_XX.
  - apply Forall_cons_2; [|apply Forall_nil_2].
    exact (wellFormedPart_bigText bigFile bigFile_CR).
  - cbn [textSize foldr]. lia.
  - reflexivity.
  - cbn [textSize foldr fp_body]. rewrite bigFile_length. lia.
  - cbn [fileSize foldr]. lia.
Defined.

(** X10: a file whose content passes what is left of the 30 MiB kept in
    memory for files is written to a new temporary file.  The entry of its
    name in the form has the file name and the size of the part and no
    content in memory; opening it gives the content of the part byte for
    byte; and the cleanup of the form removes the temporary file. *)
Theorem ReadForm_spills_large_file (cap : nat -> nat) (b : bytes)
    (fps1 : list FormPart) (fp : FormPart) (fps2 : list FormPart) (fs : FS)
    (Hcap : forall i, 0 < cap i) (Hb : wellFormedBoundary b)
    (Hwf : Forall (wellFormedPart b) (fps1 ++ fp :: fps2))
    (Ht : (textSize (fps1 ++ fps2) <= 10 * 2 ^ 20)%Z)
    (Hf : (fileSize (fps1 ++ fps2) <= 30 * 2 ^ 20)%Z)
    (Hfn : fp_fileName fp <> [])
    (Hover : (30 * 2 ^ 20 < fileSize fps1 + Z.of_nat (length (fp_body fp)))%Z)
    (H1 : Forall (fun q => fp_name q <> fp_name fp) fps1)
    (H2 : Forall (fun q => fp_name q <> fp_name fp) fps2) :
  exists cur mr mf fs',
    ReadForm cap (NewMultipartReader (encodeForm b (fps1 ++ fp :: fps2)) b) fs
    = mkReadFormResult (Some mf) None cur mr fs'
    /\ File mf !! fp_name fp
       = Some (mkFileHeader (fp_fileName fp) (partHeader fp)
                 (Z.of_nat (length (fp_body fp))) [] (tmpName (created fs)))
    /\ files fs' = <[tmpName (created fs) := fp_body fp]> (files fs)
    /\ (forall fh, File mf !! fp_name fp = Some fh ->
                   FileHeader_content fh fs' = Some (fp_body fp))
    /\ files (RemoveAll mf fs') !! tmpName (created fs) = None.
Proof.
  destruct (ReadForm_spill cap Hcap b Hb fps1 fp fps2 fs Hwf Ht Hf Hfn Hover H1)
    as (cur & mr & E).
  eexists cur, mr, _, _. split; [exact E|].
  match goal with
  | |- File (foldl addPart ?m0 fps2) !! _ = _ /\ _ =>
      destruct (foldl_addPart_lookup (fp_name fp) fps2 m0 H2) as [_ HF]
  end.
  assert (Hl : forall m0 : gmap bytes FileHeader,
            <[fp_name fp :=
                mkFileHeader (fp_fileName fp) (partHeader fp)
                  (Z.of_nat (length (fp_body fp))) [] (tmpName (created fs))]> m0
            !! fp_name fp
            = Some (mkFileHeader (fp_fileName fp) (partHeader fp)
                      (Z.of_nat (length (fp_body fp))) [] (tmpName (created fs))))
    by (intros; apply lookup_insert_eq).
  cbn [File] in HF. rewrite Hl in HF.
  split; [exact HF|]. split.
  { cbn [writeFile CreateTemp files created snd]. apply insert_insert_eq. }
  split.
  - intros fh Hfh. rewrite HF in Hfh. injection Hfh as <-.
    unfold FileHeader_content. cbn [fh_tmpFile]. rewrite bool_decide_eq_false_2 by discriminate.
    cbn [writeFile files]. apply lookup_insert_eq.
  - match goal with
    | |- files (RemoveAll ?mf ?fs0) !! _ = None =>
        destruct (RemoveAll_files mf fs0) as (_ & R & _)
    end.
    apply (R _ _ HF). discriminate.
Qed.

Lemma ReadForm_spills_large_file_witness :
  exists cur mr mf fs',
    ReadForm (fun _ => 512)
      (NewMultipartReader
         (encodeForm "XX" ([] ++ mkFormPart "f" "a.bin" bigFile :: [mkFormPart "a" [] "1"]))
         "XX") emptyFS
    = mkReadFormResult (Some mf) None cur mr fs'
    /\ files fs' = <[tmpName 0 := bigFile]> ∅
    /\ files (RemoveAll mf fs') !! tmpName 0 = None.
Proof.
  destruct (ReadForm_spills_large_file (fun _ => 512) "XX" [] (mkFormPart "f" "a.bin" bigFile)
              [mkFormPart "a" [] "1"] emptyFS) as (cur & mr & mf & fs' & E & _ & F & _ & R).
  - intros _. lia.
  - exact wellFormedBoundary_XX.
  - apply Forall_cons_2.
    + exact (wellFormedPart_bigUpload bigFile bigFile_CR).
    + apply Forall_cons_2; [|apply Forall_nil_2].
      split; [discriminate|]. split; [by apply nameOK_literal|].
      split; [by apply nameOK_literal|]. split; [simpl; lia|reflexivity].
  - vm_compute. discriminate.
  - vm_compute. discriminate.
  - discriminate.
  - cbn [fileSize foldr fp_body]. rewrite bigFile_length. lia.
  - apply Forall_nil_2.
  - apply Forall_cons_2; [discriminate|apply Forall_nil_2].
  - exists cur, mr, mf, fs'. split; [exact E|]. split; [exact F|exact R].
Defined.

(** X11: the cleanup of a form removes the temporary file of every entry of
    the form that has one, and leaves every other file as it is. *)
Theorem RemoveAll_removes_tempfiles (mf : MultipartForm) (fs : FS) :
  (forall k fh, File mf !! k = Some fh -> fh_tmpFile fh <> [] ->
                files (RemoveAll mf fs) !! fh_tmpFile fh = None)
  /\ (forall t,
        (forall k fh, File mf !! k = Some fh -> fh_tmpFile fh <> [] -> fh_tmpFile fh <> t) ->
        files (RemoveAll mf fs) !! t = files fs !! t).
Proof. apply RemoveAll_files. Qed.

Lemma RemoveAll_removes_tempfiles_witness :
  let mf := mkMultipartForm ∅
              {[ ("f" : bytes) := mkFileHeader "a.bin" [] 3 [] (tmpName 0) ]} in
  let fs := mkFS (<[tmpName 1 := ("xyz" : bytes)]> {[ tmpName 0 := ("abc" : bytes) ]}) 2 in
  files (RemoveAll mf fs) !! tmpName 0 = None
  /\ files (RemoveAll mf fs) !! tmpName 1 = Some ("xyz" : bytes).
Proof.
  intros mf fs. destruct (RemoveAll_removes_tempfiles mf fs) as [H1 H2]. split.
  - apply (H1 "f" (mkFileHeader "a.bin" [] 3 [] (tmpName 0))); [reflexivity|discriminate].
  - rewrite H2; [reflexivity|].
    intros k fh Hk _. subst mf. cbn [File] in Hk.
    apply lookup_singleton_Some in Hk as [_ <-]. discriminate.
Defined.

Lemma encodeForm_bigText_length (big : bytes) :
  length (encodeForm "XX" ([] ++ mkFormPart "a" [] big :: [])) = 60 + length big.
Proof.
  cbn [app encodeForm fp_body]. unfold contentDisposition. cbn [fp_name fp_fileName].
  rewrite bool_decide_eq_true_2 by done. rewrite !length_app. simpl. lia.
Qed.

(** X12: a multipart request of well-formed parts whose text values pass
    10 MiB in total makes [MultipartForm] panic, whatever files came before
    the text part that passes the mark: [ReadForm] returns no form, and
    [parseMultipartForm] reads the text values of the form it did not get.
    When the files before that part total at most 30 MiB, no temporary file
    has been created by then. *)
Theorem MultipartForm_too_large_panics (cap : nat -> nat) (m p : bytes) (h : Header.t)
    (bv b : bytes) (fps1 : list FormPart) (fp : FormPart) (fps2 : list FormPart)
    (c : conn) (rest : bytes) (fs : FS)
    (Hcap : forall i, 0 < cap i)
    (Hb : wellFormedBoundary b) (Hne : b <> [])
    (Hbv : "="%char ∉ bv) (Hq : Strings.Trim bv DQUOTE = b)
    (Hbody : sizedBody m h (length (encodeForm b (fps1 ++ fp :: fps2))))
    (Hct : Header.Get h "Content-Type" = "multipart/form-data; boundary=" ++ bv)
    (Hc : bufr c = encodeForm b (fps1 ++ fp :: fps2) ++ rest)
    (Hwf : Forall (wellFormedPart b) (fps1 ++ [fp]))
    (Ht : (textSize fps1 <= 10 * 2 ^ 20)%Z)
    (Hfn : fp_fileName fp = [])
    (Hover : (10 * 2 ^ 20 < textSize fps1 + Z.of_nat (length (fp_body fp)))%Z) :
  let r := parseContentType (setupBody (newRequest m p h)) in
  exists r' c' fs',
    Request_MultipartForm cap r c fs
    = (None, Some (Panic "nil pointer dereference"), r', c', fs')
    /\ ((fileSize fps1 <= 30 * 2 ^ 20)%Z -> fs' = fs).
Proof.
  intros r. unfold r. rewrite (setupBody_sized m p h _ Hbody).
  rewrite (parseContentType_boundary m p h _ bv Hct Hbv), Hq.
  destruct (parseForm_multipart cap Hcap m p h b (encodeForm b (fps1 ++ fp :: fps2)) rest c fs
              ltac:(apply Hbody) Hne Hc) as [E1 E2].
  destruct (ReadForm_text_over_any cap Hcap b Hb fps1 fp fps2 fs Hwf Ht Hfn Hover)
    as (cur & mr & fs' & E3).
  rewrite E3 in E2. cbn [rf_mf rf_err rf_fs] in E2. cbn zeta in E2.
  eexists _, _, fs'. split.
  - unfold Request_MultipartForm. cbn [haveParsedForm negb]. rewrite E1, E2. reflexivity.
  - intros Hf.
    destruct (ReadForm_text_over cap Hcap b Hb fps1 fp fps2 fs Hwf Ht Hf Hfn Hover)
      as (cur0 & mr0 & E4).
    rewrite E4 in E3. by injection E3.
Qed.

Lemma MultipartForm_too_large_panics_witness :
  let h : Header.t :=
    [("Content-Type" : bytes, ["multipart/form-data; boundary=XX" : bytes]);
     ("Content-Length" : bytes, ["31457341" : bytes])] in
  let body := encodeForm "XX" ([] ++ mkFormPart "a" [] bigFile :: []) in
  exists r' c' fs',
    Request_MultipartForm (fun _ => 512)
      (parseContentType (setupBody (newRequest "POST" "HTTP/1.1" h)))
      (newConn (body ++ [])) emptyFS
    = (None, Some (Panic "nil pointer dereference"), r', c', fs')
    /\ ((fileSize [] <= 30 * 2 ^ 20)%Z -> fs' = emptyFS).
Proof.
  intros h body.
  apply (MultipartForm_too_large_panics (fun _ => 512) "POST" "HTTP/1.1" h "XX" "XX"
           [] (mkFormPart "a" [] bigFile) [] (newConn (body ++ [])) [] emptyFS).
  - intros _. lia.
  - exact wellFormedBoundary_XX.
  - discriminate.
  - by apply not_elem_of_literal.
  - reflexivity.
  - split; [by left|]. split; [discriminate|]. split; [discriminate|].
    split; [|discriminate].
    rewrite encodeForm_bigText_length, Nat2Z.inj_add, bigFile_length. reflexivity.
  - reflexivity.
  - reflexivity.
  - apply Forall_cons_2; [|apply Forall_nil_2].
    exact (wellFormedPart_bigText bigFile bigFile_CR).
  - cbn [textSize foldr]. lia.
  - reflexivity.
  - cbn [textSize foldr fp_body]. rewrite bigFile_length. lia.
Defined.

(** ** Chunk sizes *)

Lemma wrap64_small z : (0 <= z < 2 ^ 63)%Z -> wrap64 z = z.
Proof. intros H. unfold wrap64. rewrite Z.mod_small; lia. Qed.

Lemma chunkSize_loop_digit d v rest :
  (0 <= d < 16)%Z ->
  chunkSize_loop v (Strconv.hexDigit d :: rest) = chunkSize_loop (wrap64 (v * 16 + d)) rest.
Proof.
  intros Hd.
  assert (H : (d = 0 \/ d = 1 \/ d = 2 \/ d = 3 \/ d = 4 \/ d = 5 \/ d = 6 \/ d = 7 \/ d = 8
               \/ d = 9 \/ d = 10 \/ d = 11 \/ d = 12 \/ d = 13 \/ d = 14 \/ d = 15)%Z)
    by lia.
  assert (Hgoal : forall c : ascii, Strconv.hexDigit d = c ->
            (if inRange "a" "f" c then byteDiff c "a" + 10
             else if inRange "A" "F" c then byteDiff c "A" + 10
             else if inRange "0" "9" c then byteDiff c "0" else -1)%Z = d ->
            (inRange "a" "f" c || inRange "A" "F" c || inRange "0" "9" c) = true ->
            chunkSize_loop v (c :: rest) = chunkSize_loop (wrap64 (v * 16 + d)) rest).
  { intros c _ Hv Hr. cbn [chunkSize_loop].
    destruct (inRange "a" "f" c); [rewrite <- Hv; do 2 f_equal; lia|].
    destruct (inRange "A" "F" c); [rewrite <- Hv; do 2 f_equal; lia|].
    destruct (inRange "0" "9" c); [by rewrite <- Hv|done]. }
  repeat (destruct H as [->|H]; [by apply Hgoal|]). subst. by apply Hgoal.
Qed.

Lemma hexDigit_LF d : (0 <= d < 16)%Z -> Strconv.hexDigit d <> LF.
Proof.
  intros Hd.
  assert (H : (d = 0 \/ d = 1 \/ d = 2 \/ d = 3 \/ d = 4 \/ d = 5 \/ d = 6 \/ d = 7 \/ d = 8
               \/ d = 9 \/ d = 10 \/ d = 11 \/ d = 12 \/ d = 13 \/ d = 14 \/ d = 15)%Z)
    by lia.
  repeat (destruct H as [->|H]; [discriminate|]). subst. discriminate.
Qed.

Lemma hexDigits_S fuel n acc :
  Strconv.hexDigits (S fuel) n acc
  = if (n <? 16)%Z then Strconv.hexDigit n :: acc
    else Strconv.hexDigits fuel (n / 16) (Strconv.hexDigit (n mod 16) :: acc).
Proof. reflexivity. Qed.

Lemma hexDigits_spec fuel : forall n acc,
  (0 <= n < 16 ^ Z.of_nat (S fuel))%Z ->
  exists ds,
    Strconv.hexDigits (S fuel) n acc = ds ++ acc
    /\ ds <> [] /\ (LF ∉ ds) /\ length ds <= S fuel
    /\ forall v rest,
         (0 <= v)%Z -> (v * 16 ^ Z.of_nat (length ds) + n < 2 ^ 63)%Z ->
         chunkSize_loop v (ds ++ rest) = chunkSize_loop (v * 16 ^ Z.of_nat (length ds) + n) rest.
Proof.
  induction fuel as [|fuel IH]; intros n acc Hn.
  - change (16 ^ Z.of_nat 1)%Z with 16%Z in Hn.
    rewrite hexDigits_S. destruct (Z.ltb_spec n 16) as [_|?]; [|lia].
    exists [Strconv.hexDigit n]. split; [done|]. split; [done|].
    split; [apply not_elem_of_cons; split; [by apply not_eq_sym, hexDigit_LF|apply not_elem_of_nil]|].
    split; [done|]. intros v rest Hv Hr. cbn [app length] in *.
    change (16 ^ Z.of_nat 1)%Z with 16%Z in *.
    rewrite chunkSize_loop_digit by lia. by rewrite wrap64_small by lia.
  - rewrite hexDigits_S. destruct (Z.ltb_spec n 16) as [Hlt|Hge].
    + exists [Strconv.hexDigit n]. split; [done|]. split; [done|].
      split; [apply not_elem_of_cons; split; [by apply not_eq_sym, hexDigit_LF; lia|apply not_elem_of_nil]|].
      split; [simpl; lia|]. intros v rest Hv Hr. cbn [app length] in *.
      change (16 ^ Z.of_nat 1)%Z with 16%Z in *.
      rewrite chunkSize_loop_digit by lia. by rewrite wrap64_small by lia.
    + assert (Hq : (0 <= n / 16 < 16 ^ Z.of_nat (S fuel))%Z).
      { split; [apply Z.div_pos; lia|].
        apply Z.div_lt_upper_bound; [lia|].
        rewrite (Nat2Z.inj_succ (S fuel)), Z.pow_succ_r in Hn by lia. lia. }
      destruct (IH (n / 16)%Z (Strconv.hexDigit (n mod 16) :: acc) Hq)
        as (ds & E & Hne & HLF & Hlen & Hval).
      exists (ds ++ [Strconv.hexDigit (n mod 16)]).
      split; [by rewrite E, <- app_assoc|]. split; [by destruct ds|].
      pose proof (Z.mod_pos_bound n 16 ltac:(lia)) as Hr.
      split.
      { rewrite not_elem_of_app. split; [done|].
        apply not_elem_of_cons. split; [by apply not_eq_sym, hexDigit_LF|apply not_elem_of_nil]. }
      split; [rewrite length_app; simpl; lia|].
      intros v rest Hv Hrange. rewrite length_app in Hrange |- *. cbn [length] in Hrange |- *.
      replace (Z.of_nat (length ds + 1)) with (Z.succ (Z.of_nat (length ds)))
        in Hrange |- * by lia.
      rewrite Z.pow_succ_r in Hrange |- * by lia.
      set (X := (16 ^ Z.of_nat (length ds))%Z) in *.
      assert (HX : (0 < X)%Z) by (apply Z.pow_pos_nonneg; lia).
      pose proof (Z.div_mod n 16 ltac:(lia)) as Hdm.
      assert (HA : (0 <= v * X)%Z) by (apply Z.mul_nonneg_nonneg; lia).
      rewrite <- app_assoc. cbn [app].
      rewrite Hval by (fold X; lia). fold X.
      rewrite chunkSize_loop_digit by done.
      rewrite wrap64_small by lia. f_equal. lia.
Qed.

Lemma FormatHex_spec n :
  (0 <= n < 2 ^ 63)%Z ->
  (LF ∉ Strconv.FormatHex n) /\ length (Strconv.FormatHex n) <= 64
  /\ chunkSize_loop 0%Z (Strconv.FormatHex n) = (n, None).
Proof.
  intros Hn. unfold Strconv.FormatHex.
  assert (Hl : (0 <= Z.log2 n < 63)%Z).
  { split; [apply Z.log2_nonneg|].
    destruct (Z.eq_dec n 0%Z) as [->|?]; [done|]. apply Z.log2_lt_pow2; lia. }
  assert (Hb : (0 <= n < 16 ^ Z.of_nat (S (Z.to_nat (Z.log2 n))))%Z).
  { split; [lia|]. rewrite Nat2Z.inj_succ, Z2Nat.id by lia.
    destruct (Z.eq_dec n 0%Z) as [->|?]; [apply Z.pow_pos_nonneg; lia|].
    pose proof (Z.log2_spec n ltac:(lia)) as [_ H2].
    eapply Z.lt_le_trans; [exact H2|]. apply Z.pow_le_mono_l. lia. }
  destruct (hexDigits_spec _ n [] Hb) as (ds & E & Hne & HLF & Hlen & Hval).
  rewrite E, app_nil_r. split; [done|]. split; [lia|].
  specialize (Hval 0%Z [] ltac:(lia) ltac:(lia)). rewrite app_nil_r in Hval.
  rewrite Hval. reflexivity.
Qed.

Lemma getChunkSize_hex (n : Z) (t : bytes) (Hn : (0 <= n < 2 ^ 63)%Z) :
  getChunkSize (Strconv.FormatHex n ++ CRLF ++ t) = (n, None, t).
Proof.
  destruct (FormatHex_spec n Hn) as (HLF & Hlen & Hval).
  unfold getChunkSize. rewrite readLine_crlf; [|done|unfold bufSize; lia].
  by rewrite Hval.
Qed.

(** X13: the size line the chunk writer puts before a chunk, the length in
    lower-case hexadecimal followed by CRLF, is read back by [getChunkSize] as
    that length, and the bytes after the line stay in the reader. *)
Theorem getChunkSize_FormatHex (n : Z) (t : bytes) (Hn : (0 <= n < 2 ^ 63)%Z) :
  getChunkSize (Strconv.FormatHex n ++ CRLF ++ t) = (n, None, t).
Proof. by apply getChunkSize_hex. Qed.

Lemma getChunkSize_FormatHex_witness :
  getChunkSize ("1f4" ++ CRLF ++ "data") = (500%Z, None, "data" : bytes).
Proof. apply (getChunkSize_FormatHex 500 "data"). lia. Defined.

(** ** Chunked bodies read with wide slices *)

Lemma chunkReader_Read_frame k cw d rest :
  cr_n cw = 0%Z -> cr_done cw = false ->
  d <> [] -> length d < k -> (Z.of_nat (length d) < 2 ^ 63)%Z ->
  chunkReader_Read k cw (frame d ++ rest) = (d, None, mkChunkReader 0 false (CR, LF), rest).
Proof.
  intros Hn Hdone Hd Hk Hlen. destruct cw as [n dn crlf]. cbn [cr_n cr_done] in Hn, Hdone.
  subst n dn. unfold chunkReader_Read, frame. cbn [cr_n cr_done].
  cbn [Z.eqb]. rewrite <- !app_assoc.
  rewrite getChunkSize_hex by lia.
  unfold set_cr_n. cbn [cr_n cr_done cr_crlf].
  assert (Hpos : (0 < Z.of_nat (length d))%Z) by (destruct d; [done|simpl; lia]).
  destruct (Z.eqb_spec (Z.of_nat (length d)) 0) as [?|_]; [lia|].
  destruct (Z.leb_spec (Z.of_nat k) (Z.of_nat (length d))) as [?|_]; [lia|].
  destruct (Z.ltb_spec (Z.of_nat (length d)) 0) as [?|_]; [lia|].
  rewrite Nat2Z.id. unfold Bufio.ReadFull at 1.
  rewrite length_app. destruct (Nat.leb_spec (length d) (length d + length (CRLF ++ rest))); [|lia].
  rewrite take_app_length, drop_app_length.
  unfold chunkReader_discardCRLF. cbn [cr_crlf cr_n cr_done].
  unfold CRLF. cbn [app Bufio.ReadFull length Nat.leb take drop store2]. reflexivity.
Qed.

Lemma chunkReader_Read_last k cw rest :
  cr_n cw = 0%Z -> cr_done cw = false ->
  chunkReader_Read k cw ("0" ++ CRLF ++ CRLF ++ rest)
  = ([], None, mkChunkReader 0 true (CR, LF), rest).
Proof.
  intros Hn Hdone. destruct cw as [n dn crlf]. cbn [cr_n cr_done] in Hn, Hdone.
  subst n dn. unfold chunkReader_Read. cbn [cr_n cr_done Z.eqb].
  change (list_ascii_of_string "0") with (Strconv.FormatHex 0).
  rewrite getChunkSize_hex by lia.
  unfold set_cr_n. cbn [cr_n cr_done cr_crlf Z.eqb].
  unfold chunkReader_discardCRLF. cbn [cr_crlf cr_n cr_done].
  unfold CRLF. cbn [app Bufio.ReadFull length Nat.leb take drop store2]. reflexivity.
Qed.

Lemma body_ReadAll_chunks cap ds : forall i cw c rest,
  Forall (chunkOK cap) ds ->
  cr_n cw = 0%Z -> cr_done cw = false ->
  bufr c = encodeChunks ds ++ rest ->
  body_ReadAll cap (length ds + 2) i (chunkBody cw) c
  = (concat ds, None, chunkBody (mkChunkReader 0 true (CR, LF)), set_bufr c rest).
Proof.
  induction ds as [|d ds IH]; intros i cw c rest Hds Hn Hdone Hc.
  - cbn [length Nat.add]. rewrite body_ReadAll_S. cbn [body_Read]. rewrite Hc.
    unfold encodeChunks. cbn [map concat app]. rewrite <- !app_assoc.
    rewrite chunkReader_Read_last by done.
    rewrite body_ReadAll_S. cbn [body_Read chunkReader_Read cr_done]. reflexivity.
  - apply Forall_cons in Hds as [(Hd & Hcap & Hlen) Hds].
    cbn [length Nat.add]. rewrite body_ReadAll_S. cbn [body_Read]. rewrite Hc.
    unfold encodeChunks. cbn [map concat]. rewrite <- !app_assoc.
    rewrite chunkReader_Read_frame by done.
    rewrite (IH (S i) (mkChunkReader 0 false (CR, LF))
               (set_bufr c (concat (map frame ds) ++ "0" ++ CRLF ++ CRLF ++ rest)) rest);
      try done.
    unfold encodeChunks. cbn [set_bufr bufr]. by rewrite <- !app_assoc.
Qed.

(** X14: a chunked body, each chunk framed by its length in hexadecimal and
    CRLF before it and CRLF after it and the last chunk "0" CRLF CRLF at the
    end, is read back whole by the chunked reader when every slice offered to
    it is longer than every chunk: the reads yield the chunks in order, the
    end of the body is reported without an error, and the bytes after the
    last chunk stay in the connection's reader. *)
Theorem chunked_body_roundtrip_wide (cap : nat -> nat) (ds : list bytes)
    (c : conn) (rest : bytes)
    (Hds : Forall (chunkOK cap) ds)
    (Hc : bufr c = encodeChunks ds ++ rest) :
  body_ReadAll cap (length ds + 2) 0 (chunkBody newChunkReader) c
  = (concat ds, None, chunkBody (mkChunkReader 0 true (CR, LF)), set_bufr c rest).
Proof. by apply body_ReadAll_chunks. Qed.

Lemma chunked_body_roundtrip_wide_witness :
  body_ReadAll (fun _ => 512) 4 0 (chunkBody newChunkReader)
    (newConn (encodeChunks ["hello, " : bytes; "world" : bytes] ++ "GET / HTTP/1.1"))
  = ("hello, world" : bytes, None, chunkBody (mkChunkReader 0 true (CR, LF)),
     set_bufr (newConn (encodeChunks ["hello, " : bytes; "world" : bytes] ++ "GET / HTTP/1.1"))
       "GET / HTTP/1.1").
Proof.
  apply (chunked_body_roundtrip_wide (fun _ => 512) ["hello, " : bytes; "world" : bytes]
           (newConn (encodeChunks ["hello, " : bytes; "world" : bytes] ++ "GET / HTTP/1.1"))
           "GET / HTTP/1.1").
  - repeat (apply Forall_cons_2; [split; [discriminate|split; [intros _; simpl; lia|simpl; lia]]|]).
    apply Forall_nil_2.
  - reflexivity.
Defined.

(** X15: a write of no bytes is framed as "0" CRLF CRLF, which is the last
    chunk: the chunked reader ends the body there, and the chunks written
    after it stay in the connection's reader, where the next request is
    looked for. *)
Theorem empty_chunk_ends_body (cap : nat -> nat) (ds1 ds2 : list bytes)
    (c : conn) (rest : bytes)
    (Hds : Forall (chunkOK cap) ds1)
    (Hc : bufr c = encodeChunks (ds1 ++ [] :: ds2) ++ rest) :
  frame [] = "0" ++ CRLF ++ CRLF
  /\ body_ReadAll cap (length ds1 + 2) 0 (chunkBody newChunkReader) c
     = (concat ds1, None, chunkBody (mkChunkReader 0 true (CR, LF)),
        set_bufr c (encodeChunks ds2 ++ rest)).
Proof.
  split; [reflexivity|]. apply body_ReadAll_chunks; try done.
  rewrite Hc. unfold encodeChunks. rewrite map_app, concat_app. cbn [map concat].
  change (frame []) with ("0" ++ CRLF ++ CRLF : bytes).
  by rewrite <- !app_assoc.
Qed.

Lemma empty_chunk_ends_body_witness :
  body_ReadAll (fun _ => 512) 3 0 (chunkBody newChunkReader)
    (newConn (encodeChunks (["a" : bytes] ++ [] :: ["b" : bytes]) ++ []))
  = ("a" : bytes, None, chunkBody (mkChunkReader 0 true (CR, LF)),
     set_bufr (newConn (encodeChunks (["a" : bytes] ++ [] :: ["b" : bytes]) ++ []))
       (encodeChunks ["b" : bytes] ++ [])).
Proof.
  apply (empty_chunk_ends_body (fun _ => 512) ["a" : bytes] ["b" : bytes]
           (newConn (encodeChunks (["a" : bytes] ++ [] :: ["b" : bytes]) ++ [])) []).
  - apply Forall_cons_2; [|apply Forall_nil_2].
    split; [discriminate|split; [intros _; simpl; lia|simpl; lia]].
  - reflexivity.
Defined.

(** ** The chunk writer *)

Section WriterFits.

Context {S : Type} (get : S -> Bufio.Writer) (set : S -> Bufio.Writer -> S).
Context (sink : bytes -> S -> nat * option error * S).

Lemma Write_loop_fits fuel p nn s :
  Bufio.werr (get s) = None -> length (Bufio.wbuf (get s)) + length p <= bufSize ->
  Bufio.Write_loop get set sink fuel p nn s
  = (nn + length p, None, set s (Bufio.mkWriter (Bufio.wbuf (get s) ++ p) None)).
Proof.
  intros He Hl.
  assert (Hav : (Bufio.Available (get s) <? length p) = false).
  { apply Nat.ltb_ge. unfold Bufio.Available. lia. }
  destruct fuel; cbn [Bufio.Write_loop]; by rewrite He, Hav.
Qed.

Lemma WriteString_loop_fits fuel p nn s :
  Bufio.werr (get s) = None -> length (Bufio.wbuf (get s)) + length p <= bufSize ->
  Bufio.WriteString_loop get set sink fuel p nn s
  = (nn + length p, None, set s (Bufio.mkWriter (Bufio.wbuf (get s) ++ p) None)).
Proof.
  intros He Hl.
  assert (Hav : (Bufio.Available (get s) <? length p) = false).
  { apply Nat.ltb_ge. unfold Bufio.Available. lia. }
  destruct fuel; cbn [Bufio.WriteString_loop]; by rewrite He, Hav.
Qed.

End WriterFits.

(** ** Finalizing the header *)

Lemma Get_Set_eq h k v : Header.Get (Header.Set_ h k v) k = v.
Proof.
  unfold Header.Get. induction h as [|[k' vs] h IH]; cbn [Header.Set_ Header.values].
  - by rewrite bool_decide_eq_true_2.
  - case_bool_decide as E; cbn [Header.values].
    + by rewrite bool_decide_eq_true_2.
    + by rewrite (bool_decide_eq_false_2 _ E).
Qed.

Lemma Get_Set_ne h k v k' : k <> k' -> Header.Get (Header.Set_ h k v) k' = Header.Get h k'.
Proof.
  intros Hne. unfold Header.Get. induction h as [|[k0 vs] h IH]; cbn [Header.Set_ Header.values].
  - by rewrite bool_decide_eq_false_2.
  - case_bool_decide as E; cbn [Header.values].
    + subst k0. by rewrite !bool_decide_eq_false_2.
    + case_bool_decide; [done|exact IH].
Qed.

Section ChunkWriter.

Context (DetectContentType : bytes -> bytes) (statusText : Z -> bytes).

Lemma chunkWriter_Write_wrote fuel p w c :
  cw_wrote w = true ->
  Bufio.werr (resp_bufw w) = None ->
  length (Bufio.wbuf (resp_bufw w)) + length (frame p) <= bufSize ->
  chunkWriter_Write DetectContentType statusText (S fuel) p (w, c)
  = (length p, None,
     (set_resp_bufw w
        (Bufio.mkWriter
           (Bufio.wbuf (resp_bufw w) ++ (if chunking w then frame p else p)) None), c)).
Proof.
  intros Hw He Hl. cbn [chunkWriter_Write]. rewrite Hw.
  unfold frame in *. rewrite !length_app in Hl. cbn [length CRLF] in Hl.
  unfold Bufio.Write, Bufio.WriteString.
  destruct (chunking w) eqn:Hch.
  - rewrite Write_loop_fits; cycle 1.
    { done. }
    { unfold get_resp_bufw. cbn [fst]. rewrite length_app. cbn [length CRLF]. lia. }
    unfold put_resp_bufw, get_resp_bufw. cbn [fst snd].
    rewrite Write_loop_fits; cycle 1.
    { done. }
    { cbn [fst resp_bufw set_resp_bufw Bufio.wbuf]. rewrite !length_app. cbn [length CRLF]. lia. }
    cbn [fst snd resp_bufw set_resp_bufw Bufio.wbuf chunking]. rewrite Hch.
    rewrite WriteString_loop_fits; cycle 1.
    { done. }
    { cbn [fst resp_bufw set_resp_bufw Bufio.wbuf]. rewrite !length_app. cbn [length CRLF]. lia. }
    cbn [fst snd resp_bufw set_resp_bufw Bufio.wbuf]. unfold set_resp_bufw.
    cbn [wroteHeader header statusCode handlerDone cw_wrote resp_Proto closeAfterReply chunking].
    by rewrite <- !app_assoc.
  - rewrite Write_loop_fits; cycle 1.
    { done. }
    { unfold get_resp_bufw. cbn [fst]. lia. }
    unfold put_resp_bufw, get_resp_bufw. cbn [fst snd chunking set_resp_bufw]. by rewrite Hch.
Qed.

Lemma finalizeHeader_fields p w :
  let w' := finalizeHeader DetectContentType p w in
  wroteHeader w' = wroteHeader w /\ statusCode w' = statusCode w
  /\ handlerDone w' = handlerDone w /\ resp_bufw w' = resp_bufw w
  /\ cw_wrote w' = cw_wrote w /\ resp_Proto w' = resp_Proto w
  /\ closeAfterReply w' = closeAfterReply w.
Proof.
  unfold finalizeHeader. repeat (case_match; cbn); done.
Qed.

Lemma finalizeHeader_nonempty p w :
  Forall (fun kv : bytes * list bytes => kv.2 <> []) (header w) ->
  Forall (fun kv : bytes * list bytes => kv.2 <> [])
    (header (finalizeHeader DetectContentType p w)).
Proof.
  intros H. unfold finalizeHeader.
  repeat (case_match; cbn [header set_header set_chunking]);
    repeat apply Set_values_nonempty; done.
Qed.

Lemma chunkWriter_Write_first fuel p w c :
  cw_wrote w = false -> healthy c ->
  Forall (fun kv : bytes * list bytes => kv.2 <> []) (header w) ->
  Bufio.werr (resp_bufw w) = None ->
  length (Bufio.wbuf (resp_bufw w)) + length (frame p) <= bufSize ->
  let w1 := finalizeHeader DetectContentType p w in
  exists c',
    chunkWriter_Write DetectContentType statusText (S fuel) p (w, c)
    = (length p, None,
       (set_resp_bufw (set_cw_wrote w1 true)
          (Bufio.mkWriter
             (Bufio.wbuf (resp_bufw w) ++ (if chunking w1 then frame p else p)) None), c'))
    /\ healthy c' /\ bufr c' = bufr c
    /\ sent c' = sent c ++ headerBlock statusText w1.
Proof.
  intros Hw Hc Hh He Hl w1.
  destruct (finalizeHeader_fields p w) as (F1 & F2 & F3 & F4 & F5 & F6 & F7). fold w1 in F1, F2, F3, F4, F5, F6, F7.
  destruct (writeHeader_ok statusText w1 c Hc (finalizeHeader_nonempty p w Hh))
    as (c' & E & Hc' & Hr & Hs).
  exists c'. split; [|done].
  pose proof (chunkWriter_Write_wrote fuel p (set_cw_wrote w1 true) c') as Hstep.
  cbn [cw_wrote set_cw_wrote resp_bufw chunking] in Hstep. rewrite F4 in Hstep.
  rewrite <- Hstep by done.
  cbn [chunkWriter_Write]. rewrite Hw. fold w1. rewrite E. reflexivity.
Qed.

End ChunkWriter.

(** X16: a write to the chunk writer that fits in the buffer of [resp.bufw]
    is taken whole.  In chunked mode the bytes are put in the buffer framed by
    their length in hexadecimal and CRLF before them and CRLF after them,
    otherwise as they are.  The first write finalizes the header and sends the
    status line and the header block to the connection before that; a later
    write sends nothing to the connection. *)
Theorem chunkWriter_Write_frames (DetectContentType : bytes -> bytes) (statusText : Z -> bytes)
    (fuel : nat) (p : bytes) (w : response) (c : conn)
    (He : Bufio.werr (resp_bufw w) = None)
    (Hl : length (Bufio.wbuf (resp_bufw w)) + length (frame p) <= bufSize) :
  (cw_wrote w = true ->
   chunkWriter_Write DetectContentType statusText (S fuel) p (w, c)
   = (length p, None,
      (set_resp_bufw w
         (Bufio.mkWriter
            (Bufio.wbuf (resp_bufw w) ++ (if chunking w then frame p else p)) None), c)))
  /\ (cw_wrote w = false -> healthy c ->
      Forall (fun kv : bytes * list bytes => kv.2 <> []) (header w) ->
      let w1 := finalizeHeader DetectContentType p w in
      exists c',
        chunkWriter_Write DetectContentType statusText (S fuel) p (w, c)
        = (length p, None,
           (set_resp_bufw (set_cw_wrote w1 true)
              (Bufio.mkWriter
                 (Bufio.wbuf (resp_bufw w) ++ (if chunking w1 then frame p else p)) None),
            c'))
        /\ bufr c' = bufr c
        /\ sent c' = sent c ++ headerBlock statusText w1).
Proof.
  split.
  - intros Hw. by apply chunkWriter_Write_wrote.
  - intros Hw Hc Hh w1.
    destruct (chunkWriter_Write_first DetectContentType statusText fuel p w c Hw Hc Hh He Hl)
      as (c' & E & _ & Hr & Hs).
    by exists c'.
Qed.

Lemma chunkWriter_Write_frames_witness :
  exists c',
    chunkWriter_Write (fun _ => "text/plain") statusText_OK 1 "hello"
      (mkResponse false [] 200 false Bufio.newWriter false "HTTP/1.1" false false, newConn [])
    = (5, None,
       (mkResponse false
          [("Content-Type" : bytes, ["text/plain" : bytes]);
           ("Transfer-Encoding" : bytes, ["chunked" : bytes])]
          200 false (Bufio.mkWriter ("5" ++ CRLF ++ "hello" ++ CRLF) None) true "HTTP/1.1"
          false true, c'))
    /\ sent c'
       = "HTTP/1.1 200 OK" ++ CRLF ++ "Content-Type: text/plain" ++ CRLF
         ++ "Transfer-Encoding: chunked" ++ CRLF ++ CRLF.
Proof.
  destruct (chunkWriter_Write_frames (fun _ => "text/plain") statusText_OK 0 "hello"
              (mkResponse false [] 200 false Bufio.newWriter false "HTTP/1.1" false false)
              (newConn [])) as [_ H].
  - reflexivity.
  - unfold bufSize. simpl. lia.
  - destruct H as (c' & E & _ & Hs);
      [reflexivity | split; reflexivity | apply Forall_nil_2 |].
    exists c'. split; [exact E | exact Hs].
Defined.

Ltac neq_literal := let E := fresh in intros E; vm_compute in E; discriminate E.

Lemma finalizeHeader_second (w1 : response) :
  let w' :=
    if bool_decide (Header.Get (header w1) "Content-Length" = [])
       && bool_decide (Header.Get (header w1) "Transfer-Encoding" = [])
    then
      if handlerDone w1 then
        set_header w1
          (Header.Set_ (header w1) "Content-Length"
             (Strconv.Itoa (Z.of_nat (length (Bufio.wbuf (resp_bufw w1))))))
      else
        set_header (set_chunking w1 true) (Header.Set_ (header w1) "Transfer-Encoding" "chunked")
    else if bool_decide (Header.Get (header w1) "Transfer-Encoding" = "chunked")
    then set_chunking w1 true
    else w1 in
  chunking w'
  = chunking w1 || bool_decide (Header.Get (header w') "Transfer-Encoding" = "chunked")
  /\ Header.Get (header w') "Content-Type" = Header.Get (header w1) "Content-Type"
  /\ (Header.Get (header w1) "Content-Length" <> []
      \/ Header.Get (header w1) "Transfer-Encoding" <> [] ->
      header w' = header w1)
  /\ (Header.Get (header w1) "Content-Length" = [] ->
      Header.Get (header w1) "Transfer-Encoding" = [] ->
      if handlerDone w1 then
        Header.Get (header w') "Content-Length"
        = Strconv.Itoa (Z.of_nat (length (Bufio.wbuf (resp_bufw w1))))
        /\ Header.Get (header w') "Transfer-Encoding" = []
      else
        Header.Get (header w') "Transfer-Encoding" = "chunked"
        /\ Header.Get (header w') "Content-Length" = []).
Proof.
  intros w'. subst w'.
  destruct (bool_decide (Header.Get (header w1) "Content-Length" = [])) eqn:Ecl;
    destruct (bool_decide (Header.Get (header w1) "Transfer-Encoding" = [])) eqn:Ete;
    cbn [andb].
  - apply bool_decide_eq_true_1 in Ecl, Ete.
    destruct (handlerDone w1); cbn [set_header set_chunking header chunking].
    + rewrite (Get_Set_ne _ "Content-Length" _ "Transfer-Encoding") by neq_literal.
      rewrite (Get_Set_ne _ "Content-Length" _ "Content-Type") by neq_literal.
      rewrite Get_Set_eq, Ete.
      rewrite bool_decide_eq_false_2 by neq_literal. rewrite orb_false_r.
      split; [done|]. split; [done|]. split; [intros [?|?]; done|]. done.
    + rewrite (Get_Set_ne _ "Transfer-Encoding" _ "Content-Length") by neq_literal.
      rewrite (Get_Set_ne _ "Transfer-Encoding" _ "Content-Type") by neq_literal.
      rewrite Get_Set_eq.
      rewrite bool_decide_eq_true_2 by done. rewrite orb_true_r.
      split; [done|]. split; [done|]. split; [intros [?|?]; done|]. done.
  - apply bool_decide_eq_true_1 in Ecl. apply bool_decide_eq_false_1 in Ete.
    case_bool_decide as E; cbn [set_chunking header chunking].
    + rewrite bool_decide_eq_true_2 by done. rewrite orb_true_r. done.
    + rewrite bool_decide_eq_false_2 by done. rewrite orb_false_r. done.
  - apply bool_decide_eq_false_1 in Ecl. apply bool_decide_eq_true_1 in Ete.
    rewrite (bool_decide_eq_false_2 (Header.Get (header w1) "Transfer-Encoding" = "chunked"))
      by (rewrite Ete; neq_literal).
    rewrite bool_decide_eq_false_2 by (rewrite Ete; neq_literal).
    rewrite orb_false_r. done.
  - apply bool_decide_eq_false_1 in Ecl. apply bool_decide_eq_false_1 in Ete.
    case_bool_decide as E; cbn [set_chunking header chunking].
    + rewrite bool_decide_eq_true_2 by done. rewrite orb_true_r. done.
    + rewrite bool_decide_eq_false_2 by done. rewrite orb_false_r. done.
Qed.

(** X17: what [finalizeHeader] decides.  A Content-Type the handler has set
    stays, a missing one is sniffed from the bytes of the first write.  When
    the handler has set a Content-Length or a Transfer-Encoding, the header
    gets no other field; when it has set neither, the header gets a
    Content-Length that is the number of bytes held in [resp.bufw] if the
    handler is done, and [Transfer-Encoding: chunked] if it is not.  In every
    case chunked mode is on afterwards exactly when it was on before or the
    header says [Transfer-Encoding: chunked]. *)
Theorem finalizeHeader_decides (DetectContentType : bytes -> bytes) (p : bytes) (w : response) :
  let w' := finalizeHeader DetectContentType p w in
  let h := header w in
  let h' := header w' in
  chunking w' = chunking w || bool_decide (Header.Get h' "Transfer-Encoding" = "chunked")
  /\ Header.Get h' "Content-Type"
     = (if bool_decide (Header.Get h "Content-Type" = []) then DetectContentType p
        else Header.Get h "Content-Type")
  /\ (Header.Get h "Content-Length" <> [] \/ Header.Get h "Transfer-Encoding" <> [] ->
      Header.Get h' "Content-Length" = Header.Get h "Content-Length"
      /\ Header.Get h' "Transfer-Encoding" = Header.Get h "Transfer-Encoding")
  /\ (Header.Get h "Content-Length" = [] -> Header.Get h "Transfer-Encoding" = [] ->
      if handlerDone w then
        Header.Get h' "Content-Length"
        = Strconv.Itoa (Z.of_nat (length (Bufio.wbuf (resp_bufw w))))
        /\ Header.Get h' "Transfer-Encoding" = []
      else
        Header.Get h' "Transfer-Encoding" = "chunked" /\ Header.Get h' "Content-Length" = []).
Proof.
  intros w' h h'. subst w' h h'. unfold finalizeHeader.
  set (w1 := if bool_decide (Header.Get (header w) "Content-Type" = [])
             then set_header w (Header.Set_ (header w) "Content-Type" (DetectContentType p))
             else w).
  assert (H1 : Header.Get (header w1) "Content-Length" = Header.Get (header w) "Content-Length"
               /\ Header.Get (header w1) "Transfer-Encoding"
                  = Header.Get (header w) "Transfer-Encoding"
               /\ Header.Get (header w1) "Content-Type"
                  = (if bool_decide (Header.Get (header w) "Content-Type" = [])
                     then DetectContentType p else Header.Get (header w) "Content-Type")
               /\ chunking w1 = chunking w /\ handlerDone w1 = handlerDone w
               /\ resp_bufw w1 = resp_bufw w).
  { unfold w1. case_bool_decide; [|done]. cbn [set_header header chunking handlerDone resp_bufw].
    rewrite (Get_Set_ne _ "Content-Type" _ "Content-Length") by neq_literal.
    rewrite (Get_Set_ne _ "Content-Type" _ "Transfer-Encoding") by neq_literal.
    by rewrite Get_Set_eq. }
  destruct H1 as (C1 & C2 & C3 & C4 & C5 & C6).
  destruct (finalizeHeader_second w1) as (S1 & S2 & S3 & S4).
  match type of S1 with chunking ?X = _ => set (w' := X) in * end.
  rewrite C4 in S1. rewrite C3 in S2. rewrite C1, C2 in S3. rewrite C1, C2, C5, C6 in S4.
  split; [exact S1|]. split; [exact S2|]. split; [|exact S4].
  intros Hset. pose proof (S3 Hset) as Hh. split.
  - transitivity (Header.Get (header w1) "Content-Length"); [|exact C1].
    exact (f_equal (fun h => Header.Get h "Content-Length") Hh).
  - transitivity (Header.Get (header w1) "Transfer-Encoding"); [|exact C2].
    exact (f_equal (fun h => Header.Get h "Transfer-Encoding") Hh).
Qed.

Lemma finalizeHeader_decides_witness :
  let w := mkResponse false [("Content-Length" : bytes, ["5" : bytes])] 200 false
             Bufio.newWriter false "HTTP/1.1" false false in
  let h' := header (finalizeHeader (fun _ => "text/plain") "hello" w) in
  Header.Get h' "Content-Length" = "5" /\ Header.Get h' "Transfer-Encoding" = [].
Proof.
  intros w h'.
  destruct (finalizeHeader_decides (fun _ => "text/plain") "hello" w) as (_ & _ & H & _).
  apply H. left. discriminate.
Defined.

(** ** The header block on the wire *)

(** X18: what [writeHeader] sends for a response is read back by the line
    and header scanner: [readLine] gives the status line, and [readHeader]
    then gives the header of the response and stops after the empty line. *)
Theorem writeHeader_read_back (statusText : Z -> bytes) (w : response) (c : conn)
    (fields : list (bytes * bytes))
    (Hc : healthy c) (Hs : sent c = [])
    (Hh : header w = headerOf fields)
    (Hf : Forall fieldOK fields) (Hnd : NoDup (map fst fields))
    (Hl : LF ∉ statusLine statusText w)
    (Hlen : length (statusLine statusText w) + 2 <= bufSize) :
  exists c' s1,
    writeHeader statusText w c = (None, c')
    /\ readLine (sent c') = (statusLine statusText w, None, s1)
    /\ readHeader s1 = (Some (header w), None, []).
Proof.
  assert (Hne : Forall (fun kv : bytes * list bytes => kv.2 <> []) (header w)).
  { rewrite Hh. unfold headerOf. apply Forall_map. by apply Forall_true. }
  destruct (writeHeader_ok statusText w c Hc Hne) as (c' & E & _ & _ & Hsent).
  exists c', (headerLines (header w) ++ CRLF). split; [done|].
  rewrite Hsent, Hs. cbn [app]. unfold headerBlock.
  replace (resp_Proto w ++ " " ++ Strconv.Itoa (statusCode w) ++ " "
           ++ statusText (statusCode w) ++ CRLF ++ headerLines (header w) ++ CRLF)
    with (statusLine statusText w ++ CRLF ++ headerLines (header w) ++ CRLF)
    by (unfold statusLine; by rewrite <- !app_assoc).
  split; [by apply readLine_crlf|].
  rewrite Hh. rewrite <- (app_nil_r CRLF).
  rewrite readHeader_fields by done. by rewrite collect_NoDup.
Qed.

Lemma writeHeader_read_back_witness :
  let w := mkResponse false
             [("Content-Type" : bytes, ["text/html" : bytes]);
              ("Content-Length" : bytes, ["0" : bytes])]
             200 true Bufio.newWriter false "HTTP/1.1" false false in
  exists c' s1,
    writeHeader statusText_OK w (newConn []) = (None, c')
    /\ readLine (sent c') = ("HTTP/1.1 200 OK" : bytes, None, s1)
    /\ readHeader s1 = (Some (header w), None, []).
Proof.
  intros w.
  apply (writeHeader_read_back statusText_OK w (newConn [])
           [("Content-Type" : bytes, "text/html" : bytes);
            ("Content-Length" : bytes, "0" : bytes)]).
  - split; reflexivity.
  - reflexivity.
  - reflexivity.
  - repeat (apply Forall_cons_2;
            [repeat split; try (by apply not_elem_of_literal); unfold bufSize; simpl; lia|]).
    apply Forall_nil_2.
  - apply NoDup_cons_2; [|apply NoDup_singleton].
    apply not_elem_of_cons. split; [discriminate|apply not_elem_of_nil].
  - by apply not_elem_of_literal.
  - unfold bufSize. simpl. lia.
Defined.

(** ** The first line of a multipart body *)



(** ** The names of a part *)

Lemma Get_single (k v : bytes) : Header.Get [(k, [v])] k = v.
Proof. unfold Header.Get. cbn [Header.values]. by rewrite bool_decide_eq_true_2. Qed.

Lemma parseFormData_other_token p tok rest :
  Header.Get (p_Header p) "Content-Disposition" = tok ++ ";"%char :: rest ->
  ";"%char ∉ tok -> Strings.ToLower tok <> "form-data" ->
  parseFormData p
  = mkPart (p_Header p) (formName p) (fileName p) (closed p) (substituteReader p) true.
Proof.
  intros Hcd Htok Hlow. unfold parseFormData. rewrite Hcd.
  rewrite Split_app_sep by done. cbn [hd].
  rewrite (bool_decide_eq_false_2 _ Hlow). cbn [negb]. by rewrite orb_true_r.
Qed.

Lemma parseFormData_no_semicolon p :
  ";"%char ∉ Header.Get (p_Header p) "Content-Disposition" ->
  parseFormData p
  = mkPart (p_Header p) (formName p) (fileName p) (closed p) (substituteReader p) true.
Proof.
  intros Hcd. unfold parseFormData. rewrite Split_none by done. reflexivity.
Qed.

(** X20: [FormName] and [FileName] give what stands between the quotes of
    name= and filename= in a part's Content-Disposition (the empty string for
    a missing filename).  Both are empty when the Content-Disposition has no
    ';', and when what stands before its first ';' is not "form-data" in any
    mix of upper and lower case. *)
Theorem Part_names (fp : FormPart) (h : Header.t) (tok rest : bytes) :
  (nameOK (fp_name fp) -> nameOK (fp_fileName fp) ->
   FormName (newPart (partHeader fp)) = fp_name fp
   /\ FileName (newPart (partHeader fp)) = fp_fileName fp)
  /\ (";"%char ∉ Header.Get h "Content-Disposition" ->
      FormName (newPart h) = [] /\ FileName (newPart h) = [])
  /\ (Header.Get h "Content-Disposition" = tok ++ ";"%char :: rest ->
      ";"%char ∉ tok -> Strings.ToLower tok <> "form-data" ->
      FormName (newPart h) = [] /\ FileName (newPart h) = []).
Proof.
  split; [|split].
  - intros H1 H2. unfold FormName, FileName. by rewrite Part_parse_canonical.
  - intros H. unfold FormName, FileName, Part_parse. cbn [parsed newPart].
    by rewrite parseFormData_no_semicolon.
  - intros H1 H2 H3. unfold FormName, FileName, Part_parse. cbn [parsed newPart].
    by rewrite (parseFormData_other_token _ tok rest).
Qed.

Lemma Part_names_witness :
  (FormName (newPart (partHeader (mkFormPart "avatar" "me.png" [])))) = ("avatar" : bytes)
  /\ FileName (newPart (partHeader (mkFormPart "avatar" "me.png" []))) = ("me.png" : bytes)
  /\ FormName (newPart [("Content-Disposition" : bytes,
                         ["attachment; name=" ++ [DQUOTE] ++ "a" ++ [DQUOTE]])]) = [].
Proof.
  destruct (Part_names (mkFormPart "avatar" "me.png" [])
              [("Content-Disposition" : bytes,
                ["attachment; name=" ++ [DQUOTE] ++ "a" ++ [DQUOTE]])]
              "attachment" (" name=" ++ [DQUOTE] ++ "a" ++ [DQUOTE])) as (H1 & _ & H3).
  destruct H1 as [N1 N2]; [repeat split; by apply not_elem_of_literal ..|].
  destruct H3 as [N3 _]; [reflexivity|by apply not_elem_of_literal|discriminate|].
  done.
Defined.

(** ** Reading a part in two steps *)

(** X21: copying at most [n] bytes of a part yields the first [n] bytes of
    its content, or all of it with [io.EOF] when it has fewer; reading the
    part to its end after that yields the rest, so the two together are the
    content, and the delimiter is left unread. *)
Theorem Part_CopyN_then_ReadAll (cap : nat -> nat) (b : bytes) (n : nat)
    (p : Part) (mr : MultipartReader) (body rest : bytes) (fuel : nat)
    (Hcap : forall i, 0 < cap i) (Hb : wellFormedBoundary b)
    (Hr : reading (CRLF ++ "--" ++ b) p mr body rest)
    (Hfuel : length body < fuel) :
  exists p1 mr1 p2 mr2,
    Part_CopyN cap fuel (Z.of_nat n) p mr
    = (take n body, (if length body <? n then Some EOF else None), p1, mr1)
    /\ Part_ReadAll cap fuel 0 p1 mr1 = (drop n body, None, p2, mr2)
    /\ mr_bufr mr2 = (CRLF ++ "--" ++ b) ++ rest.
Proof.
  destruct (delim_length b Hb) as [L1 L2].
  destruct (Nat.ltb_spec (length body) n) as [Hlt|Hge].
  - destruct (Part_CopyN_all cap Hcap _ L1 L2 fuel (Z.of_nat n) p mr body rest Hr Hfuel
                ltac:(lia)) as (p1 & mr1 & E1 & R1 & _).
    destruct (Part_ReadAll_reading cap Hcap _ L1 L2 fuel 0 p1 mr1 [] rest R1 ltac:(simpl; lia))
      as (p2 & mr2 & E2 & R2 & _).
    exists p1, mr1, p2, mr2. rewrite take_ge, drop_ge by lia.
    split; [done|]. split; [done|]. apply (rd_stream _ _ _ _ _ R2).
  - destruct (Part_CopyN_some cap Hcap _ L1 L2 fuel n p mr body rest Hr Hfuel Hge)
      as (p1 & mr1 & E1 & R1 & _).
    destruct (Part_ReadAll_reading cap Hcap _ L1 L2 fuel 0 p1 mr1 _ rest R1
                ltac:(rewrite length_drop; lia)) as (p2 & mr2 & E2 & R2 & _).
    exists p1, mr1, p2, mr2.
    split; [done|]. split; [done|]. apply (rd_stream _ _ _ _ _ R2).
Qed.

Lemma Part_CopyN_then_ReadAll_witness :
  exists p1 mr1 p2 mr2,
    Part_CopyN (fun _ => 512) 12 (Z.of_nat 4) (newPart [])
      (NewMultipartReader ("hello world" ++ CRLF ++ "--XX" ++ "--" ++ CRLF) "XX")
    = ("hell" : bytes, None, p1, mr1)
    /\ Part_ReadAll (fun _ => 512) 12 0 p1 mr1 = ("o world" : bytes, None, p2, mr2)
    /\ mr_bufr mr2 = (CRLF ++ "--" ++ "XX") ++ "--" ++ CRLF.
Proof.
  apply (Part_CopyN_then_ReadAll (fun _ => 512) "XX" 4 (newPart [])
           (NewMultipartReader ("hello world" ++ CRLF ++ "--XX" ++ "--" ++ CRLF) "XX")
           "hello world" ("--" ++ CRLF) 12).
  - intros _. lia.
  - split; [by apply not_elem_of_literal|simpl; lia].
  - constructor; try reflexivity. by left.
  - simpl. lia.
Defined.

(** ** Passing over a part *)

Section Skip.

Context (cap : nat -> nat) (Hcap : forall i, 0 < cap i).
Context (b : bytes) (Hb : wellFormedBoundary b).

Lemma closeCurPart_reading p mr body Y :
  reading (CRLF ++ "--" ++ b) p mr body Y ->
  exists p' mr',
    closeCurPart cap (Some p) mr = (None, Some p', mr')
    /\ mr_bufr mr' = ("--" ++ b) ++ Y /\ sameDelims mr mr'.
Proof.
  intros Hr. unfold closeCurPart, Part_Close. rewrite (rd_open _ _ _ _ _ Hr).
  destruct (delim_length b Hb) as [L1 L2].
  destruct (Part_ReadAll_reading cap Hcap _ L1 L2 (S (S (length (mr_bufr mr)))) 0
              p mr body Y Hr) as (p' & mr' & -> & R1 & R2 & R3 & R4).
  { rewrite (rd_stream _ _ _ _ _ Hr), length_app. lia. }
  unfold MultipartReader_discardCRLF. rewrite (rd_stream _ _ _ _ _ R1).
  cbn [app]. unfold CRLF. cbn [app Bufio.ReadFull length Nat.leb take drop store2 fst snd].
  eexists _, _. split; [reflexivity|]. split; [reflexivity|].
  destruct R4 as (?&?&?&?). by destruct mr'.
Qed.

Lemma NextPart_after_unread p mr body fp fps :
  delimsOf b mr -> wellFormedPart b fp ->
  reading (CRLF ++ "--" ++ b) p mr body (tailForm b (fp :: fps)) ->
  exists mr',
    NextPart cap (Some p) mr
    = (Some (newPart (partHeader fp)), None, Some (newPart (partHeader fp)), mr')
    /\ mr_bufr mr' = fp_body fp ++ (CRLF ++ "--" ++ b) ++ tailForm b fps.
Proof.
  intros HD (W1 & W2 & W3 & W4 & W5) Hr.
  destruct (closeCurPart_reading p mr body _ Hr) as (p' & mr' & Hc & Hs & Hsame).
  unfold NextPart. rewrite Hc, Hs.
  destruct HD as (D1 & D2 & D3). destruct Hsame as (S1 & S2 & S3 & S4).
  unfold tailForm. fold tailForm.
  rewrite readLine_crlf; cycle 1.
  { by apply dash_LF. }
  { destruct Hb as [_ Hl]. rewrite !length_app. unfold bufSize. simpl. lia. }
  cbn [dashBoundaryDash dashBoundary set_mr_bufr mr_bufr]. rewrite S3, S4, D2, D3.
  rewrite bool_decide_eq_false_2; cycle 1.
  { intros E. apply (f_equal length) in E. rewrite !length_app in E. simpl in E. lia. }
  rewrite bool_decide_eq_true_2 by done. cbn [negb].
  rewrite readHeader_canonical by done.
  cbn [default]. eexists. split; [reflexivity|].
  cbn [mr_bufr]. rewrite encodeForm_tail. by rewrite <- !app_assoc.
Qed.

End Skip.

(** X22: [NextPart] passes over what has not been read of the current part:
    whatever is left of its content, the reader goes to the delimiter after
    it, reads the header of the part that follows and stands at the content
    of that part. *)
Theorem NextPart_skips_unread (cap : nat -> nat) (b : bytes) (p : Part)
    (mr : MultipartReader) (body : bytes) (fp : FormPart) (fps : list FormPart)
    (Hcap : forall i, 0 < cap i) (Hb : wellFormedBoundary b)
    (HD : delimsOf b mr) (Hfp : wellFormedPart b fp)
    (Hr : reading (CRLF ++ "--" ++ b) p mr body (tailForm b (fp :: fps))) :
  exists mr',
    NextPart cap (Some p) mr
    = (Some (newPart (partHeader fp)), None, Some (newPart (partHeader fp)), mr')
    /\ mr_bufr mr' = fp_body fp ++ (CRLF ++ "--" ++ b) ++ tailForm b fps.
Proof. by apply (NextPart_after_unread cap Hcap b Hb p mr body). Qed.

Lemma NextPart_skips_unread_witness :
  let fp := mkFormPart "b" [] "second" in
  exists mr',
    NextPart (fun _ => 512) (Some (newPart []))
      (NewMultipartReader ("unread" ++ (CRLF ++ "--" ++ "XX") ++ tailForm "XX" [fp]) "XX")
    = (Some (newPart (partHeader fp)), None, Some (newPart (partHeader fp)), mr')
    /\ mr_bufr mr' = "second" ++ (CRLF ++ "--" ++ "XX") ++ tailForm "XX" [].
Proof.
  intros fp.
  apply (NextPart_skips_unread (fun _ => 512) "XX" (newPart [])
           (NewMultipartReader ("unread" ++ (CRLF ++ "--" ++ "XX") ++ tailForm "XX" [fp]) "XX")
           "unread" fp []).
  - intros _. lia.
  - split; [by apply not_elem_of_literal|simpl; lia].
  - repeat split.
  - split; [discriminate|]. split; [repeat split; by apply not_elem_of_literal|].
    split; [repeat split; by apply not_elem_of_literal|]. split; [simpl; lia|reflexivity].
  - constructor; try reflexivity. by left.
Defined.

(** ** Cookies *)

Lemma trimmed_ends (s : bytes) a b t :
  s = a :: t -> last s = Some b -> isGraphic a = true -> isGraphic b = true ->
  trimmed s = true.
Proof. intros -> Hl Ha Hb. unfold trimmed. cbn [head]. by rewrite Hl, Ha, Hb. Qed.

Lemma trimmed_head a t : trimmed (a :: t) = true -> isGraphic a = true.
Proof.
  unfold trimmed. cbn [head]. destruct (last (a :: t)) eqn:E; [|by apply last_None in E].
  by intros [? _]%andb_true_iff.
Qed.

Lemma trimmed_last s b : trimmed s = true -> last s = Some b -> isGraphic b = true.
Proof.
  unfold trimmed. intros H Hl. rewrite Hl in H. destruct (head s) eqn:E.
  - by apply andb_true_iff in H as [_ ?].
  - destruct s; [done|discriminate].
Qed.

Lemma pair_graphic (pre k v : bytes) :
  trimmed v = true ->
  exists b, last (pre ++ k ++ "=" ++ v) = Some b /\ isGraphic b = true.
Proof.
  intros Hv. destruct (last v) as [b|] eqn:E.
  - exists b. split; [|by eapply trimmed_last].
    apply last_Some in E as [v' ->]. rewrite !app_assoc. apply last_snoc.
  - apply last_None in E as ->. exists "="%char. split; [|done].
    rewrite app_nil_r, !app_assoc. apply last_snoc.
Qed.

Lemma last_join c parts p b :
  last p = Some b -> last (join c (parts ++ [p])) = Some b.
Proof.
  intros Hp. induction parts as [|q parts IH]; [done|].
  cbn [app]. rewrite join_cons by (by destruct parts).
  rewrite last_app, last_cons, IH. done.
Qed.

Lemma encodeCookies_trimmed kvs : Forall cookieOK kvs -> trimmed (encodeCookies kvs) = true.
Proof.
  destruct kvs as [|[k v] rest]; [done|]. intros [(H1 & H2 & H3 & Tk & Tv) Hrest]%Forall_cons.
  cbn [fst snd] in *. unfold encodeCookies. cbn [fst snd].
  set (parts := map (fun kv : bytes * bytes => " " ++ kv.1 ++ "=" ++ kv.2) rest).
  assert (Hhead : exists a t, join ";" ((k ++ "=" ++ v) :: parts) = a :: t /\ isGraphic a = true).
  { destruct k as [|a k].
    - exists "="%char. destruct parts; cbn [join app list_ascii_of_string]; eauto.
    - exists a. apply trimmed_head in Tk. destruct parts; cbn [join app]; eauto. }
  destruct Hhead as (a & t & Ea & Ha).
  assert (Hlast : exists b, last (join ";" ((k ++ "=" ++ v) :: parts)) = Some b
                            /\ isGraphic b = true).
  { unfold parts. clear -Tv Hrest. revert Hrest.
    induction rest as [|[k' v'] rest' _] using rev_ind; intros Hrest.
    - cbn [map join]. apply (pair_graphic [] k v Tv).
    - apply Forall_app in Hrest as [_ [(_ & _ & _ & _ & Tv') _]%Forall_cons].
      cbn [fst snd] in Tv'. rewrite map_app. cbn [map fst snd].
      destruct (pair_graphic " " k' v' Tv') as (b & Hb & Gb). exists b. split; [|done].
      rewrite app_comm_cons. by apply last_join. }
  destruct Hlast as (b & Eb & Hb). by eapply trimmed_ends.
Qed.

Lemma parseCookies_kvs_app l1 : forall l2 m,
  parseCookies_kvs (l1 ++ l2) m = parseCookies_kvs l2 (parseCookies_kvs l1 m).
Proof.
  induction l1 as [|p l1 IH]; intros l2 m; [done|]. cbn [app parseCookies_kvs].
  destruct (Strings.IndexByte p "="); apply IH.
Qed.

Lemma parseCookies_kvs_pair (pre : bytes) kv m :
  cookieOK kv -> pre = [] \/ pre = " " ->
  parseCookies_kvs [pre ++ kv.1 ++ "=" ++ kv.2] m = <[kv.1 := kv.2]> m.
Proof.
  destruct kv as [k v]. intros (_ & Hk & _ & Tk & Tv) Hpre. cbn [fst snd] in *.
  cbn [parseCookies_kvs].
  assert (Hi : "="%char ∉ pre ++ k).
  { rewrite not_elem_of_app. split; [|done].
    destruct Hpre as [-> | ->]; [apply not_elem_of_nil|by apply not_elem_of_literal]. }
  replace (pre ++ k ++ "=" ++ v) with ((pre ++ k) ++ "="%char :: v)
    by (by rewrite <- app_assoc).
  rewrite IndexByte_app by done. rewrite take_app_length.
  replace (S (length (pre ++ k))) with (length (pre ++ k) + 1) by lia.
  rewrite <- drop_drop, drop_app_length. cbn [drop]. rewrite drop_0.
  rewrite (TrimSpace_id v Tv).
  destruct Hpre as [-> | ->]; [cbn [app]; by rewrite (TrimSpace_id k Tk)|by rewrite TrimSpace_space].
Qed.

Lemma parseCookies_kvs_rest rest : forall m,
  Forall cookieOK rest ->
  parseCookies_kvs (map (fun kv => " " ++ kv.1 ++ "=" ++ kv.2) rest) m
  = foldl (fun m kv => <[kv.1 := kv.2]> m) m rest.
Proof.
  induction rest as [|kv rest IH]; intros m Hr; [done|].
  apply Forall_cons in Hr as [H1 H2]. cbn [map foldl].
  change (?a :: ?l) with ([a] ++ l).
  rewrite parseCookies_kvs_app, (parseCookies_kvs_pair " ") by (done || by right).
  by apply IH.
Qed.

Lemma parseCookies_line kvs m :
  Forall cookieOK kvs ->
  parseCookies_lines [encodeCookies kvs] m = foldl (fun m kv => <[kv.1 := kv.2]> m) m kvs.
Proof.
  intros Hk. cbn [parseCookies_lines].
  rewrite (TrimSpace_id _ (encodeCookies_trimmed kvs Hk)).
  destruct kvs as [|kv rest]; [reflexivity|].
  apply Forall_cons in Hk as [H1 H2]. unfold encodeCookies.
  rewrite Split_join; cycle 1.
  { done. }
  { apply Forall_cons. split.
    - destruct kv as [k v]. destruct H1 as (A & _ & B & _). cbn [fst snd] in *.
      rewrite !not_elem_of_app. split; [done|]. split; [by apply not_elem_of_literal|done].
    - apply Forall_map. eapply Forall_impl; [exact H2|].
      intros [k v] (A & _ & B & _). cbn [fst snd] in *.
      rewrite !not_elem_of_app. split; [by apply not_elem_of_literal|].
      split; [done|]. split; [by apply not_elem_of_literal|done]. }
  cbn [hd]. rewrite bool_decide_eq_false_2; cycle 1.
  { intros E. apply (f_equal length) in E. rewrite !length_app in E. simpl in E. lia. }
  rewrite andb_false_r.
  change (?a :: ?l) with ([a] ++ l).
  rewrite parseCookies_kvs_app.
  pose proof (parseCookies_kvs_pair [] kv m H1 ltac:(by left)) as Hp. cbn [app] in Hp.
  rewrite Hp. rewrite parseCookies_kvs_rest by done. reflexivity.
Qed.

Lemma parseCookies_lines_app l1 : forall l2 m,
  parseCookies_lines (l1 ++ l2) m = parseCookies_lines l2 (parseCookies_lines l1 m).
Proof.
  induction l1 as [|p l1 IH]; intros l2 m; [done|]. cbn [app parseCookies_lines].
  destruct ((length (Strings.Split (Strings.TrimSpace p) ";") =? 1)
            && bool_decide (hd [] (Strings.Split (Strings.TrimSpace p) ";") = [])); apply IH.
Qed.

Lemma parseCookies_lines_encoded kvss : forall m,
  Forall (Forall cookieOK) kvss ->
  parseCookies_lines (map encodeCookies kvss) m
  = foldl (fun m kv => <[kv.1 := kv.2]> m) m (concat kvss).
Proof.
  induction kvss as [|kvs kvss IH]; intros m Hk; [done|].
  apply Forall_cons in Hk as [H1 H2]. cbn [map concat].
  change (?a :: ?l) with ([a] ++ l).
  rewrite parseCookies_lines_app, parseCookies_line by done.
  rewrite foldl_app. by apply IH.
Qed.

(** X23: the cookies of a request.  The pairs name=value of the Cookie
    lines, "; " between them, are read into one map in which a name holds the
    value of its last pair; [Cookie] answers from that map, with the empty
    string for a name that is not there.  A request without a Cookie field
    has no cookies.  Once the map is made it is what [Cookie] answers from,
    whatever the header holds then. *)
Theorem Cookie_roundtrip (h : Header.t) (kvss : list (list (bytes * bytes))) (name : bytes) :
  (Header.values h "Cookie" = Some (map encodeCookies kvss) ->
   Forall (Forall cookieOK) kvss ->
   parseCookies h = lastWins (concat kvss)
   /\ Request_Cookie name None h
      = (default [] (lastWins (concat kvss) !! name), Some (lastWins (concat kvss))))
  /\ (Header.values h "Cookie" = None -> Request_Cookie name None h = ([], Some ∅))
  /\ (forall m h', Request_Cookie name (Some m) h' = (default [] (m !! name), Some m)).
Proof.
  split; [|split].
  - intros Hv Hk.
    assert (E : parseCookies h = lastWins (concat kvss)).
    { unfold parseCookies. rewrite Hv. by apply parseCookies_lines_encoded. }
    split; [done|]. unfold Request_Cookie. by rewrite E.
  - intros Hv. unfold Request_Cookie, parseCookies. by rewrite Hv.
  - done.
Qed.

Lemma Cookie_roundtrip_witness :
  let h : Header.t :=
    [("Host" : bytes, ["a" : bytes]); ("Cookie" : bytes, ["sid=abc; theme=dark" : bytes])] in
  Request_Cookie "theme" None h
  = ("dark" : bytes,
     Some (lastWins [("sid" : bytes, "abc" : bytes); ("theme" : bytes, "dark" : bytes)])).
Proof.
  intros h.
  destruct (Cookie_roundtrip h [[("sid" : bytes, "abc" : bytes);
                                 ("theme" : bytes, "dark" : bytes)]] "theme") as [H _].
  destruct H as [_ H].
  - reflexivity.
  - apply Forall_cons_2; [|apply Forall_nil_2].
    apply Forall_cons_2; [|apply Forall_cons_2; [|apply Forall_nil_2]];
      repeat split; by apply not_elem_of_literal.
  - exact H.
Defined.

(** ** Decoding a request *)

Lemma isGraphic_spec c : isGraphic c = true -> 32 < nat_of_ascii c < 128.
Proof.
  unfold isGraphic. intros [H1%Nat.ltb_lt H2%Nat.ltb_lt]%andb_true_iff. lia.
Qed.



Lemma SkipSpace_graphic fuel c s :
  isGraphic c = true -> Fmt.SkipSpace fuel (c :: s) = Some (c :: s).
Proof.
  intros Hc. destruct fuel; [done|]. cbn [Fmt.SkipSpace].
  destruct (Ascii.eqb_spec c "010") as [->|_]; [done|].
  by rewrite spaceRuneLen_cons by (by apply isGraphic_spec).
Qed.







(** ** The connection loop *)




(** X26: no call a handler makes reaches the chunk writer.  Whatever the
    handler does with the response and the request, [resp.bufw] holds what it
    held before, [cw.wrote] and the chunked mode are as before, and the
    response is not marked as done: for the response [setupResponse] makes,
    the buffer is empty and no header has been written when the handler
    returns. *)
Theorem handler_never_reaches_chunkWriter (cap : nat -> nat) (acts : list action)
    (x : exchange) :
  let w := ex_resp x in
  let w' := ex_resp (run_handler cap acts x).2 in
  resp_bufw w' = resp_bufw w /\ cw_wrote w' = cw_wrote w /\ chunking w' = chunking w
  /\ handlerDone w' = handlerDone w
  /\ (forall req, w = setupResponse req ->
        resp_bufw w' = Bufio.newWriter /\ cw_wrote w' = false /\ chunking w' = false).
Proof.
  cbn zeta.
  assert (H : resp_bufw (ex_resp (run_handler cap acts x).2) = resp_bufw (ex_resp x)
              /\ cw_wrote (ex_resp (run_handler cap acts x).2) = cw_wrote (ex_resp x)
              /\ chunking (ex_resp (run_handler cap acts x).2) = chunking (ex_resp x)
              /\ handlerDone (ex_resp (run_handler cap acts x).2) = handlerDone (ex_resp x)).
  { revert x. induction acts as [|a acts IH]; intros x; [done|].
    cbn [run_handler].
    assert (Ha : resp_bufw (ex_resp (run_action cap a x).2) = resp_bufw (ex_resp x)
                 /\ cw_wrote (ex_resp (run_action cap a x).2) = cw_wrote (ex_resp x)
                 /\ chunking (ex_resp (run_action cap a x).2) = chunking (ex_resp x)
                 /\ handlerDone (ex_resp (run_action cap a x).2) = handlerDone (ex_resp x)).
    { destruct a; cbn [run_action].
      - unfold response_Write. destruct (conn_Write p (ex_conn x)) as [[n [e|]] c']; done.
      - done.
      - unfold response_WriteHeader. by destruct (wroteHeader (ex_resp x)).
      - by destruct (body_Read k (Body (ex_req x)) (ex_conn x)) as [[[? ?] ?] ?].
      - by destruct (Request_PostForm cap name (ex_req x) (ex_conn x) (ex_fs x))
          as [[[? ?] ?] ?].
      - by destruct (Request_MultipartForm cap (ex_req x) (ex_conn x) (ex_fs x))
          as [[[[? ?] ?] ?] ?].
      - done. }
    destruct (run_action cap a x) as [panicked x1]. cbn [snd] in Ha.
    destruct panicked; [done|].
    destruct (IH x1) as (I1 & I2 & I3 & I4). destruct Ha as (A1 & A2 & A3 & A4).
    repeat split; congruence. }
  destruct H as (H1 & H2 & H3 & H4).
  split; [done|]. split; [done|]. split; [done|]. split; [done|].
  intros req Hw. rewrite H1, H2, H3, Hw. unfold setupResponse.
  by destruct (Fmt.Sscanf_HTTP_d_d (Proto req)).
Qed.

Lemma handler_never_reaches_chunkWriter_witness :
  let req := newRequest "GET" "HTTP/1.1" [] in
  let x := mkExchange req (setupResponse req) (newConn []) emptyFS in
  let w' := ex_resp (run_handler (fun _ => 512)
                       [DoSetHeader "Transfer-Encoding" "chunked"; DoWrite "hi"] x).2 in
  resp_bufw w' = Bufio.newWriter /\ cw_wrote w' = false /\ chunking w' = false.
Proof.
  intros req x w'.
  destruct (handler_never_reaches_chunkWriter (fun _ => 512)
              [DoSetHeader "Transfer-Encoding" "chunked"; DoWrite "hi"] x)
    as (_ & _ & _ & _ & H).
  apply (H req). reflexivity.
Defined.

(** ** The protocol version and the close decision *)

Lemma isDigit_graphic c : Strconv.isDigit c = true -> isGraphic c = true.
Proof.
  unfold Strconv.isDigit, isGraphic.
  intros [H1%Nat.leb_le H2%Nat.leb_le]%andb_true_iff.
  apply andb_true_iff. split; apply Nat.ltb_lt; lia.
Qed.

Lemma isDigit_no_sign c :
  Strconv.isDigit c = true -> Ascii.eqb c "+" = false /\ Ascii.eqb c "-" = false.
Proof.
  unfold Strconv.isDigit. intros [H1%Nat.leb_le H2%Nat.leb_le]%andb_true_iff.
  split; apply Ascii.eqb_neq; intros ->; vm_compute in H1; lia.
Qed.

Lemma parseDigits_head acc c ds x :
  Strconv.parseDigits acc (c :: ds) = Some x -> Strconv.isDigit c = true.
Proof. cbn [Strconv.parseDigits]. by destruct (Strconv.isDigit c). Qed.

Lemma parseDigits_nonneg ds : forall acc x,
  (0 <= acc)%Z -> Strconv.parseDigits acc ds = Some x -> (0 <= x)%Z.
Proof.
  induction ds as [|c ds IH]; intros acc y Ha H; cbn [Strconv.parseDigits] in H.
  - by simplify_eq.
  - destruct (Strconv.isDigit c) eqn:Hc; [|done].
    apply (IH (acc * 10 + Strconv.digitVal c)%Z y); [|done].
    unfold Strconv.isDigit in Hc. apply andb_true_iff in Hc as [H1%Nat.leb_le _].
    unfold Strconv.digitVal. lia.
Qed.

Lemma spanNumber_digits ds : forall acc x rest,
  Strconv.parseDigits acc ds = Some x ->
  Fmt.spanNumber (ds ++ "."%char :: rest) = (ds, "."%char :: rest).
Proof.
  induction ds as [|c ds IH]; intros acc x rest H; [done|].
  pose proof (parseDigits_head _ _ _ _ H) as Hc.
  cbn [Strconv.parseDigits] in H. rewrite Hc in H.
  cbn [app Fmt.spanNumber]. unfold Fmt.isNumberByte. rewrite Hc. cbn [orb].
  by rewrite (IH _ _ rest H).
Qed.

Lemma scanInt_digits ds x rest :
  ds <> [] -> Strconv.parseDigits 0 ds = Some x -> (x < 2 ^ 63)%Z ->
  Fmt.scanInt (ds ++ "."%char :: rest) = Some (x, "."%char :: rest).
Proof.
  intros Hne Hx Hr. destruct ds as [|c ds]; [done|].
  pose proof (parseDigits_head _ _ _ _ Hx) as Hc.
  destruct (isDigit_no_sign c Hc) as [Hp Hm].
  unfold Fmt.scanInt. cbn [app]. rewrite SkipSpace_graphic by (by apply isDigit_graphic).
  rewrite Hp, Hm. cbn [orb].
  change (c :: ds ++ "."%char :: rest) with ((c :: ds) ++ "."%char :: rest).
  rewrite (spanNumber_digits _ _ _ rest Hx). cbn [app].
  unfold Strconv.ParseInt. rewrite Hp, Hm, Hx.
  by destruct (Z.ltb_spec x (2 ^ 63)); [|lia].
Qed.

Lemma scanInt_dot rest : Fmt.scanInt ("."%char :: rest) = None.
Proof.
  unfold Fmt.scanInt. by rewrite SkipSpace_graphic.
Qed.

Lemma stripPrefix_app p s : Fmt.stripPrefix p (p ++ s) = Some s.
Proof.
  induction p as [|a p IH]; [by destruct s|]. cbn [app Fmt.stripPrefix].
  by rewrite Ascii.eqb_refl.
Qed.

(** X27: the close decision of [setupResponse].  For a protocol "HTTP/x.y",
    only the number before the dot is scanned: the connection is closed after
    the reply exactly when that number is 0 or 1, or the request has a header
    field named "Connectioni" with the value "close".  What stands after the
    dot plays no part, and neither does the field "Connection". *)
Theorem setupResponse_close_rule (req : Request) (ds rest : bytes) (x : Z)
    (Hp : Proto req = "HTTP/" ++ ds ++ "." ++ rest)
    (Hds : ds <> []) (Hx : Strconv.parseDigits 0 ds = Some x) (Hr : (x < 2 ^ 63)%Z) :
  Fmt.Sscanf_HTTP_d_d (Proto req) = (x, 0%Z)
  /\ closeAfterReply (setupResponse req)
     = (x <=? 1)%Z || bool_decide (Header.Get (r_Header req) "Connectioni" = "close").
Proof.
  assert (Hs : Fmt.Sscanf_HTTP_d_d (Proto req) = (x, 0%Z)).
  { rewrite Hp. unfold Fmt.Sscanf_HTTP_d_d. rewrite stripPrefix_app.
    change ("." ++ rest) with ("."%char :: rest).
    rewrite (scanInt_digits ds x rest Hds Hx Hr). by rewrite scanInt_dot. }
  split; [done|]. unfold setupResponse. rewrite Hs. cbn [closeAfterReply].
  f_equal.
  pose proof (parseDigits_nonneg ds 0%Z x ltac:(lia) Hx).
  destruct (Z.ltb_spec x 1), (Z.eqb_spec x 1), (Z.leb_spec x 1); cbn; try lia; done.
Qed.

Lemma setupResponse_close_rule_witness :
  closeAfterReply (setupResponse (newRequest "GET" "HTTP/1.1" [])) = true
  /\ closeAfterReply
       (setupResponse
          (newRequest "GET" "HTTP/2.0" [("Connection" : bytes, ["close" : bytes])])) = false.
Proof.
  split.
  - refine (proj2 (setupResponse_close_rule (newRequest "GET" "HTTP/1.1" []) "1" "1" 1 _ _ _ _));
      [reflexivity|discriminate|reflexivity|reflexivity].
  - refine (proj2 (setupResponse_close_rule
                     (newRequest "GET" "HTTP/2.0" [("Connection" : bytes, ["close" : bytes])])
                     "2" "0" 2 _ _ _ _));
      [reflexivity|discriminate|reflexivity|reflexivity].
Defined.

(** ** The body a handler has not read *)



